(** * MoltBond: agent reputation staking and escrow

    A shallow embedding of [contracts/MoltBond.sol] and the proofs of the
    properties its specification states.  The contract is a Solidity 0.8
    program: every [uint256] is a [Z] in [0, 2^256), arithmetic is checked
    (an overflow or underflow aborts the call with [Panic 0x11]), a failed
    [require] aborts the call with its reason string, and an aborted call
    leaves the world as it was before the call.

    The functions of the contract are written in a small state-and-error
    monad.  Next to the world the monad threads the list of the effects the
    call has performed so far (storage writes, token calls, events), in
    program order, so that statements about the order of effects inside one
    call can be made. *)

From Stdlib Require Import ZArith Lia String Sorted.
From stdpp Require Import base option list gmap fin_maps.

Open Scope Z_scope.

(* ================================================================= *)
(** ** Types *)

Abbreviation address := N.

Definition MAX_UINT256 : Z := 2 ^ 256 - 1.

(** [enum DealStatus { Active, Completed, Disputed, Cancelled, Expired }] *)
Inductive DealStatus := Active | Completed | Disputed | Cancelled | Expired.

Global Instance DealStatus_eq_dec : EqDecision DealStatus.
Proof. solve_decision. Defined.

Module Agent.
(** [struct Agent] *)
Record t := mk {
  name : string;
  staked : Z;
  dealsCompleted : Z;
  dealsFailed : Z;
  totalVolume : Z;
  registeredAt : Z;
  exists_ : bool
}.

(** The value every key of a Solidity mapping holds before it is written. *)
Definition zero : t := mk EmptyString 0 0 0 0 0 false.

Definition set_staked (v : Z) (a : t) : t :=
  mk (name a) v (dealsCompleted a) (dealsFailed a) (totalVolume a)
     (registeredAt a) (exists_ a).
Definition set_dealsCompleted (v : Z) (a : t) : t :=
  mk (name a) (staked a) v (dealsFailed a) (totalVolume a)
     (registeredAt a) (exists_ a).
Definition set_dealsFailed (v : Z) (a : t) : t :=
  mk (name a) (staked a) (dealsCompleted a) v (totalVolume a)
     (registeredAt a) (exists_ a).
Definition set_totalVolume (v : Z) (a : t) : t :=
  mk (name a) (staked a) (dealsCompleted a) (dealsFailed a) v
     (registeredAt a) (exists_ a).
End Agent.

Module Deal.
(** [struct Deal] *)
Record t := mk {
  id : Z;
  creator : address;
  counterparty : address;
  amount : Z;
  description : string;
  status : DealStatus;
  createdAt : Z;
  expiresAt : Z;
  creatorConfirmed : bool;
  counterpartyConfirmed : bool
}.

Definition set_status (v : DealStatus) (d : t) : t :=
  mk (id d) (creator d) (counterparty d) (amount d) (description d) v
     (createdAt d) (expiresAt d) (creatorConfirmed d) (counterpartyConfirmed d).
Definition set_creatorConfirmed (v : bool) (d : t) : t :=
  mk (id d) (creator d) (counterparty d) (amount d) (description d) (status d)
     (createdAt d) (expiresAt d) v (counterpartyConfirmed d).
Definition set_counterpartyConfirmed (v : bool) (d : t) : t :=
  mk (id d) (creator d) (counterparty d) (amount d) (description d) (status d)
     (createdAt d) (expiresAt d) (creatorConfirmed d) v.

Definition is_active (d : t) : bool := bool_decide (status d = Active).
End Deal.

(** The contract's storage.  [entered] is the status word of OpenZeppelin's
    [ReentrancyGuard], from which the contract inherits. *)
Record Storage := mkStorage {
  agents : gmap address Agent.t;
  agentList : list address;
  deals : list Deal.t;
  unstakeRequestedAt : gmap address Z;
  entered : bool
}.

(** Modelled from the spec: the Vault, that is the ERC-20 token behind the
    immutable [usdc] (the test suite's MockUSDC and the OpenZeppelin library
    are not part of the sources).  It holds a balance per address and, per
    owner, the allowance granted to the MoltBond contract; [lock] is
    [safeTransferFrom(from, address(this), amount)] and [release] is
    [safeTransfer(to, amount)]. *)
Record Token := mkToken {
  balanceOf : gmap address Z;
  allowance : gmap address Z
}.

Record World := mkWorld {
  bond : Storage;
  usdc : Token
}.

(** The address the contract is deployed at ([MOLTBOND_ADDRESS] of the
    dashboard library and of the command-line client). *)
Definition MOLTBOND_ADDRESS : address := 0xA4d0910251951890E85788b963eEfD91dc0884Cb%N.

(** [msg.sender] and [block.timestamp] of a call. *)
Record Env := mkEnv {
  msg_sender : address;
  block_timestamp : Z
}.

(* ----------------------------------------------------------------- *)
(** *** Constants *)

Definition MIN_STAKE : Z := 1000000.          (* 1e6: 1 USDC (6 decimals) *)
Definition UNSTAKE_COOLDOWN : Z := 86400.     (* 1 days *)
Definition DEFAULT_EXPIRY : Z := 604800.      (* 7 days *)
Definition SLASH_PERCENT : Z := 10.

(* ----------------------------------------------------------------- *)
(** *** Events, effects and failures *)

Inductive Event :=
| AgentRegistered (agent : address) (name : string) (timestamp : Z)
| Staked (agent : address) (amount totalStaked : Z)
| UnstakeRequested (agent : address) (timestamp : Z)
| Unstaked (agent : address) (amount remaining : Z)
| DealCreated (dealId : Z) (creator counterparty : address) (amount : Z)
              (description : string)
| DealCompleted (dealId : Z) (timestamp : Z)
| DealDisputed (dealId : Z) (disputedBy : address)
| DealExpired (dealId : Z)
| Slashed (agent : address) (amount : Z) (dealId : Z).

(** The storage locations the contract writes. *)
Inductive Slot :=
| slot_agent (a : address)                 (* agents[a] = Agent({...}) *)
| slot_staked (a : address)
| slot_dealsCompleted (a : address)
| slot_dealsFailed (a : address)
| slot_totalVolume (a : address)
| slot_agentList
| slot_unstakeRequestedAt (a : address)
| slot_deals                               (* deals.push *)
| slot_status (i : nat)
| slot_creatorConfirmed (i : nat)
| slot_counterpartyConfirmed (i : nat)
| slot_guard.

Inductive Action :=
| SStore (s : Slot)
| CallTransferFrom (from : address) (amount : Z)
| CallTransfer (to : address) (amount : Z)
| Emit (e : Event).

Inductive Error :=
| RequireFailed (reason : string)
| Panic (code : Z)
| ERC20InsufficientAllowance
| ERC20InsufficientBalance
| ReentrancyGuardReentrantCall.

(* ================================================================= *)
(** ** The execution monad *)

Inductive Result (A : Type) :=
| Ok (a : A) (w : World) (t : list Action)
| Revert (e : Error) (t : list Action).
Arguments Ok {A} a w t.
Arguments Revert {A} e t.

Definition M (A : Type) : Type := World -> list Action -> Result A.

Definition ret {A} (a : A) : M A := fun w t => Ok a w t.

Definition bind {A B} (m : M A) (f : A -> M B) : M B :=
  fun w t =>
    match m w t with
    | Ok a w' t' => f a w' t'
    | Revert e t' => Revert e t'
    end.

Notation "'let*' x ':=' m 'in' k" := (bind m (fun x => k))
  (at level 10, x name, m at level 200, k at level 200).
Notation "m '>>' k" := (bind m (fun _ => k))
  (at level 100, k at level 200, right associativity).

Definition revert {A} (e : Error) : M A := fun _ t => Revert e t.

Definition require (c : bool) (reason : string) : M unit :=
  if c then ret tt else revert (RequireFailed reason).

(** Read from the contract's storage. *)
Definition sload {A} (f : Storage -> A) : M A := fun w t => Ok (f (bond w)) w t.

(** Write to the contract's storage at [s]. *)
Definition sstore (s : Slot) (f : Storage -> Storage) : M unit :=
  fun w t => Ok tt (mkWorld (f (bond w)) (usdc w)) (t ++ [SStore s]).

Definition emit (e : Event) : M unit := fun w t => Ok tt w (t ++ [Emit e]).

(** Checked [uint256] arithmetic of Solidity 0.8. *)
Definition add (a b : Z) : M Z :=
  if a + b <=? MAX_UINT256 then ret (a + b) else revert (Panic 0x11).
Definition sub (a b : Z) : M Z :=
  if b <=? a then ret (a - b) else revert (Panic 0x11).
Definition mul (a b : Z) : M Z :=
  if a * b <=? MAX_UINT256 then ret (a * b) else revert (Panic 0x11).

(* ----------------------------------------------------------------- *)
(** *** Storage access *)

(** [agents[a]]: a key never written reads as the zero record. *)
Definition agent_at (a : address) (s : Storage) : Agent.t :=
  default Agent.zero (agents s !! a).

Definition requested_at (a : address) (s : Storage) : Z :=
  default 0 (unstakeRequestedAt s !! a).

Definition set_agents (v : gmap address Agent.t) (s : Storage) : Storage :=
  mkStorage v (agentList s) (deals s) (unstakeRequestedAt s) (entered s).
Definition set_agentList (v : list address) (s : Storage) : Storage :=
  mkStorage (agents s) v (deals s) (unstakeRequestedAt s) (entered s).
Definition set_deals (v : list Deal.t) (s : Storage) : Storage :=
  mkStorage (agents s) (agentList s) v (unstakeRequestedAt s) (entered s).
Definition set_unstakeRequestedAt (v : gmap address Z) (s : Storage) : Storage :=
  mkStorage (agents s) (agentList s) (deals s) v (entered s).
Definition set_entered (v : bool) (s : Storage) : Storage :=
  mkStorage (agents s) (agentList s) (deals s) (unstakeRequestedAt s) v.

(** [agents[a].field = ...] *)
Definition update_agent (a : address) (f : Agent.t -> Agent.t) (s : Storage) : Storage :=
  set_agents (<[a := f (agent_at a s)]> (agents s)) s.

(** [deals[i].field = ...] through the storage pointer [deal]. *)
Definition update_deal (i : nat) (f : Deal.t -> Deal.t) (s : Storage) : Storage :=
  set_deals (alter f i (deals s)) s.

(** [deals[_dealId]]: an index out of range is [Panic 0x32]. *)
Definition deal_at (_dealId : Z) : M Deal.t :=
  let* ds := sload deals in
  match ds !! Z.to_nat _dealId with
  | Some d => ret d
  | None => revert (Panic 0x32)
  end.

(* ----------------------------------------------------------------- *)
(** *** The token *)

Definition balance_of (a : address) (k : Token) : Z := default 0 (balanceOf k !! a).
Definition allowance_of (a : address) (k : Token) : Z := default 0 (allowance k !! a).

(** The balance the contract holds. *)
Definition held (w : World) : Z := balance_of MOLTBOND_ADDRESS (usdc w).

(** Move [value] from [src] to [dst] in the token's ledger. *)
Definition move (src dst : address) (value : Z) (b : gmap address Z) : gmap address Z :=
  let b1 := <[src := default 0 (b !! src) - value]> b in
  <[dst := default 0 (b1 !! dst) + value]> b1.

(** Modelled from the spec: the Vault's [lock], which the contract calls as
    [usdc.safeTransferFrom(from, address(this), value)].  It fails when the
    owner's allowance or balance is too small; an allowance of
    [type(uint256).max] is unlimited and is not spent. *)
Definition safeTransferFrom (from : address) (value : Z) : M unit :=
  fun w t =>
    let k := usdc w in
    let unlimited := bool_decide (allowance_of from k = MAX_UINT256) in
    if negb unlimited && (allowance_of from k <? value)
    then Revert ERC20InsufficientAllowance t
    else if balance_of from k <? value
    then Revert ERC20InsufficientBalance t
    else
      let al := if unlimited then allowance k
                else <[from := allowance_of from k - value]> (allowance k) in
      Ok tt (mkWorld (bond w)
                     (mkToken (move from MOLTBOND_ADDRESS value (balanceOf k)) al))
         (t ++ [CallTransferFrom from value]).

(** Modelled from the spec: the Vault's [release], which the contract calls
    as [usdc.safeTransfer(to, value)].  It fails when the contract holds less
    than [value]. *)
Definition safeTransfer (to : address) (value : Z) : M unit :=
  fun w t =>
    let k := usdc w in
    if balance_of MOLTBOND_ADDRESS k <? value
    then Revert ERC20InsufficientBalance t
    else
      Ok tt (mkWorld (bond w)
                     (mkToken (move MOLTBOND_ADDRESS to value (balanceOf k))
                              (allowance k)))
         (t ++ [CallTransfer to value]).

(** The [nonReentrant] modifier of OpenZeppelin's [ReentrancyGuard]: fail
    when the guard is entered, enter it, run the body, leave it. *)
Definition nonReentrant {A} (body : M A) : M A :=
  let* e := sload entered in
  (if e then revert ReentrancyGuardReentrantCall else ret tt) >>
  sstore slot_guard (set_entered true) >>
  let* r := body in
  sstore slot_guard (set_entered false) >>
  ret r.

(* ================================================================= *)
(** ** The contract *)

Section Contract.
Variable env : Env.
Let sender := msg_sender env.
Let now := block_timestamp env.

(** [registerAgent(string calldata _name)] *)
Definition registerAgent (_name : string) : M unit :=
  let* a := sload (agent_at sender) in
  require (negb (Agent.exists_ a)) "Already registered" >>
  require ((0 <? Z.of_nat (String.length _name))
           && (Z.of_nat (String.length _name) <=? 32)) "Invalid name length" >>
  sstore (slot_agent sender)
    (update_agent sender (fun _ => Agent.mk _name 0 0 0 0 now true)) >>
  sstore slot_agentList (fun s => set_agentList (agentList s ++ [sender]) s) >>
  emit (AgentRegistered sender _name now).

(** [stake(uint256 _amount)] *)
Definition stake (_amount : Z) : M unit :=
  nonReentrant (
    let* a := sload (agent_at sender) in
    require (Agent.exists_ a) "Not registered" >>
    require (MIN_STAKE <=? _amount) "Below minimum stake" >>
    safeTransferFrom sender _amount >>
    let* a := sload (agent_at sender) in
    let* v := add (Agent.staked a) _amount in
    sstore (slot_staked sender) (update_agent sender (Agent.set_staked v)) >>
    sstore (slot_unstakeRequestedAt sender)
      (fun s => set_unstakeRequestedAt (<[sender := 0]> (unstakeRequestedAt s)) s) >>
    let* a := sload (agent_at sender) in
    emit (Staked sender _amount (Agent.staked a))).

(** [requestUnstake()] *)
Definition requestUnstake : M unit :=
  let* a := sload (agent_at sender) in
  require (Agent.exists_ a) "Not registered" >>
  require (0 <? Agent.staked a) "Nothing staked" >>
  sstore (slot_unstakeRequestedAt sender)
    (fun s => set_unstakeRequestedAt (<[sender := now]> (unstakeRequestedAt s)) s) >>
  emit (UnstakeRequested sender now).

(** [unstake(uint256 _amount)] *)
Definition unstake (_amount : Z) : M unit :=
  nonReentrant (
    let* a := sload (agent_at sender) in
    require (Agent.exists_ a) "Not registered" >>
    require (_amount <=? Agent.staked a) "Insufficient stake" >>
    let* r := sload (requested_at sender) in
    require (0 <? r) "No unstake requested" >>
    let* deadline := add r UNSTAKE_COOLDOWN in
    require (deadline <=? now) "Cooldown not elapsed" >>
    let* a := sload (agent_at sender) in
    let* v := sub (Agent.staked a) _amount in
    sstore (slot_staked sender) (update_agent sender (Agent.set_staked v)) >>
    safeTransfer sender _amount >>
    let* a := sload (agent_at sender) in
    (if Agent.staked a =? 0
     then sstore (slot_unstakeRequestedAt sender)
            (fun s => set_unstakeRequestedAt (<[sender := 0]> (unstakeRequestedAt s)) s)
     else ret tt) >>
    let* a := sload (agent_at sender) in
    emit (Unstaked sender _amount (Agent.staked a))).

(** [createDeal(address _counterparty, uint256 _amount,
                string calldata _description, uint256 _expiryDuration)] *)
Definition createDeal (_counterparty : address) (_amount : Z)
    (_description : string) (_expiryDuration : Z) : M Z :=
  nonReentrant (
    let* a := sload (agent_at sender) in
    require (Agent.exists_ a) "Creator not registered" >>
    let* c := sload (agent_at _counterparty) in
    require (Agent.exists_ c) "Counterparty not registered" >>
    require (negb (N.eqb sender _counterparty)) "Cannot deal with self" >>
    require (0 <? _amount) "Amount must be positive" >>
    let expiry := if 0 <? _expiryDuration then _expiryDuration else DEFAULT_EXPIRY in
    safeTransferFrom sender _amount >>
    let* ds := sload deals in
    let dealId := Z.of_nat (length ds) in
    let* expiresAt := add now expiry in
    sstore slot_deals
      (fun s => set_deals
         (deals s ++ [Deal.mk dealId sender _counterparty _amount _description
                              Active now expiresAt false false]) s) >>
    emit (DealCreated dealId sender _counterparty _amount _description) >>
    ret dealId).

(** [_completeDeal(uint256 _dealId)], internal. *)
Definition _completeDeal (_dealId : Z) : M unit :=
  nonReentrant (
    let i := Z.to_nat _dealId in
    let* deal := deal_at _dealId in
    sstore (slot_status i) (update_deal i (Deal.set_status Completed)) >>
    safeTransfer (Deal.counterparty deal) (Deal.amount deal) >>
    let* a := sload (agent_at (Deal.creator deal)) in
    let* v := add (Agent.dealsCompleted a) 1 in
    sstore (slot_dealsCompleted (Deal.creator deal))
      (update_agent (Deal.creator deal) (Agent.set_dealsCompleted v)) >>
    let* a := sload (agent_at (Deal.creator deal)) in
    let* v := add (Agent.totalVolume a) (Deal.amount deal) in
    sstore (slot_totalVolume (Deal.creator deal))
      (update_agent (Deal.creator deal) (Agent.set_totalVolume v)) >>
    let* a := sload (agent_at (Deal.counterparty deal)) in
    let* v := add (Agent.dealsCompleted a) 1 in
    sstore (slot_dealsCompleted (Deal.counterparty deal))
      (update_agent (Deal.counterparty deal) (Agent.set_dealsCompleted v)) >>
    let* a := sload (agent_at (Deal.counterparty deal)) in
    let* v := add (Agent.totalVolume a) (Deal.amount deal) in
    sstore (slot_totalVolume (Deal.counterparty deal))
      (update_agent (Deal.counterparty deal) (Agent.set_totalVolume v)) >>
    emit (DealCompleted _dealId now)).

(** [confirmDeal(uint256 _dealId)] *)
Definition confirmDeal (_dealId : Z) : M unit :=
  let* ds := sload deals in
  require (_dealId <? Z.of_nat (length ds)) "Deal not found" >>
  let i := Z.to_nat _dealId in
  let* deal := deal_at _dealId in
  require (bool_decide (Deal.status deal = Active)) "Deal not active" >>
  require (N.eqb sender (Deal.creator deal) || N.eqb sender (Deal.counterparty deal))
    "Not a party to this deal" >>
  (if N.eqb sender (Deal.creator deal)
   then sstore (slot_creatorConfirmed i) (update_deal i (Deal.set_creatorConfirmed true))
   else sstore (slot_counterpartyConfirmed i)
          (update_deal i (Deal.set_counterpartyConfirmed true))) >>
  let* deal := deal_at _dealId in
  if Deal.creatorConfirmed deal && Deal.counterpartyConfirmed deal
  then _completeDeal _dealId
  else ret tt.

(** [disputeDeal(uint256 _dealId)] *)
Definition disputeDeal (_dealId : Z) : M unit :=
  let* ds := sload deals in
  require (_dealId <? Z.of_nat (length ds)) "Deal not found" >>
  let i := Z.to_nat _dealId in
  let* deal := deal_at _dealId in
  require (bool_decide (Deal.status deal = Active)) "Deal not active" >>
  require (N.eqb sender (Deal.creator deal) || N.eqb sender (Deal.counterparty deal))
    "Not a party to this deal" >>
  sstore (slot_status i) (update_deal i (Deal.set_status Disputed)) >>
  safeTransfer (Deal.creator deal) (Deal.amount deal) >>
  let slashTarget :=
    if N.eqb sender (Deal.creator deal) then Deal.counterparty deal
    else Deal.creator deal in
  let* a := sload (agent_at slashTarget) in
  let* p := mul (Agent.staked a) SLASH_PERCENT in
  let slashAmount := p / 100 in
  (if 0 <? slashAmount
   then
     let* a := sload (agent_at slashTarget) in
     let* v := sub (Agent.staked a) slashAmount in
     sstore (slot_staked slashTarget) (update_agent slashTarget (Agent.set_staked v)) >>
     safeTransfer sender slashAmount >>
     emit (Slashed slashTarget slashAmount _dealId)
   else ret tt) >>
  let* a := sload (agent_at slashTarget) in
  let* v := add (Agent.dealsFailed a) 1 in
  sstore (slot_dealsFailed slashTarget)
    (update_agent slashTarget (Agent.set_dealsFailed v)) >>
  emit (DealDisputed _dealId sender).

(** [cancelExpiredDeal(uint256 _dealId)] *)
Definition cancelExpiredDeal (_dealId : Z) : M unit :=
  let* ds := sload deals in
  require (_dealId <? Z.of_nat (length ds)) "Deal not found" >>
  let i := Z.to_nat _dealId in
  let* deal := deal_at _dealId in
  require (bool_decide (Deal.status deal = Active)) "Deal not active" >>
  require (Deal.expiresAt deal <=? now) "Deal not expired" >>
  sstore (slot_status i) (update_deal i (Deal.set_status Expired)) >>
  safeTransfer (Deal.creator deal) (Deal.amount deal) >>
  emit (DealExpired _dealId).

End Contract.

(* ----------------------------------------------------------------- *)
(** *** View functions *)

Definition _min (a b : Z) : Z := if a <? b then a else b.

(** [getReputation(address _agent)] *)
Definition getReputation (_agent : address) : M Z :=
  let* a := sload (agent_at _agent) in
  if negb (Agent.exists_ a) then ret 0 else
  let* totalDeals := add (Agent.dealsCompleted a) (Agent.dealsFailed a) in
  if totalDeals =? 0 then
    let* p := mul (Agent.staked a / 1000000) 10 in
    ret (_min p 200)
  else
    let* c := mul (Agent.dealsCompleted a) 500 in
    let completionScore := c / totalDeals in
    let* v := mul (Agent.totalVolume a / 100000000) 30 in
    let volumeScore := _min v 300 in
    let* p := mul (Agent.staked a / 1000000) 10 in
    let stakeScore := _min p 200 in
    let* r := add completionScore volumeScore in
    add r stakeScore.

Definition getAgentCount : M Z := let* l := sload agentList in ret (Z.of_nat (length l)).
Definition getDealCount : M Z := let* l := sload deals in ret (Z.of_nat (length l)).

(* ================================================================= *)
(** ** Transactions *)

(** The externally callable, state-changing functions with their calldata. *)
Inductive Call :=
| call_registerAgent (_name : string)
| call_stake (_amount : Z)
| call_requestUnstake
| call_unstake (_amount : Z)
| call_createDeal (_counterparty : address) (_amount : Z) (_description : string)
                  (_expiryDuration : Z)
| call_confirmDeal (_dealId : Z)
| call_disputeDeal (_dealId : Z)
| call_cancelExpiredDeal (_dealId : Z).

Definition dispatch (env : Env) (c : Call) : M unit :=
  match c with
  | call_registerAgent n => registerAgent env n
  | call_stake v => stake env v
  | call_requestUnstake => requestUnstake env
  | call_unstake v => unstake env v
  | call_createDeal cp v d e => createDeal env cp v d e >> ret tt
  | call_confirmDeal i => confirmDeal env i
  | call_disputeDeal i => disputeDeal env i
  | call_cancelExpiredDeal i => cancelExpiredDeal env i
  end.

(** A call runs from an empty effect list. *)
Definition run {A} (m : M A) (w : World) : Result A := m w [].

(** One transaction: the world after the call, which is the world before it
    when the call reverts. *)
Definition transact (env : Env) (c : Call) (w : World) : World :=
  match run (dispatch env c) w with
  | Ok _ w' _ => w'
  | Revert _ _ => w
  end.

(** The events a transaction leaves in the log: none when it reverts. *)
Definition events_of (t : list Action) : list Event :=
  omap (fun a => match a with Emit e => Some e | _ => None end) t.

Definition logs (env : Env) (c : Call) (w : World) : list Event :=
  match run (dispatch env c) w with
  | Ok _ _ t => events_of t
  | Revert _ _ => []
  end.

Fixpoint transact_all (cs : list (Env * Call)) (w : World) : World :=
  match cs with
  | [] => w
  | (env, c) :: cs' => transact_all cs' (transact env c w)
  end.

(** Calldata is ABI-decoded: every [uint256] argument is in range.  The
    caller is never the contract itself (it makes no call to itself), and
    block timestamps are 64-bit. *)
Definition is_uint256 (v : Z) : Prop := 0 <= v <= MAX_UINT256.

Definition MAX_TIMESTAMP : Z := 2 ^ 64 - 1.

Definition valid_args (c : Call) : Prop :=
  match c with
  | call_registerAgent _ | call_requestUnstake => True
  | call_stake v | call_unstake v => is_uint256 v
  | call_createDeal _ v _ e => is_uint256 v /\ is_uint256 e
  | call_confirmDeal i | call_disputeDeal i | call_cancelExpiredDeal i => is_uint256 i
  end.

Definition valid_env (env : Env) : Prop :=
  msg_sender env <> MOLTBOND_ADDRESS /\ 0 <= block_timestamp env <= MAX_TIMESTAMP.

(** The world right after deployment: empty storage, and a token in which
    the contract holds nothing yet. *)
Definition deployed (k : Token) : World := mkWorld (mkStorage ∅ [] [] ∅ false) k.

Inductive reachable : World -> Prop :=
| reachable_deployed k :
    balance_of MOLTBOND_ADDRESS k = 0 -> reachable (deployed k)
| reachable_transact env c w :
    reachable w -> valid_env env -> valid_args c -> reachable (transact env c w).

(* ----------------------------------------------------------------- *)
(** *** The scenarios of the test suite *)

Module Scenario.
Definition USDC (n : Z) : Z := n * 1000000.
Definition alice : address := 0xA11CE%N.
Definition bob : address := 0xB0B%N.
Definition charlie : address := 0xC4A411E%N.

(** [beforeEach]: 10000 USDC minted to each, unlimited approval. *)
Definition funded : Token :=
  mkToken (<[alice := USDC 10000]> (<[bob := USDC 10000]> {[charlie := USDC 10000]}))
          (<[alice := MAX_UINT256]> (<[bob := MAX_UINT256]> {[charlie := MAX_UINT256]})).

Definition t0 : Z := 1770000000.
Definition by_ (a : address) (t : Z) (c : Call) : Env * Call := (mkEnv a t, c).

Definition registered_and_staked : World :=
  transact_all
    [ by_ alice t0 (call_registerAgent "Alice");
      by_ bob t0 (call_registerAgent "Bob");
      by_ alice t0 (call_stake (USDC 100));
      by_ bob t0 (call_stake (USDC 100)) ]
    (deployed funded).

Definition with_deal : World :=
  transact (mkEnv alice t0) (call_createDeal bob (USDC 50) "Task" 0)
           registered_and_staked.
End Scenario.

(* ================================================================= *)
(** ** Reasoning about the monad *)

Lemma MAX_UINT256_eq :
  MAX_UINT256 =
  115792089237316195423570985008687907853269984665640564039457584007913129639935.
Proof. reflexivity. Qed.

Lemma MAX_TIMESTAMP_eq : MAX_TIMESTAMP = 18446744073709551615.
Proof. reflexivity. Qed.

Section Inversion.
Context {A B : Type}.
Implicit Types (w : World) (t : list Action).

Lemma bind_Ok (m : M A) (f : A -> M B) w t b w2 t2 :
  bind m f w t = Ok b w2 t2 ->
  exists a w1 t1, m w t = Ok a w1 t1 /\ f a w1 t1 = Ok b w2 t2.
Proof. unfold bind. destruct (m w t); [eauto | discriminate]. Qed.

Lemma ret_Ok (a a' : A) w t w' t' :
  ret a w t = Ok a' w' t' -> a' = a /\ w' = w /\ t' = t.
Proof. by intros [= -> -> ->]. Qed.

Lemma sload_Ok (f : Storage -> A) w t a w' t' :
  sload f w t = Ok a w' t' -> a = f (bond w) /\ w' = w /\ t' = t.
Proof. by intros [= <- <- <-]. Qed.
End Inversion.

Lemma require_Ok c reason w t u w' t' :
  require c reason w t = Ok u w' t' -> c = true /\ w' = w /\ t' = t.
Proof. destruct c; [by intros [= <- <-] | discriminate]. Qed.

Lemma sstore_Ok s f w t u w' t' :
  sstore s f w t = Ok u w' t' ->
  w' = mkWorld (f (bond w)) (usdc w) /\ t' = t ++ [SStore s].
Proof. by intros [= <- <-]. Qed.

Lemma emit_Ok e w t u w' t' :
  emit e w t = Ok u w' t' -> w' = w /\ t' = t ++ [Emit e].
Proof. by intros [= <- <-]. Qed.

Lemma add_Ok a b w t v w' t' :
  add a b w t = Ok v w' t' -> v = a + b /\ a + b <= MAX_UINT256 /\ w' = w /\ t' = t.
Proof.
  unfold add. destruct (Z.leb_spec (a + b) MAX_UINT256); [|discriminate].
  by intros [= <- <- <-].
Qed.

Lemma sub_Ok a b w t v w' t' :
  sub a b w t = Ok v w' t' -> v = a - b /\ b <= a /\ w' = w /\ t' = t.
Proof.
  unfold sub. destruct (Z.leb_spec b a); [|discriminate].
  by intros [= <- <- <-].
Qed.

Lemma mul_Ok a b w t v w' t' :
  mul a b w t = Ok v w' t' -> v = a * b /\ a * b <= MAX_UINT256 /\ w' = w /\ t' = t.
Proof.
  unfold mul. destruct (Z.leb_spec (a * b) MAX_UINT256); [|discriminate].
  by intros [= <- <- <-].
Qed.

Lemma deal_at_Ok i w t d w' t' :
  deal_at i w t = Ok d w' t' ->
  deals (bond w) !! Z.to_nat i = Some d /\ w' = w /\ t' = t.
Proof.
  unfold deal_at, bind, sload.
  destruct (deals (bond w) !! Z.to_nat i); [|discriminate].
  by intros [= <- <- <-].
Qed.

Lemma safeTransfer_Ok to v w t u w' t' :
  safeTransfer to v w t = Ok u w' t' ->
  v <= held w /\
  w' = mkWorld (bond w)
         (mkToken (move MOLTBOND_ADDRESS to v (balanceOf (usdc w))) (allowance (usdc w))) /\
  t' = t ++ [CallTransfer to v].
Proof.
  unfold safeTransfer, held.
  destruct (Z.ltb_spec (balance_of MOLTBOND_ADDRESS (usdc w)) v); [discriminate|].
  by intros [= <- <-].
Qed.

Lemma safeTransferFrom_Ok from v w t u w' t' :
  safeTransferFrom from v w t = Ok u w' t' ->
  v <= balance_of from (usdc w) /\
  (exists al, w' = mkWorld (bond w)
         (mkToken (move from MOLTBOND_ADDRESS v (balanceOf (usdc w))) al)) /\
  t' = t ++ [CallTransferFrom from v].
Proof.
  unfold safeTransferFrom.
  destruct (_ && _); [discriminate|].
  destruct (Z.ltb_spec (balance_of from (usdc w)) v); [discriminate|].
  intros [= <- <-]. eauto.
Qed.

Lemma nonReentrant_Ok {A} (body : M A) w t r w' t' :
  nonReentrant body w t = Ok r w' t' ->
  entered (bond w) = false /\
  exists w1 t1,
    body (mkWorld (set_entered true (bond w)) (usdc w)) (t ++ [SStore slot_guard])
      = Ok r w1 t1 /\
    w' = mkWorld (set_entered false (bond w1)) (usdc w1) /\
    t' = t1 ++ [SStore slot_guard].
Proof.
  unfold nonReentrant, bind, sload, sstore, ret, revert.
  destruct (entered (bond w)); [discriminate|].
  destruct (body _ _) as [a w1 t1|]; [|discriminate].
  intros [= <- <- <-]. split; [done|]. by exists w1, t1.
Qed.

(** Inversion of a successful run, statement by statement. *)
Ltac minv H :=
  lazymatch type of H with
  | bind _ _ _ _ = Ok _ _ _ =>
      let E := fresh "E" in
      apply bind_Ok in H; destruct H as (? & ? & ? & E & H);
      cbv beta in H; minv E; minv H
  | ret _ _ _ = Ok _ _ _ =>
      apply ret_Ok in H; destruct H as (? & ? & ?); subst
  | revert _ _ _ = Ok _ _ _ => discriminate H
  | sload _ _ _ = Ok _ _ _ =>
      apply sload_Ok in H; destruct H as (? & ? & ?); subst
  | require _ _ _ _ = Ok _ _ _ =>
      apply require_Ok in H; destruct H as (H & ? & ?); subst
  | sstore _ _ _ _ = Ok _ _ _ =>
      apply sstore_Ok in H; destruct H as (? & ?); subst
  | emit _ _ _ = Ok _ _ _ =>
      apply emit_Ok in H; destruct H as (? & ?); subst
  | add _ _ _ _ = Ok _ _ _ =>
      apply add_Ok in H; destruct H as (? & H & ? & ?); subst
  | sub _ _ _ _ = Ok _ _ _ =>
      apply sub_Ok in H; destruct H as (? & H & ? & ?); subst
  | mul _ _ _ _ = Ok _ _ _ =>
      apply mul_Ok in H; destruct H as (? & H & ? & ?); subst
  | deal_at _ _ _ = Ok _ _ _ =>
      apply deal_at_Ok in H; destruct H as (H & ? & ?); subst
  | safeTransfer _ _ _ _ = Ok _ _ _ =>
      apply safeTransfer_Ok in H; destruct H as (H & ? & ?); subst
  | safeTransferFrom _ _ _ _ = Ok _ _ _ =>
      apply safeTransferFrom_Ok in H; destruct H as (H & (? & ?) & ?); subst
  | nonReentrant _ _ _ = Ok _ _ _ =>
      let G := fresh "G" in
      apply nonReentrant_Ok in H; destruct H as (G & ? & ? & H & ? & ?);
      subst; minv H
  | (if ?c then _ else _) _ _ = Ok _ _ _ =>
      let C := fresh "C" in destruct c eqn:C; minv H
  | (let _ := _ in _) _ _ = Ok _ _ _ => cbv zeta in H; minv H
  | _ => idtac
  end.

(* ================================================================= *)
(** ** What the vault must cover *)

(** The sum of all agents' staked balances. *)
Definition total_staked (m : gmap address Agent.t) : Z :=
  map_fold (fun _ a acc => Agent.staked a + acc) 0 m.

(** What a deal keeps in escrow: its amount while it is Active. *)
Definition escrow_of (d : Deal.t) : Z :=
  if Deal.is_active d then Deal.amount d else 0.

(** The sum of the amounts of all Active deals. *)
Definition escrowed (ds : list Deal.t) : Z :=
  foldr (fun d acc => escrow_of d + acc) 0 ds.

Lemma total_staked_empty : total_staked ∅ = 0.
Proof. apply map_fold_empty. Qed.

Lemma total_staked_fresh m a x :
  m !! a = None -> total_staked (<[a := x]> m) = Agent.staked x + total_staked m.
Proof.
  intros Hm. unfold total_staked.
  rewrite map_fold_insert_L; [done | intros; lia | done].
Qed.

Lemma total_staked_insert m a x :
  total_staked (<[a := x]> m)
  = total_staked m - Agent.staked (default Agent.zero (m !! a)) + Agent.staked x.
Proof.
  destruct (m !! a) as [y|] eqn:Hm; simpl.
  - rewrite <- (insert_delete_eq m a x).
    rewrite total_staked_fresh by apply lookup_delete_eq.
    rewrite <- (insert_id m a y) at 2 by done.
    rewrite <- (insert_delete_eq m a y).
    rewrite total_staked_fresh by apply lookup_delete_eq. lia.
  - rewrite total_staked_fresh by done. lia.
Qed.

Definition stakes_nonneg (m : gmap address Agent.t) : Prop :=
  map_Forall (fun _ x => 0 <= Agent.staked x) m.

Lemma total_staked_bounds m a :
  stakes_nonneg m ->
  0 <= Agent.staked (default Agent.zero (m !! a)) <= total_staked m.
Proof.
  unfold stakes_nonneg. revert a.
  induction m as [|k x m Hk IH] using map_ind; intros a Hall.
  - rewrite lookup_empty, total_staked_empty. simpl. lia.
  - apply map_Forall_insert in Hall as [Hx Hall]; [|done].
    rewrite total_staked_fresh by done.
    specialize (IH a Hall). pose proof (IH' := IH).
    destruct (decide (k = a)) as [->|Hne].
    + rewrite lookup_insert_eq. simpl. rewrite Hk in IH. simpl in IH. lia.
    + rewrite lookup_insert_ne by done. lia.
Qed.

Lemma stakes_nonneg_insert m a x :
  stakes_nonneg m -> 0 <= Agent.staked x -> stakes_nonneg (<[a := x]> m).
Proof.
  intros Hm Hx k y. rewrite lookup_insert.
  case_decide; [by intros [= <-] | apply Hm].
Qed.

Lemma escrowed_app ds d : escrowed (ds ++ [d]) = escrowed ds + escrow_of d.
Proof. induction ds as [|d' ds IH]; simpl; lia. Qed.

Lemma escrowed_alter ds i d f :
  ds !! i = Some d ->
  escrowed (alter f i ds) = escrowed ds - escrow_of d + escrow_of (f d).
Proof.
  revert i. induction ds as [|d' ds IH]; intros [|i] Hi; simplify_eq/=; [lia|].
  rewrite (IH i) by done. lia.
Qed.

Lemma escrowed_bounds ds i d :
  Forall (fun d => 0 <= Deal.amount d) ds ->
  ds !! i = Some d -> 0 <= escrow_of d <= escrowed ds.
Proof.
  intros Hall. revert i.
  assert (Hpos : forall d, 0 <= Deal.amount d -> 0 <= escrow_of d).
  { intros d' ?. unfold escrow_of. destruct (Deal.is_active d'); lia. }
  assert (Hsum : forall l, Forall (fun d => 0 <= Deal.amount d) l -> 0 <= escrowed l).
  { induction 1 as [|d' l Hd _ IH]; simpl; [lia|]. specialize (Hpos d' Hd). lia. }
  induction Hall as [|d' l Hd Hl IH]; intros [|i] Hi; simplify_eq/=.
  - specialize (Hpos d Hd). specialize (Hsum l Hl). lia.
  - specialize (IH i Hi). specialize (Hpos d' Hd). lia.
Qed.

(** The token's ledger after a transfer. *)
Lemma lookup_move src dst v b a :
  default 0 (move src dst v b !! a)
  = default 0 (b !! a) - (if decide (a = src) then v else 0)
                       + (if decide (a = dst) then v else 0).
Proof.
  unfold move. rewrite !lookup_insert.
  repeat case_decide; simplify_eq/=; lia.
Qed.

(* ================================================================= *)
(** ** The invariant of the reachable worlds *)

(** [agents[a].exists] *)
Definition registered (a : address) (s : Storage) : Prop :=
  Agent.exists_ (agent_at a s) = true.

Definition deal_ok (s : Storage) (d : Deal.t) : Prop :=
  0 <= Deal.amount d /\
  Deal.creator d <> Deal.counterparty d /\
  registered (Deal.creator d) s /\
  registered (Deal.counterparty d) s.

Record Inv (w : World) : Prop := mkInv {
  inv_guard : entered (bond w) = false;
  inv_conservation :
    held w = total_staked (agents (bond w)) + escrowed (deals (bond w));
  inv_stakes : stakes_nonneg (agents (bond w));
  inv_entries : map_Forall (fun _ x => Agent.exists_ x = true) (agents (bond w));
  inv_self : agents (bond w) !! MOLTBOND_ADDRESS = None;
  inv_deals : Forall (deal_ok (bond w)) (deals (bond w));
  inv_requested :
    map_Forall (fun _ r => 0 <= r <= MAX_TIMESTAMP) (unstakeRequestedAt (bond w))
}.

(** Projections of updated worlds, and nothing else. *)
Ltac wsimpl1 :=
  unfold registered, agent_at, requested_at, held, balance_of, allowance_of in *;
  cbn [bond usdc agents agentList deals unstakeRequestedAt entered
       set_agents set_agentList set_deals set_unstakeRequestedAt set_entered
       update_agent update_deal balanceOf allowance from_option id
       Agent.name Agent.staked Agent.dealsCompleted Agent.dealsFailed
       Agent.totalVolume Agent.registeredAt Agent.exists_
       Agent.set_staked Agent.set_dealsCompleted Agent.set_dealsFailed
       Agent.set_totalVolume Agent.zero
       Deal.id Deal.creator Deal.counterparty Deal.amount Deal.description
       Deal.status Deal.createdAt Deal.expiresAt Deal.creatorConfirmed
       Deal.counterpartyConfirmed Deal.set_status Deal.set_creatorConfirmed
       Deal.set_counterpartyConfirmed] in *.
Ltac wsimpl := repeat progress wsimpl1.

Lemma entries_insert (m : gmap address Agent.t) a x :
  map_Forall (fun _ x => Agent.exists_ x = true) m -> Agent.exists_ x = true ->
  map_Forall (fun _ x => Agent.exists_ x = true) (<[a := x]> m).
Proof.
  intros Hm Hx k y. rewrite lookup_insert.
  case_decide; [by intros [= <-] | apply Hm].
Qed.

Lemma deals_ok_mono s s' ds :
  (forall a, registered a s -> registered a s') ->
  Forall (deal_ok s) ds -> Forall (deal_ok s') ds.
Proof.
  intros Hreg Hall. eapply Forall_impl; [done|].
  intros d (? & ? & ? & ?). repeat split; auto.
Qed.

Lemma registerAgent_Inv env n w u w' t :
  run (registerAgent env n) w = Ok u w' t -> valid_env env -> Inv w -> Inv w'.
Proof.
  unfold run, registerAgent. intros H [Hs Ht] [Hg Hc Hst Hen Hself Hd Hrq].
  minv H. apply negb_true_iff in E.
  assert (Hnone : agents (bond w) !! msg_sender env = None).
  { destruct (agents (bond w) !! msg_sender env) as [ag|] eqn:Hag; [|done].
    pose proof (Hen _ _ Hag) as Hex. wsimpl. rewrite Hag in E.
    simpl in *. congruence. }
  split; wsimpl; auto.
  - rewrite total_staked_insert, Hnone. wsimpl. lia.
  - by apply stakes_nonneg_insert.
  - by apply entries_insert.
  - by rewrite lookup_insert_ne.
  - eapply deals_ok_mono; [|done]. intros a. wsimpl.
    rewrite lookup_insert. case_decide; [done|auto].
Qed.

(** Goals of the shape the invariant's clauses take after an update. *)
Ltac inv_goal :=
  lazymatch goal with
  | |- stakes_nonneg (<[_ := _]> _) =>
      apply stakes_nonneg_insert; [inv_goal | wsimpl; try lia]
  | |- map_Forall (fun _ x => Agent.exists_ x = true) (<[_ := _]> _) =>
      apply entries_insert; [inv_goal | wsimpl; try done]
  | |- (<[_ := _]> _) !! MOLTBOND_ADDRESS = None =>
      rewrite lookup_insert_ne; [inv_goal | try done]
  | |- map_Forall (fun _ r => 0 <= r <= MAX_TIMESTAMP) (<[_ := _]> _) =>
      apply map_Forall_insert_2; [pose proof MAX_TIMESTAMP_eq; try lia | inv_goal]
  | |- Forall (deal_ok _) (alter _ _ _) =>
      apply Forall_alter;
      [ inv_goal
      | let d := fresh "d" in
        intros d _ (? & ? & ? & ?); repeat split; wsimpl; auto ]
  | |- Forall (deal_ok _) ?ds =>
      lazymatch goal with
      | H : Forall (deal_ok _) ds |- _ =>
          eapply deals_ok_mono; [|exact H];
          let a := fresh "a" in
          intros a; wsimpl; rewrite ?lookup_insert;
          repeat case_decide; subst; wsimpl; auto
      | _ => idtac
      end
  | |- default 0 _ = total_staked _ + escrowed _ =>
      rewrite ?lookup_move, ?total_staked_insert, ?escrowed_app;
      try (erewrite escrowed_alter by eassumption);
      unfold escrow_of, Deal.is_active; wsimpl;
      rewrite ?lookup_insert; repeat case_decide; subst; wsimpl;
      rewrite ?bool_decide_true, ?bool_decide_false by congruence;
      try done; try lia
  | |- _ => try assumption
  end.

Lemma registered_not_self w a :
  Inv w -> registered a (bond w) -> a <> MOLTBOND_ADDRESS.
Proof.
  intros [_ _ _ _ Hself _ _] Ha ->. wsimpl. by rewrite Hself in Ha.
Qed.

Lemma stake_Inv env v w u w' t :
  run (stake env v) w = Ok u w' t -> valid_env env -> is_uint256 v -> Inv w -> Inv w'.
Proof.
  unfold run, stake. intros H [Hs Ht] Hv [Hg Hc Hst Hen Hself Hd Hrq].
  minv H. wsimpl.
  pose proof (total_staked_bounds _ (msg_sender env) Hst) as Hb.
  split; wsimpl; auto; inv_goal.
  destruct Hv; lia.
Qed.

Lemma requestUnstake_Inv env w u w' t :
  run (requestUnstake env) w = Ok u w' t -> valid_env env -> Inv w -> Inv w'.
Proof.
  unfold run, requestUnstake. intros H [Hs Ht] [Hg Hc Hst Hen Hself Hd Hrq].
  minv H. wsimpl.
  split; wsimpl; auto; inv_goal.
Qed.

Lemma unstake_Inv env v w u w' t :
  run (unstake env v) w = Ok u w' t -> valid_env env -> is_uint256 v -> Inv w -> Inv w'.
Proof.
  unfold run, unstake. intros H [Hs Ht] Hv [Hg Hc Hst Hen Hself Hd Hrq].
  minv H; wsimpl.
  all: split; wsimpl; auto; inv_goal.
Qed.

Lemma deal_ok_lookup s ds i d : Forall (deal_ok s) ds -> ds !! i = Some d -> deal_ok s d.
Proof. intros Hall Hi. eapply Forall_lookup_1; eauto. Qed.

Lemma deals_amount_nonneg s ds :
  Forall (deal_ok s) ds -> Forall (fun d => 0 <= Deal.amount d) ds.
Proof. intros H. eapply Forall_impl; [done|]. by intros d [? _]. Qed.

Lemma parties_not_self w i d :
  Inv w -> deals (bond w) !! i = Some d ->
  Deal.creator d <> MOLTBOND_ADDRESS /\ Deal.counterparty d <> MOLTBOND_ADDRESS.
Proof.
  intros HI Hi.
  destruct (deal_ok_lookup _ _ _ _ (inv_deals _ HI) Hi) as (_ & _ & Hc & Hp).
  split; eapply registered_not_self; eauto.
Qed.

Ltac msimpl :=
  wsimpl; repeat (progress (rewrite ?lookup_insert_eq in *; wsimpl)).

Lemma createDeal_Inv env cp v ds e w r w' t :
  run (createDeal env cp v ds e) w = Ok r w' t ->
  valid_env env -> is_uint256 v -> Inv w -> Inv w'.
Proof.
  unfold run, createDeal. intros H [Hs Ht] Hv [Hg Hc Hst Hen Hself Hd Hrq].
  minv H; wsimpl.
  all: split; wsimpl; auto; inv_goal.
  apply Forall_app. split; [inv_goal|].
  apply Forall_singleton. apply negb_true_iff, N.eqb_neq in E1.
  unfold deal_ok. wsimpl. destruct Hv. auto.
Qed.

Lemma cancelExpiredDeal_Inv env i w u w' t :
  run (cancelExpiredDeal env i) w = Ok u w' t -> Inv w -> Inv w'.
Proof.
  unfold run, cancelExpiredDeal. intros H HI.
  minv H.
  destruct (parties_not_self _ _ _ HI E0) as [Hcr Hcp].
  destruct HI as [Hg Hc Hst Hen Hself Hd Hrq].
  split; wsimpl; auto; inv_goal.
Qed.

Lemma disputeDeal_Inv env i w u w' t :
  run (disputeDeal env i) w = Ok u w' t -> valid_env env -> Inv w -> Inv w'.
Proof.
  unfold run, disputeDeal. intros H [Hs Ht] HI.
  apply bind_Ok in H as (ds & w1 & t1 & E1 & H). minv E1.
  apply bind_Ok in H as (? & w1 & t1 & E2 & H). minv E2.
  apply bind_Ok in H as (d & w1 & t1 & E3 & H). minv E3.
  destruct (parties_not_self _ _ _ HI E3) as [Hcr Hcp].
  destruct (deal_ok_lookup _ _ _ _ (inv_deals _ HI) E3) as (_ & _ & Hrc & Hrp).
  cbv zeta in H.
  set (tgt := if (msg_sender env =? Deal.creator d)%N
              then Deal.counterparty d else Deal.creator d) in *.
  assert (Htgt : tgt <> MOLTBOND_ADDRESS) by (subst tgt; by destruct (_ =? _)%N).
  assert (Hreg : registered tgt (bond w)) by (subst tgt; by destruct (_ =? _)%N).
  clearbody tgt.
  minv H.
  all: destruct HI as [Hg Hc Hst Hen Hself Hd Hrq].
  all: pose proof (total_staked_bounds _ tgt Hst) as Hb.
  all: msimpl.
  all: split; msimpl; auto; inv_goal.
Qed.

Ltac msimpl2 :=
  msimpl; repeat (progress (rewrite ?lookup_insert_ne in * by done; msimpl)).

Lemma confirmDeal_Inv env i w u w' t :
  run (confirmDeal env i) w = Ok u w' t -> Inv w -> Inv w'.
Proof.
  unfold run, confirmDeal, _completeDeal. intros H HI.
  apply bind_Ok in H as (ds & w1 & t1 & E1 & H). minv E1.
  apply bind_Ok in H as (? & w1 & t1 & E2 & H). minv E2.
  cbv zeta in H.
  apply bind_Ok in H as (d & w1 & t1 & E3 & H). minv E3.
  destruct (parties_not_self _ _ _ HI E3) as [Hcr Hcp].
  destruct (deal_ok_lookup _ _ _ _ (inv_deals _ HI) E3) as (_ & Hne & Hrc & Hrp).
  destruct HI as [Hg Hc Hst Hen Hself Hd Hrq].
  pose proof (total_staked_bounds _ (Deal.creator d) Hst) as Hb1.
  pose proof (total_staked_bounds _ (Deal.counterparty d) Hst) as Hb2.
  minv H.
  all: msimpl2.
  all: rewrite ?list_lookup_alter_eq, ?E3 in *; simplify_eq/=.
  all: msimpl2.
  all: split; msimpl2; rewrite ?list_alter_alter_eq; auto; inv_goal.
Qed.

Lemma transact_Inv env c w :
  valid_env env -> valid_args c -> Inv w -> Inv (transact env c w).
Proof.
  intros He Hc HI. unfold transact.
  destruct (run (dispatch env c) w) as [u w' t|] eqn:H; [|done].
  destruct c; simpl in H, Hc.
  - eauto using registerAgent_Inv.
  - eauto using stake_Inv.
  - eauto using requestUnstake_Inv.
  - eauto using unstake_Inv.
  - unfold run in H. minv H. destruct Hc. eauto using createDeal_Inv.
  - eauto using confirmDeal_Inv.
  - eauto using disputeDeal_Inv.
  - eauto using cancelExpiredDeal_Inv.
Qed.

Lemma Inv_deployed k : balance_of MOLTBOND_ADDRESS k = 0 -> Inv (deployed k).
Proof.
  intros Hk. split; simpl; done.
Qed.

Lemma reachable_Inv w : reachable w -> Inv w.
Proof.
  induction 1; [by apply Inv_deployed | by apply transact_Inv].
Qed.

Lemma reachable_transact_all cs w :
  reachable w ->
  Forall (fun ec => valid_env ec.1 /\ valid_args ec.2) cs ->
  reachable (transact_all cs w).
Proof.
  intros Hw Hcs. revert w Hw.
  induction Hcs as [|[env c] cs [He Hc] _ IH]; intros w Hw; simpl; [done|].
  apply IH. by constructor.
Qed.

(** Forward execution: unfold the monad, then feed it the facts that decide
    its branches, one at a time. *)
Ltac munfold :=
  repeat progress
    unfold run, bind, sload, require, deal_at, sstore, emit, ret, revert,
           add, sub, mul, nonReentrant, safeTransfer, safeTransferFrom;
  cbv beta iota zeta.
Ltac gsimpl1 :=
  cbv beta iota zeta;
  unfold registered, agent_at, requested_at, held, balance_of, allowance_of;
  cbn [bond usdc agents agentList deals unstakeRequestedAt entered
       set_agents set_agentList set_deals set_unstakeRequestedAt set_entered
       update_agent update_deal balanceOf allowance from_option id
       Agent.name Agent.staked Agent.dealsCompleted Agent.dealsFailed
       Agent.totalVolume Agent.registeredAt Agent.exists_
       Agent.set_staked Agent.set_dealsCompleted Agent.set_dealsFailed
       Agent.set_totalVolume Agent.zero
       Deal.id Deal.creator Deal.counterparty Deal.amount Deal.description
       Deal.status Deal.createdAt Deal.expiresAt Deal.creatorConfirmed
       Deal.counterpartyConfirmed Deal.set_status Deal.set_creatorConfirmed
       Deal.set_counterpartyConfirmed
       msg_sender block_timestamp app orb andb negb].
Ltac gsimpl := repeat progress gsimpl1.
Tactic Notation "mstep" uconstr(H) := rewrite H; gsimpl.
Tactic Notation "mstep" uconstr(H) "by" tactic(tac) := rewrite H by tac; gsimpl.

(** While a deal is Active the vault holds its amount on top of all stakes. *)
Lemma held_covers w i d :
  Inv w -> deals (bond w) !! i = Some d -> Deal.status d = Active ->
  Deal.amount d + total_staked (agents (bond w)) <= held w.
Proof.
  intros HI Hi Hact. rewrite (inv_conservation _ HI).
  pose proof (escrowed_bounds _ _ _ (deals_amount_nonneg _ _ (inv_deals _ HI)) Hi) as Hb.
  unfold escrow_of, Deal.is_active in Hb. rewrite bool_decide_true in Hb by done. lia.
Qed.

(** The scenario worlds are reachable. *)
Lemma scenario_calls_valid (cs : list (Env * Call)) :
  Forall (fun ec => valid_env ec.1 /\ valid_args ec.2) cs ->
  reachable (transact_all cs (deployed Scenario.funded)).
Proof. apply reachable_transact_all. by constructor. Qed.

(* ================================================================= *)
(** ** Conservation *)

(** C1. Conservation: in every world reachable from deployment by calls of
    the contract's functions (registerAgent, stake, requestUnstake, unstake,
    createDeal, confirmDeal, disputeDeal, cancelExpiredDeal), the token
    balance the contract holds equals the sum of all agents' staked balances
    plus the sum of the amounts of all deals whose status is Active. *)
Theorem conservation w :
  reachable w ->
  held w = total_staked (agents (bond w)) + escrowed (deals (bond w)).
Proof. intros Hr. apply inv_conservation. by apply reachable_Inv. Qed.

(* ================================================================= *)
(** ** The lifecycle of a deal *)

Lemma dispatch_terminal env c w u w' t i d :
  run (dispatch env c) w = Ok u w' t ->
  deals (bond w) !! i = Some d -> Deal.status d <> Active ->
  deals (bond w') !! i = Some d.
Proof.
  intros H Hi Hd. unfold run in H.
  destruct c; simpl in H;
    unfold registerAgent, stake, requestUnstake, unstake, createDeal,
           confirmDeal, disputeDeal, cancelExpiredDeal, _completeDeal in H;
    minv H; wsimpl; auto.
  all: try (by apply lookup_app_l_Some).
  all: rewrite !list_lookup_alter_ne; [done | intros <-; simplify_eq..].
  all: repeat match goal with
       | H : bool_decide _ = true |- _ => apply bool_decide_eq_true in H
       end; congruence.
Qed.

Lemma transact_terminal env c w i d :
  deals (bond w) !! i = Some d -> Deal.status d <> Active ->
  deals (bond (transact env c w)) !! i = Some d.
Proof.
  intros Hi Hd. unfold transact.
  destruct (run (dispatch env c) w) eqn:H; [|done].
  eauto using dispatch_terminal.
Qed.

(** C6. Monotone lifecycle: once a deal's status is anything other than
    Active, no sequence of calls, by whomever and whenever, changes its
    status or any other of its fields again. *)
Theorem monotone_lifecycle (cs : list (Env * Call)) w i d :
  deals (bond w) !! i = Some d -> Deal.status d <> Active ->
  deals (bond (transact_all cs w)) !! i = Some d.
Proof.
  revert w. induction cs as [|[env c] cs IH]; intros w Hi Hd; simpl; [done|].
  apply IH; [|done]. by apply transact_terminal.
Qed.

(* ----------------------------------------------------------------- *)
(** *** The scenario worlds *)

Import Scenario.

Lemma with_deal_reachable : reachable with_deal.
Proof.
  apply (scenario_calls_valid
    [ by_ alice t0 (call_registerAgent "Alice");
      by_ bob t0 (call_registerAgent "Bob");
      by_ alice t0 (call_stake (USDC 100));
      by_ bob t0 (call_stake (USDC 100));
      by_ alice t0 (call_createDeal bob (USDC 50) "Task" 0) ]).
  repeat constructor; done.
Defined.

Lemma conservation_witness :
  reachable with_deal /\
  held with_deal
  = total_staked (agents (bond with_deal)) + escrowed (deals (bond with_deal)).
Proof.
  split; [exact with_deal_reachable|].
  exact (conservation with_deal with_deal_reachable).
Defined.

(** Alice disputes the deal. *)
Definition disputed : World :=
  transact (mkEnv alice t0) (call_disputeDeal 0) with_deal.

Lemma monotone_lifecycle_witness :
  let d := Deal.mk 0 alice bob (USDC 50) "Task" Disputed t0 (t0 + DEFAULT_EXPIRY)
                   false false in
  let later := [ by_ bob (t0 + 10) (call_confirmDeal 0);
                 by_ alice (t0 + 20) (call_disputeDeal 0);
                 by_ charlie (t0 + 700000) (call_cancelExpiredDeal 0);
                 by_ alice (t0 + 700001) (call_createDeal bob (USDC 1) "Next" 0) ] in
  deals (bond disputed) !! 0%nat = Some d /\ Deal.status d <> Active /\
  deals (bond (transact_all later disputed)) !! 0%nat = Some d.
Proof.
  intros d later.
  assert (H1 : deals (bond disputed) !! 0%nat = Some d) by (vm_compute; reflexivity).
  assert (H2 : Deal.status d <> Active) by (simpl; discriminate).
  exact (conj H1 (conj H2 (monotone_lifecycle later disputed 0%nat d H1 H2))).
Defined.

(* ================================================================= *)
(** ** Confirmation *)

Definition same_outcome {A} (r1 r2 : Result A) : Prop :=
  match r1, r2 with
  | Ok a1 w1 _, Ok a2 w2 _ => a1 = a2 /\ w1 = w2
  | Revert e1 _, Revert e2 _ => e1 = e2
  | _, _ => False
  end.

Ltac case_if :=
  match goal with
  | |- context [if ?c then _ else _] => destruct c eqn:?
  | |- context [match ?c with Some _ => _ | None => _ end] => destruct c eqn:?
  end.

Lemma confirmDeal_sender s t1 t2 i w :
  same_outcome (run (confirmDeal (mkEnv s t1) i) w) (run (confirmDeal (mkEnv s t2) i) w).
Proof.
  unfold confirmDeal, _completeDeal. munfold. gsimpl.
  cbn [msg_sender block_timestamp].
  repeat (case_if; gsimpl; try done).
Qed.

Lemma alter_twice {A} (f : A -> A) i (l : list A) :
  (forall x, f (f x) = f x) -> alter f i (alter f i l) = alter f i l.
Proof.
  intros Hf. rewrite list_alter_alter_eq. apply list_alter_ext; [|done].
  intros x _. apply Hf.
Qed.

Lemma confirmDeal_again s t1 t2 i w u w1 tr1 :
  run (confirmDeal (mkEnv s t1) i) w = Ok u w1 tr1 ->
  match run (confirmDeal (mkEnv s t2) i) w1 with
  | Ok _ w2 tr2 => w2 = w1 /\ events_of tr2 = []
  | Revert e _ => e = RequireFailed "Deal not active"
  end.
Proof.
  unfold run at 1, confirmDeal at 1, _completeDeal. intros H.
  cbn [msg_sender block_timestamp] in H.
  apply bind_Ok in H as (ds & w' & t' & E1 & H). minv E1.
  apply bind_Ok in H as (? & w' & t' & E2 & H). minv E2.
  cbv zeta in H.
  apply bind_Ok in H as (d & w' & t' & E3 & H). minv E3.
  minv H.
  all: wsimpl; rewrite ?list_lookup_alter_eq, ?E3 in *; simplify_eq/=.
  all: repeat match goal with H : _ <= _ |- _ => clear H end.
  all: unfold confirmDeal; munfold; gsimpl; rewrite ?length_alter.
  all: cbn [msg_sender block_timestamp].
  all: mstep E2; rewrite ?list_lookup_alter_eq, ?E3; simpl; gsimpl.
  all: try done.
  all: mstep E; rewrite ?C; gsimpl.
  all: try match goal with H : (_ =? _)%N = true |- _ => rewrite H; gsimpl end.
  all: rewrite list_lookup_alter_eq, list_lookup_alter_eq, E3; simpl; gsimpl.
  all: rewrite ?C0, ?andb_false_r; simpl; gsimpl.
  all: split; [|done]; f_equal; unfold update_deal, set_deals; cbn [deals agents
         agentList unstakeRequestedAt entered]; by rewrite alter_twice.
Qed.

(** C9. Idempotent confirmation: when the same caller calls confirmDeal on
    the same deal twice in a row, the world after the second call is the
    world after the first one, and the second call emits no event. *)
Theorem confirm_idempotent env1 env2 i w :
  msg_sender env2 = msg_sender env1 ->
  transact env2 (call_confirmDeal i) (transact env1 (call_confirmDeal i) w)
  = transact env1 (call_confirmDeal i) w
  /\ logs env2 (call_confirmDeal i) (transact env1 (call_confirmDeal i) w) = [].
Proof.
  destruct env1 as [s t1], env2 as [s2 t2]. simpl. intros ->.
  unfold transact, logs. simpl dispatch.
  destruct (run (confirmDeal (mkEnv s t1) i) w) as [u w1 tr1|e tr1] eqn:H1.
  - apply (confirmDeal_again s t1 t2) in H1.
    destruct (run (confirmDeal (mkEnv s t2) i) w1) as [u2 w3 tr3|e3 tr3]; [|done].
    by destruct H1 as [-> ->].
  - pose proof (confirmDeal_sender s t1 t2 i w) as Hs. rewrite H1 in Hs.
    destruct (run (confirmDeal (mkEnv s t2) i) w); simpl in Hs; done.
Qed.

Lemma confirm_idempotent_witness :
  let first := mkEnv alice (t0 + 60) in
  let second := mkEnv alice (t0 + 3600) in
  msg_sender second = msg_sender first /\
  deals (bond (transact first (call_confirmDeal 0) with_deal)) <> deals (bond with_deal) /\
  transact second (call_confirmDeal 0) (transact first (call_confirmDeal 0) with_deal)
  = transact first (call_confirmDeal 0) with_deal /\
  logs second (call_confirmDeal 0) (transact first (call_confirmDeal 0) with_deal) = [].
Proof.
  intros first second.
  split; [reflexivity|]. split; [vm_compute; discriminate|].
  exact (confirm_idempotent first second 0 with_deal eq_refl).
Defined.

(* ================================================================= *)
(** ** Expiry *)

Lemma index_in_range (i : Z) (ds : list Deal.t) d :
  ds !! Z.to_nat i = Some d -> (i <? Z.of_nat (length ds)) = true.
Proof. intros Hi. apply lookup_lt_Some in Hi. apply Z.ltb_lt. lia. Qed.

(** C8. For every Active deal and every caller, party to the deal or not:
    cancelExpiredDeal fails with "Deal not expired" (DealNotExpired) while
    the block timestamp is before the deal's expiry and changes nothing; at
    or past the expiry it sets the status to Expired and transfers the full
    escrowed amount to the creator, and no agent record (dealsCompleted,
    dealsFailed, totalVolume, staked) and no unstake request changes. *)
Theorem cancelExpiredDeal_spec env i w d :
  reachable w ->
  deals (bond w) !! Z.to_nat i = Some d ->
  Deal.status d = Active ->
  (block_timestamp env < Deal.expiresAt d ->
   transact env (call_cancelExpiredDeal i) w = w /\
   exists t, run (cancelExpiredDeal env i) w
             = Revert (RequireFailed "Deal not expired") t) /\
  (Deal.expiresAt d <= block_timestamp env ->
   exists w',
     run (cancelExpiredDeal env i) w
     = Ok tt w' [SStore (slot_status (Z.to_nat i));
                 CallTransfer (Deal.creator d) (Deal.amount d);
                 Emit (DealExpired i)] /\
     transact env (call_cancelExpiredDeal i) w = w' /\
     deals (bond w') = <[Z.to_nat i := Deal.set_status Expired d]> (deals (bond w)) /\
     balance_of (Deal.creator d) (usdc w')
       = balance_of (Deal.creator d) (usdc w) + Deal.amount d /\
     held w' = held w - Deal.amount d /\
     agents (bond w') = agents (bond w) /\
     unstakeRequestedAt (bond w') = unstakeRequestedAt (bond w)).
Proof.
  intros Hr Hi Hact. pose proof (reachable_Inv _ Hr) as HI.
  pose proof (held_covers _ _ _ HI Hi Hact) as Hheld.
  pose proof (total_staked_bounds _ 0%N (inv_stakes _ HI)) as Hts.
  destruct (parties_not_self _ _ _ HI Hi) as [Hcr _].
  pose proof (index_in_range _ _ _ Hi) as Hlt.
  split; intros Ht.
  - assert (run (cancelExpiredDeal env i) w
            = Revert (RequireFailed "Deal not expired") []) as Hrun.
    { unfold cancelExpiredDeal. munfold. mstep Hlt. mstep Hi.
      mstep bool_decide_true by done.
      by mstep (proj2 (Z.leb_gt _ _) Ht). }
    split; [|eauto]. unfold transact. simpl dispatch. by rewrite Hrun.
  - set (w' := mkWorld
                 (update_deal (Z.to_nat i) (Deal.set_status Expired) (bond w))
                 (mkToken (move MOLTBOND_ADDRESS (Deal.creator d) (Deal.amount d)
                                (balanceOf (usdc w)))
                          (allowance (usdc w)))).
    exists w'.
    assert (run (cancelExpiredDeal env i) w
            = Ok tt w' [SStore (slot_status (Z.to_nat i));
                        CallTransfer (Deal.creator d) (Deal.amount d);
                        Emit (DealExpired i)]) as Hrun.
    { unfold cancelExpiredDeal. munfold. mstep Hlt. mstep Hi.
      mstep bool_decide_true by done.
      mstep (proj2 (Z.leb_le _ _) Ht).
      unfold held, balance_of in *.
      mstep (proj2 (Z.ltb_ge _ _)) by lia.
      reflexivity. }
    split; [exact Hrun|].
    split; [unfold transact; simpl dispatch; by rewrite Hrun|].
    subst w'. unfold held, balance_of. gsimpl. rewrite !lookup_move.
    repeat case_decide; try done.
    repeat split; try lia.
    rewrite list_insert_alter.
    apply list_alter_ext; [|done]. intros x Hx. congruence.
Qed.

(* ================================================================= *)
(** ** Completion *)

(** The effects of a [confirmDeal] that completes the deal, in program
    order; [flag] is the confirmation flag the caller sets. *)
Definition completion_trace (flag : Slot) (i : Z) (d : Deal.t) (now : Z) : list Action :=
  [ SStore flag; SStore slot_guard;
    SStore (slot_status (Z.to_nat i));
    CallTransfer (Deal.counterparty d) (Deal.amount d);
    SStore (slot_dealsCompleted (Deal.creator d));
    SStore (slot_totalVolume (Deal.creator d));
    SStore (slot_dealsCompleted (Deal.counterparty d));
    SStore (slot_totalVolume (Deal.counterparty d));
    Emit (DealCompleted i now);
    SStore slot_guard ].

Lemma confirmDeal_completes env i w d :
  reachable w ->
  deals (bond w) !! Z.to_nat i = Some d ->
  Deal.status d = Active ->
  (msg_sender env = Deal.creator d /\ Deal.counterpartyConfirmed d = true) \/
  (msg_sender env = Deal.counterparty d /\ Deal.creatorConfirmed d = true) ->
  Agent.dealsCompleted (agent_at (Deal.creator d) (bond w)) + 1 <= MAX_UINT256 ->
  Agent.totalVolume (agent_at (Deal.creator d) (bond w)) + Deal.amount d <= MAX_UINT256 ->
  Agent.dealsCompleted (agent_at (Deal.counterparty d) (bond w)) + 1 <= MAX_UINT256 ->
  Agent.totalVolume (agent_at (Deal.counterparty d) (bond w)) + Deal.amount d <= MAX_UINT256 ->
  exists w' flag,
    run (confirmDeal env i) w
    = Ok tt w' (completion_trace flag i d (block_timestamp env)).
Proof.
  intros Hr Hi Hact Hwho Ho1 Ho2 Ho3 Ho4. pose proof (reachable_Inv _ Hr) as HI.
  pose proof (held_covers _ _ _ HI Hi Hact) as Hheld.
  pose proof (total_staked_bounds _ 0%N (inv_stakes _ HI)) as Hts.
  destruct (deal_ok_lookup _ _ _ _ (inv_deals _ HI) Hi) as (_ & Hne & _ & _).
  pose proof (index_in_range _ _ _ Hi) as Hlt.
  pose proof (inv_guard _ HI) as Hg.
  unfold held, balance_of, agent_at in *.
  assert (Hsender : exists b, (msg_sender env =? Deal.creator d)%N = b /\
     Deal.creatorConfirmed (if b then Deal.set_creatorConfirmed true d
                            else Deal.set_counterpartyConfirmed true d)
     && Deal.counterpartyConfirmed (if b then Deal.set_creatorConfirmed true d
                            else Deal.set_counterpartyConfirmed true d) = true /\
     (msg_sender env =? Deal.creator d)%N || (msg_sender env =? Deal.counterparty d)%N = true).
  { destruct Hwho as [[-> Hf]|[-> Hf]].
    - exists true. rewrite N.eqb_refl. simpl. by rewrite Hf.
    - exists false. rewrite (proj2 (N.eqb_neq _ _)) by done.
      rewrite N.eqb_refl. simpl. by rewrite Hf. }
  destruct Hsender as (b & Hb & Hboth & Hparty).
  destruct b;
    [eexists _, (slot_creatorConfirmed (Z.to_nat i))
    |eexists _, (slot_counterpartyConfirmed (Z.to_nat i))].
  all: unfold confirmDeal, _completeDeal; munfold.
  all: mstep Hlt; mstep Hi; mstep bool_decide_true by done.
  all: mstep Hparty; rewrite Hb; gsimpl.
  all: rewrite list_lookup_alter_eq, Hi; simpl; gsimpl.
  all: simpl in Hboth; rewrite Hboth; gsimpl; unfold _completeDeal; munfold; gsimpl.
  all: mstep Hg.
  all: rewrite list_lookup_alter_eq, Hi; simpl; gsimpl.
  all: mstep (proj2 (Z.ltb_ge _ _)) by lia.
  all: mstep (proj2 (Z.leb_le _ _) Ho1).
  all: rewrite lookup_insert_eq; gsimpl.
  all: mstep (proj2 (Z.leb_le _ _) Ho2).
  all: rewrite !lookup_insert_ne by done.
  all: mstep (proj2 (Z.leb_le _ _) Ho3).
  all: rewrite lookup_insert_eq; gsimpl.
  all: rewrite !lookup_insert_ne by done.
  all: mstep (proj2 (Z.leb_le _ _) Ho4).
  all: reflexivity.
Qed.

(** C2. For every Active deal of a reachable world: when a call of
    confirmDeal succeeds and leaves both confirmation flags of the deal set,
    that same call has set the status to Completed, has transferred the full
    escrowed amount to the counterparty, and has increased dealsCompleted by
    1 and totalVolume by the deal's amount for the creator and for the
    counterparty; the call's effects are exactly those of
    [completion_trace]. *)
Theorem confirmDeal_completion env i w d w' t d' :
  reachable w ->
  deals (bond w) !! Z.to_nat i = Some d ->
  Deal.status d = Active ->
  run (confirmDeal env i) w = Ok tt w' t ->
  deals (bond w') !! Z.to_nat i = Some d' ->
  Deal.creatorConfirmed d' = true -> Deal.counterpartyConfirmed d' = true ->
  Deal.status d' = Completed /\
  balance_of (Deal.counterparty d) (usdc w')
    = balance_of (Deal.counterparty d) (usdc w) + Deal.amount d /\
  held w' = held w - Deal.amount d /\
  Agent.dealsCompleted (agent_at (Deal.creator d) (bond w'))
    = Agent.dealsCompleted (agent_at (Deal.creator d) (bond w)) + 1 /\
  Agent.dealsCompleted (agent_at (Deal.counterparty d) (bond w'))
    = Agent.dealsCompleted (agent_at (Deal.counterparty d) (bond w)) + 1 /\
  Agent.totalVolume (agent_at (Deal.creator d) (bond w'))
    = Agent.totalVolume (agent_at (Deal.creator d) (bond w)) + Deal.amount d /\
  Agent.totalVolume (agent_at (Deal.counterparty d) (bond w'))
    = Agent.totalVolume (agent_at (Deal.counterparty d) (bond w)) + Deal.amount d /\
  t = completion_trace
        (if (msg_sender env =? Deal.creator d)%N
         then slot_creatorConfirmed (Z.to_nat i)
         else slot_counterpartyConfirmed (Z.to_nat i))
        i d (block_timestamp env).
Proof.
  intros Hr Hi _ H Hi' Hc1 Hc2. pose proof (reachable_Inv _ Hr) as HI.
  destruct (parties_not_self _ _ _ HI Hi) as [Hcr Hcp].
  destruct (deal_ok_lookup _ _ _ _ (inv_deals _ HI) Hi) as (_ & Hne & _ & _).
  unfold run, confirmDeal, _completeDeal in H.
  apply bind_Ok in H as (ds & w1 & t1 & E1 & H). minv E1.
  apply bind_Ok in H as (? & w1 & t1 & E2 & H). minv E2.
  cbv zeta in H.
  apply bind_Ok in H as (d0 & w1 & t1 & E3 & H). minv E3.
  assert (d0 = d) as -> by congruence.
  minv H.
  all: msimpl2.
  all: rewrite ?list_alter_alter_eq, ?list_lookup_alter_eq, ?Hi in *; simplify_eq/=.
  all: msimpl2.
  all: try (rewrite ?Hc1, ?Hc2 in *; simpl in *; congruence).
  all: rewrite !lookup_move; repeat case_decide; try done.
  all: repeat split; try lia.
Qed.

Definition half_confirmed : World :=
  transact (mkEnv alice (t0 + 60)) (call_confirmDeal 0) with_deal.

Lemma half_confirmed_reachable : reachable half_confirmed.
Proof.
  apply reachable_transact; [exact with_deal_reachable | done | done].
Defined.

Lemma confirmDeal_completion_witness :
  let env := mkEnv bob (t0 + 120) in
  let d := Deal.mk 0 alice bob (USDC 50) "Task" Active t0 (t0 + DEFAULT_EXPIRY)
                   true false in
  let d' := Deal.mk 0 alice bob (USDC 50) "Task" Completed t0 (t0 + DEFAULT_EXPIRY)
                    true true in
  let w' := transact env (call_confirmDeal 0) half_confirmed in
  balance_of bob (usdc w') = balance_of bob (usdc half_confirmed) + USDC 50 /\
  Agent.dealsCompleted (agent_at alice (bond w')) = 1 /\
  Agent.dealsCompleted (agent_at bob (bond w')) = 1 /\
  Agent.totalVolume (agent_at alice (bond w')) = USDC 50 /\
  Agent.totalVolume (agent_at bob (bond w')) = USDC 50.
Proof.
  intros env d d' w'.
  destruct (confirmDeal_completion env 0 half_confirmed d w'
              (completion_trace (slot_counterpartyConfirmed 0) 0 d (t0 + 120)) d')
    as (_ & Hb & _ & Hc1 & Hc2 & Hv1 & Hv2 & _).
  - exact half_confirmed_reachable.
  - vm_compute; reflexivity.
  - reflexivity.
  - vm_compute; reflexivity.
  - vm_compute; reflexivity.
  - reflexivity.
  - reflexivity.
  - repeat split; assumption.
Defined.

(* ================================================================= *)
(** ** Disputes *)

(** [slashTarget] and [slashAmount] of [disputeDeal]. *)
Definition slash_target (sender : address) (d : Deal.t) : address :=
  if (sender =? Deal.creator d)%N then Deal.counterparty d else Deal.creator d.

Definition slash_amount (stake_ : Z) : Z := stake_ * SLASH_PERCENT / 100.

(** The effects of a successful [disputeDeal], in program order. *)
Definition dispute_trace (sender : address) (i : Z) (d : Deal.t) (slash : Z)
  : list Action :=
  [ SStore (slot_status (Z.to_nat i));
    CallTransfer (Deal.creator d) (Deal.amount d) ]
  ++ (if 0 <? slash
      then [ SStore (slot_staked (slash_target sender d));
             CallTransfer sender slash;
             Emit (Slashed (slash_target sender d) slash i) ]
      else [])
  ++ [ SStore (slot_dealsFailed (slash_target sender d));
       Emit (DealDisputed i sender) ].

Lemma slash_amount_bounds st : 0 <= st -> 0 <= slash_amount st <= st.
Proof.
  intros Hst. unfold slash_amount, SLASH_PERCENT. split.
  - apply Z.div_pos; lia.
  - apply Z.div_le_upper_bound; lia.
Qed.

(** The world a successful [disputeDeal] leaves. *)
Definition after_dispute (sender : address) (i : Z) (d : Deal.t) (w : World) : World :=
  let tgt := slash_target sender d in
  let a := agent_at tgt (bond w) in
  let slash := slash_amount (Agent.staked a) in
  let s1 := update_deal (Z.to_nat i) (Deal.set_status Disputed) (bond w) in
  let b1 := move MOLTBOND_ADDRESS (Deal.creator d) (Deal.amount d) (balanceOf (usdc w)) in
  if 0 <? slash
  then mkWorld
         (update_agent tgt (Agent.set_dealsFailed (Agent.dealsFailed a + 1))
            (update_agent tgt (Agent.set_staked (Agent.staked a - slash)) s1))
         (mkToken (move MOLTBOND_ADDRESS sender slash b1) (allowance (usdc w)))
  else mkWorld
         (update_agent tgt (Agent.set_dealsFailed (Agent.dealsFailed a + 1)) s1)
         (mkToken b1 (allowance (usdc w))).

Lemma disputeDeal_run env i w d :
  reachable w ->
  deals (bond w) !! Z.to_nat i = Some d ->
  Deal.status d = Active ->
  msg_sender env = Deal.creator d \/ msg_sender env = Deal.counterparty d ->
  let a := agent_at (slash_target (msg_sender env) d) (bond w) in
  Agent.staked a * SLASH_PERCENT <= MAX_UINT256 ->
  Agent.dealsFailed a + 1 <= MAX_UINT256 ->
  run (disputeDeal env i) w
  = Ok tt (after_dispute (msg_sender env) i d w)
       (dispute_trace (msg_sender env) i d (slash_amount (Agent.staked a))).
Proof.
  intros Hr Hi Hact Hwho a Ho1 Ho2.
  pose proof (reachable_Inv _ Hr) as HI.
  pose proof (held_covers _ _ _ HI Hi Hact) as Hheld.
  pose proof (total_staked_bounds _ (slash_target (msg_sender env) d) (inv_stakes _ HI)) as Hts.
  pose proof (index_in_range _ _ _ Hi) as Hlt.
  destruct (deal_ok_lookup _ _ _ _ (inv_deals _ HI) Hi) as (Hamt & Hne & _ & _).
  destruct (parties_not_self _ _ _ HI Hi) as [Hcr Hcp].
  assert (Hparty : (msg_sender env =? Deal.creator d)%N
                   || (msg_sender env =? Deal.counterparty d)%N = true).
  { destruct Hwho as [->| ->]; rewrite N.eqb_refl; by rewrite ?orb_true_r. }
  pose proof (slash_amount_bounds _ (proj1 Hts)) as Hsl.
  unfold after_dispute, dispute_trace.
  subst a. unfold slash_amount, held, balance_of, agent_at in *.
  set (tgt := slash_target (msg_sender env) d) in *.
  set (st := Agent.staked (default Agent.zero (agents (bond w) !! tgt))) in *.
  unfold disputeDeal; munfold.
  mstep Hlt. mstep Hi. mstep bool_decide_true by done. mstep Hparty.
  mstep (proj2 (Z.ltb_ge _ (Deal.amount d))) by lia.
  fold (slash_target (msg_sender env) d). fold tgt. fold st.
  mstep (proj2 (Z.leb_le _ _) Ho1).
  destruct (0 <? Z.div (st * SLASH_PERCENT) 100) eqn:Hpos; gsimpl.
  - fold st. mstep (proj2 (Z.leb_le _ _) (proj2 Hsl)).
    rewrite lookup_move.
    rewrite decide_True by done. rewrite decide_False by done.
    mstep (proj2 (Z.ltb_ge _ _)) by lia.
    rewrite lookup_insert_eq. gsimpl.
    mstep (proj2 (Z.leb_le _ _) Ho2). reflexivity.
  - mstep (proj2 (Z.leb_le _ _) Ho2). reflexivity.
Qed.

(** When ten times the other party's stake leaves [uint256], the checked
    multiplication of the slash reverts the call, after the status write
    and the return of the escrow. *)
Lemma disputeDeal_overflow env i w d :
  reachable w ->
  deals (bond w) !! Z.to_nat i = Some d ->
  Deal.status d = Active ->
  msg_sender env = Deal.creator d \/ msg_sender env = Deal.counterparty d ->
  MAX_UINT256
  < Agent.staked (agent_at (slash_target (msg_sender env) d) (bond w)) * SLASH_PERCENT ->
  run (disputeDeal env i) w
  = Revert (Panic 0x11)
      [ SStore (slot_status (Z.to_nat i));
        CallTransfer (Deal.creator d) (Deal.amount d) ].
Proof.
  intros Hr Hi Hact Hwho Ho.
  pose proof (reachable_Inv _ Hr) as HI.
  pose proof (held_covers _ _ _ HI Hi Hact) as Hheld.
  pose proof (total_staked_bounds _ (slash_target (msg_sender env) d)
                (inv_stakes _ HI)) as Hts.
  pose proof (index_in_range _ _ _ Hi) as Hlt.
  assert (Hparty : (msg_sender env =? Deal.creator d)%N
                   || (msg_sender env =? Deal.counterparty d)%N = true).
  { destruct Hwho as [->| ->]; rewrite N.eqb_refl; by rewrite ?orb_true_r. }
  unfold held, balance_of, agent_at in *.
  set (tgt := slash_target (msg_sender env) d) in *.
  set (st := Agent.staked (default Agent.zero (agents (bond w) !! tgt))) in *.
  unfold disputeDeal; munfold.
  mstep Hlt. mstep Hi. mstep bool_decide_true by done. mstep Hparty.
  mstep (proj2 (Z.ltb_ge _ (Deal.amount d))) by lia.
  fold (slash_target (msg_sender env) d). fold tgt. fold st.
  mstep (proj2 (Z.leb_gt _ _) Ho). reflexivity.
Qed.

Lemma slash_target_other sender d :
  Deal.creator d <> Deal.counterparty d ->
  sender = Deal.creator d \/ sender = Deal.counterparty d ->
  slash_target sender d <> sender /\
  (slash_target sender d = Deal.creator d \/ slash_target sender d = Deal.counterparty d).
Proof.
  intros Hne Hwho. unfold slash_target.
  destruct (N.eqb_spec sender (Deal.creator d)) as [->|Hn]; [by auto|].
  destruct Hwho as [->| ->]; [done | by auto].
Qed.

Lemma after_dispute_deals sender i d w :
  deals (bond w) !! Z.to_nat i = Some d ->
  deals (bond (after_dispute sender i d w))
  = <[Z.to_nat i := Deal.set_status Disputed d]> (deals (bond w)).
Proof.
  intros Hi. unfold after_dispute. cbv zeta.
  rewrite list_insert_alter.
  destruct (0 <? _); gsimpl; apply list_alter_ext; try done; intros x Hx; congruence.
Qed.

Lemma after_dispute_target sender i d w :
  let tgt := slash_target sender d in
  let a := agent_at tgt (bond w) in
  0 <= Agent.staked a ->
  agent_at tgt (bond (after_dispute sender i d w))
  = Agent.set_dealsFailed (Agent.dealsFailed a + 1)
      (Agent.set_staked (Agent.staked a - slash_amount (Agent.staked a)) a).
Proof.
  intros tgt a Hst. unfold after_dispute. cbv zeta. fold tgt. fold a.
  pose proof (slash_amount_bounds _ Hst) as Hsl.
  destruct (Z.ltb_spec 0 (slash_amount (Agent.staked a))); gsimpl.
  - by rewrite !lookup_insert_eq.
  - rewrite lookup_insert_eq. gsimpl.
    replace (slash_amount (Agent.staked a)) with 0 by lia.
    fold (agent_at tgt (bond w)). fold a. rewrite Z.sub_0_r. by destruct a.
Qed.

Lemma after_dispute_others sender i d w x :
  x <> slash_target sender d ->
  agent_at x (bond (after_dispute sender i d w)) = agent_at x (bond w).
Proof.
  intros Hx. unfold after_dispute. cbv zeta.
  destruct (0 <? _); gsimpl; by rewrite !lookup_insert_ne.
Qed.

Lemma after_dispute_balance sender i d w x :
  let slash := slash_amount (Agent.staked (agent_at (slash_target sender d) (bond w))) in
  0 <= slash ->
  balance_of x (usdc (after_dispute sender i d w))
  = balance_of x (usdc w)
    + (if decide (x = Deal.creator d) then Deal.amount d else 0)
    + (if decide (x = sender) then slash else 0)
    - (if decide (x = MOLTBOND_ADDRESS) then Deal.amount d + slash else 0).
Proof.
  intros slash Hsl. unfold after_dispute. cbv zeta. fold slash.
  destruct (Z.ltb_spec 0 slash); gsimpl; rewrite !lookup_move.
  - repeat case_decide; lia.
  - replace slash with 0 by lia. repeat case_decide; lia.
Qed.

Lemma disputeDeal_stranger env i w d :
  deals (bond w) !! Z.to_nat i = Some d ->
  Deal.status d = Active ->
  msg_sender env <> Deal.creator d -> msg_sender env <> Deal.counterparty d ->
  run (disputeDeal env i) w = Revert (RequireFailed "Not a party to this deal") [].
Proof.
  intros Hi Hact H1 H2. pose proof (index_in_range _ _ _ Hi) as Hlt.
  unfold disputeDeal. munfold.
  mstep Hlt. mstep Hi. mstep bool_decide_true by done.
  rewrite (proj2 (N.eqb_neq _ _) H1), (proj2 (N.eqb_neq _ _) H2). by gsimpl.
Qed.

(** C3, within the range of the checked arithmetic.  For every Active deal
    of a reachable world: disputeDeal called by anyone but the two parties
    fails with "Not a party to this deal" and changes nothing.  Called by a
    party while ten times the other party's stake fits uint256 (and its
    dealsFailed counter is below the largest uint256), it sets the status to
    Disputed, transfers the full escrowed amount to the creator, reduces the
    staked balance of the other party by [staked * 10 / 100] (integer
    division), transfers that amount to the caller, and increases the other
    party's dealsFailed by 1; when the other party's stake is zero there is
    no second transfer, and the status change, the return of the escrow and
    the dealsFailed increment happen all the same.  Called by a party while
    ten times the other party's stake exceeds the largest uint256, it
    reverts with [Panic 0x11] and changes nothing: the deal stays Active. *)
Theorem disputeDeal_spec env i w d :
  reachable w ->
  deals (bond w) !! Z.to_nat i = Some d ->
  Deal.status d = Active ->
  let sender := msg_sender env in
  let tgt := slash_target sender d in
  let a := agent_at tgt (bond w) in
  let slash := slash_amount (Agent.staked a) in
  (sender <> Deal.creator d -> sender <> Deal.counterparty d ->
   transact env (call_disputeDeal i) w = w /\
   exists t, run (disputeDeal env i) w
             = Revert (RequireFailed "Not a party to this deal") t) /\
  (sender = Deal.creator d \/ sender = Deal.counterparty d ->
   Agent.staked a * SLASH_PERCENT <= MAX_UINT256 ->
   Agent.dealsFailed a + 1 <= MAX_UINT256 ->
   exists w',
     run (disputeDeal env i) w = Ok tt w' (dispute_trace sender i d slash) /\
     transact env (call_disputeDeal i) w = w' /\
     tgt <> sender /\ (tgt = Deal.creator d \/ tgt = Deal.counterparty d) /\
     deals (bond w') !! Z.to_nat i = Some (Deal.set_status Disputed d) /\
     (forall x,
        balance_of x (usdc w')
        = balance_of x (usdc w)
          + (if decide (x = Deal.creator d) then Deal.amount d else 0)
          + (if decide (x = sender) then slash else 0)
          - (if decide (x = MOLTBOND_ADDRESS) then Deal.amount d + slash else 0)) /\
     Agent.staked (agent_at tgt (bond w')) = Agent.staked a - slash /\
     Agent.dealsFailed (agent_at tgt (bond w')) = Agent.dealsFailed a + 1 /\
     (forall x, x <> tgt -> agent_at x (bond w') = agent_at x (bond w)) /\
     (Agent.staked a = 0 ->
      dispute_trace sender i d slash
      = [ SStore (slot_status (Z.to_nat i));
          CallTransfer (Deal.creator d) (Deal.amount d);
          SStore (slot_dealsFailed tgt);
          Emit (DealDisputed i sender) ])) /\
  (sender = Deal.creator d \/ sender = Deal.counterparty d ->
   MAX_UINT256 < Agent.staked a * SLASH_PERCENT ->
   run (disputeDeal env i) w
   = Revert (Panic 0x11)
       [ SStore (slot_status (Z.to_nat i));
         CallTransfer (Deal.creator d) (Deal.amount d) ] /\
   transact env (call_disputeDeal i) w = w).
Proof.
  intros Hr Hi Hact sender tgt a slash. subst sender tgt a slash.
  pose proof (reachable_Inv _ Hr) as HI.
  destruct (deal_ok_lookup _ _ _ _ (inv_deals _ HI) Hi) as (_ & Hne & _ & _).
  pose proof (total_staked_bounds _ (slash_target (msg_sender env) d)
                (inv_stakes _ HI)) as [Hst _].
  fold (agent_at (slash_target (msg_sender env) d) (bond w)) in Hst.
  pose proof (slash_amount_bounds _ Hst) as Hsl.
  split; [|split].
  - intros H1 H2.
    pose proof (disputeDeal_stranger env i w d Hi Hact H1 H2) as Hrun.
    split; [|eauto]. unfold transact. simpl dispatch. by rewrite Hrun.
  - intros Hwho Ho1 Ho2.
    pose proof (disputeDeal_run env i w d Hr Hi Hact Hwho Ho1 Ho2) as Hrun.
    destruct (slash_target_other _ d Hne Hwho) as [Hts Hto].
    pose proof (after_dispute_target (msg_sender env) i d w Hst) as Htg.
    cbv zeta in Htg, Hrun.
    exists (after_dispute (msg_sender env) i d w).
    split; [exact Hrun|].
    split; [unfold transact; simpl dispatch; by rewrite Hrun|].
    split; [done|]. split; [done|].
    split. { rewrite after_dispute_deals by done.
             apply list_lookup_insert_eq. by eapply lookup_lt_Some. }
    split. { intros x. apply after_dispute_balance. lia. }
    rewrite Htg.
    split; [done|]. split; [done|].
    split. { intros x Hx. by apply after_dispute_others. }
    intros Hzero. unfold dispute_trace.
    assert (slash_amount
              (Agent.staked (agent_at (slash_target (msg_sender env) d) (bond w))) = 0)
      as -> by lia.
    reflexivity.
  - intros Hwho Ho.
    pose proof (disputeDeal_overflow env i w d Hr Hi Hact Hwho Ho) as Hrun.
    split; [exact Hrun|]. unfold transact. simpl dispatch. by rewrite Hrun.
Qed.

(** C10. Slash truncation: for every Active deal of a reachable world,
    when a party calls disputeDeal and the other party's staked balance is
    positive but below 10 base units, the slash [staked * 10 / 100] is zero:
    the call succeeds, the only transfer is the return of the escrow to the
    creator, the only event is DealDisputed (no Slashed), the other party's
    staked balance is unchanged and its dealsFailed counter increases by 1. *)
Theorem slash_truncation env i w d :
  reachable w ->
  deals (bond w) !! Z.to_nat i = Some d ->
  Deal.status d = Active ->
  let sender := msg_sender env in
  let tgt := slash_target sender d in
  let a := agent_at tgt (bond w) in
  sender = Deal.creator d \/ sender = Deal.counterparty d ->
  0 < Agent.staked a < 10 ->
  Agent.dealsFailed a + 1 <= MAX_UINT256 ->
  slash_amount (Agent.staked a) = 0 /\
  exists w',
    run (disputeDeal env i) w
    = Ok tt w' [ SStore (slot_status (Z.to_nat i));
                 CallTransfer (Deal.creator d) (Deal.amount d);
                 SStore (slot_dealsFailed tgt);
                 Emit (DealDisputed i sender) ] /\
    logs env (call_disputeDeal i) w = [DealDisputed i sender] /\
    deals (bond w') !! Z.to_nat i = Some (Deal.set_status Disputed d) /\
    balance_of sender (usdc w')
      = balance_of sender (usdc w)
        + (if decide (sender = Deal.creator d) then Deal.amount d else 0) /\
    held w' = held w - Deal.amount d /\
    Agent.staked (agent_at tgt (bond w')) = Agent.staked a /\
    Agent.dealsFailed (agent_at tgt (bond w')) = Agent.dealsFailed a + 1.
Proof.
  intros Hr Hi Hact sender tgt a Hwho Hst Ho2. subst sender tgt a.
  assert (Hz : slash_amount
                 (Agent.staked (agent_at (slash_target (msg_sender env) d) (bond w))) = 0).
  { unfold slash_amount, SLASH_PERCENT. apply Z.div_small. lia. }
  split; [exact Hz|].
  assert (Ho1 : Agent.staked (agent_at (slash_target (msg_sender env) d) (bond w))
                * SLASH_PERCENT <= MAX_UINT256).
  { rewrite MAX_UINT256_eq. unfold SLASH_PERCENT. lia. }
  pose proof (disputeDeal_run env i w d Hr Hi Hact Hwho Ho1 Ho2) as Hrun.
  cbv zeta in Hrun. rewrite Hz in Hrun.
  pose proof (reachable_Inv _ Hr) as HI.
  destruct (parties_not_self _ _ _ HI Hi) as [Hcr Hcp].
  assert (Hsnd : msg_sender env <> MOLTBOND_ADDRESS) by (destruct Hwho; congruence).
  pose proof (after_dispute_target (msg_sender env) i d w (Z.lt_le_incl _ _ (proj1 Hst)))
    as Htg.
  pose proof (fun x => after_dispute_balance (msg_sender env) i d w x) as Hbal.
  cbv zeta in Htg, Hbal. rewrite Hz in Htg, Hbal.
  exists (after_dispute (msg_sender env) i d w).
  split; [exact Hrun|].
  split; [unfold logs; simpl dispatch; by rewrite Hrun|].
  split. { rewrite after_dispute_deals by done.
           apply list_lookup_insert_eq. by eapply lookup_lt_Some. }
  split. { rewrite Hbal by done.
           rewrite (decide_False (P := msg_sender env = MOLTBOND_ADDRESS)) by done.
           destruct (decide (msg_sender env = msg_sender env)); [lia|done]. }
  split. { unfold held. rewrite Hbal by done.
           rewrite (decide_True (P := MOLTBOND_ADDRESS = MOLTBOND_ADDRESS)) by done.
           rewrite !decide_False by done. lia. }
  rewrite Htg. simpl. split; [lia|done].
Qed.

Definition the_deal : Deal.t :=
  Deal.mk 0 alice bob (USDC 50) "Task" Active t0 (t0 + DEFAULT_EXPIRY) false false.

Lemma disputeDeal_spec_witness :
  let env := mkEnv alice (t0 + 100) in
  exists w',
    run (disputeDeal env 0) with_deal
    = Ok tt w' [ SStore (slot_status 0);
                 CallTransfer alice (USDC 50);
                 SStore (slot_staked bob);
                 CallTransfer alice (USDC 10);
                 Emit (Slashed bob (USDC 10) 0);
                 SStore (slot_dealsFailed bob);
                 Emit (DealDisputed 0 alice) ] /\
    balance_of alice (usdc w') = balance_of alice (usdc with_deal) + USDC 60 /\
    Agent.staked (agent_at bob (bond w')) = USDC 90 /\
    Agent.dealsFailed (agent_at bob (bond w')) = 1.
Proof.
  intros env.
  destruct (disputeDeal_spec env 0 with_deal the_deal) as (_ & Hparty & _).
  - exact with_deal_reachable.
  - vm_compute; reflexivity.
  - reflexivity.
  - destruct Hparty as (w' & Hrun & _ & _ & _ & _ & Hbal & Hst & Hdf & _).
    + left; reflexivity.
    + vm_compute; discriminate.
    + vm_compute; discriminate.
    + exists w'. split; [exact Hrun|].
      split; [refine (eq_trans (Hbal alice) _); vm_compute; reflexivity|].
      split; [refine (eq_trans Hst _); vm_compute; reflexivity|].
      refine (eq_trans Hdf _); vm_compute; reflexivity.
Defined.

(** A stake whose tenfold leaves [uint256]: Bob holds [2 ^ 254] base units
    of the token and stakes them all, then Alice opens a deal with him. *)
Definition whale_funded : Token :=
  mkToken (<[alice := USDC 10000]> {[bob := 2 ^ 254]})
          (<[alice := MAX_UINT256]> {[bob := MAX_UINT256]}).

Definition whale_calls : list (Env * Call) :=
  [ by_ alice t0 (call_registerAgent "Alice");
    by_ bob t0 (call_registerAgent "Bob");
    by_ bob t0 (call_stake (2 ^ 254));
    by_ alice t0 (call_createDeal bob (USDC 50) "Task" 0) ].

Definition whale_world : World := transact_all whale_calls (deployed whale_funded).

Lemma whale_world_reachable : reachable whale_world.
Proof.
  apply (reachable_transact_all whale_calls); [by constructor|].
  repeat constructor; done.
Qed.

(** The claim does not hold of every Active deal: in a world reached by four
    calls, in which Bob has staked [2 ^ 254] base units, Alice's dispute of
    their Active deal reverts in the checked multiplication of the slash.
    No status changes, no escrow returns, nothing is slashed and dealsFailed
    stays as it is. *)
Lemma disputeDeal_large_stake_counterexample :
  let env := mkEnv alice (t0 + 100) in
  reachable whale_world /\
  deals (bond whale_world) !! 0%nat = Some the_deal /\
  Agent.staked (agent_at bob (bond whale_world)) = 2 ^ 254 /\
  run (disputeDeal env 0) whale_world
  = Revert (Panic 0x11) [SStore (slot_status 0); CallTransfer alice (USDC 50)] /\
  transact env (call_disputeDeal 0) whale_world = whale_world /\
  ~ exists w' t, run (disputeDeal env 0) whale_world = Ok tt w' t.
Proof.
  intros env.
  assert (Hrun : run (disputeDeal env 0) whale_world
                 = Revert (Panic 0x11)
                     [SStore (slot_status 0); CallTransfer alice (USDC 50)])
    by (vm_compute; reflexivity).
  split; [exact whale_world_reachable|].
  split; [vm_compute; reflexivity|].
  split; [vm_compute; reflexivity|].
  split; [exact Hrun|].
  split; [vm_compute; reflexivity|].
  intros (w' & t & H). rewrite Hrun in H. discriminate.
Qed.

(** Bob keeps 5 base units of stake: he stakes 1 USDC and, a day after
    requesting it, unstakes all but 5 units. *)
Definition dust_calls : list (Env * Call) :=
  [ by_ alice t0 (call_registerAgent "Alice");
    by_ bob t0 (call_registerAgent "Bob");
    by_ bob t0 (call_stake (USDC 1));
    by_ bob t0 call_requestUnstake;
    by_ bob (t0 + UNSTAKE_COOLDOWN) (call_unstake (USDC 1 - 5));
    by_ alice (t0 + UNSTAKE_COOLDOWN) (call_createDeal bob (USDC 50) "Task" 0) ].

Definition dust_world : World := transact_all dust_calls (deployed funded).

Lemma dust_world_reachable : reachable dust_world.
Proof. apply (scenario_calls_valid dust_calls). repeat constructor; done. Defined.

Lemma slash_truncation_witness :
  let env := mkEnv alice (t0 + UNSTAKE_COOLDOWN + 100) in
  Agent.staked (agent_at bob (bond dust_world)) = 5 /\
  exists w',
    run (disputeDeal env 0) dust_world
    = Ok tt w' [ SStore (slot_status 0);
                 CallTransfer alice (USDC 50);
                 SStore (slot_dealsFailed bob);
                 Emit (DealDisputed 0 alice) ] /\
    logs env (call_disputeDeal 0) dust_world = [DealDisputed 0 alice] /\
    balance_of alice (usdc w') = balance_of alice (usdc dust_world) + USDC 50 /\
    Agent.staked (agent_at bob (bond w')) = 5 /\
    Agent.dealsFailed (agent_at bob (bond w')) = 1.
Proof.
  intros env. split; [vm_compute; reflexivity|].
  destruct (slash_truncation env 0 dust_world
              (Deal.mk 0 alice bob (USDC 50) "Task" Active (t0 + UNSTAKE_COOLDOWN)
                       (t0 + UNSTAKE_COOLDOWN + DEFAULT_EXPIRY) false false))
    as (_ & w' & Hrun & Hlog & _ & Hbal & _ & Hst & Hdf).
  - exact dust_world_reachable.
  - vm_compute; reflexivity.
  - reflexivity.
  - left; reflexivity.
  - vm_compute; split; reflexivity.
  - vm_compute; discriminate.
  - exists w'. split; [exact Hrun|]. split; [exact Hlog|].
    split; [refine (eq_trans Hbal _); vm_compute; reflexivity|].
    split; [refine (eq_trans Hst _); vm_compute; reflexivity|].
    refine (eq_trans Hdf _); vm_compute; reflexivity.
Defined.

Lemma cancelExpiredDeal_spec_witness :
  let early := mkEnv charlie (t0 + DEFAULT_EXPIRY - 1) in
  let late := mkEnv charlie (t0 + DEFAULT_EXPIRY + 1) in
  transact early (call_cancelExpiredDeal 0) with_deal = with_deal /\
  exists w',
    transact late (call_cancelExpiredDeal 0) with_deal = w' /\
    deals (bond w') = [Deal.set_status Expired the_deal] /\
    balance_of alice (usdc w') = balance_of alice (usdc with_deal) + USDC 50 /\
    agents (bond w') = agents (bond with_deal).
Proof.
  intros early late.
  assert (Hr := with_deal_reachable).
  assert (Hi : deals (bond with_deal) !! Z.to_nat 0 = Some the_deal)
    by (vm_compute; reflexivity).
  assert (Hact : Deal.status the_deal = Active) by reflexivity.
  destruct (cancelExpiredDeal_spec early 0 with_deal the_deal Hr Hi Hact) as [He _].
  destruct (cancelExpiredDeal_spec late 0 with_deal the_deal Hr Hi Hact) as [_ Hl].
  destruct He as [He _]; [vm_compute; reflexivity|].
  destruct Hl as (w' & _ & Ht & Hd & Hb & _ & Ha & _); [vm_compute; discriminate|].
  split; [exact He|].
  exists w'. split; [exact Ht|]. split; [exact Hd|]. split; [exact Hb|exact Ha].
Defined.

(* ================================================================= *)
(** ** Reputation *)

(** [getReputation] reads one agent record and nothing else. *)
Definition one_agent (who : address) (a : Agent.t) : World :=
  mkWorld (mkStorage {[who := a]} [who] [] ∅ false) (mkToken ∅ ∅).

Lemma _min_spec a b : _min a b = Z.min a b.
Proof. unfold _min. destruct (Z.ltb_spec a b); lia. Qed.





(* ================================================================= *)
(** ** Failing preconditions *)

(** The named failure conditions of the specification. *)
Inductive Condition :=
| NotRegistered | AlreadyRegistered | InvalidName | BelowMinimumStake
| InsufficientStake | NothingStaked | NoUnstakeRequested | CooldownNotElapsed
| DealNotFound | DealNotActive | NotAParty | SelfDeal | InvalidAmount
| DealNotExpired.

(** The condition each reason string of the contract reports. *)
Definition condition_of (reason : string) : option Condition :=
  if String.eqb reason "Already registered" then Some AlreadyRegistered
  else if String.eqb reason "Invalid name length" then Some InvalidName
  else if String.eqb reason "Not registered" then Some NotRegistered
  else if String.eqb reason "Creator not registered" then Some NotRegistered
  else if String.eqb reason "Counterparty not registered" then Some NotRegistered
  else if String.eqb reason "Below minimum stake" then Some BelowMinimumStake
  else if String.eqb reason "Nothing staked" then Some NothingStaked
  else if String.eqb reason "Insufficient stake" then Some InsufficientStake
  else if String.eqb reason "No unstake requested" then Some NoUnstakeRequested
  else if String.eqb reason "Cooldown not elapsed" then Some CooldownNotElapsed
  else if String.eqb reason "Cannot deal with self" then Some SelfDeal
  else if String.eqb reason "Amount must be positive" then Some InvalidAmount
  else if String.eqb reason "Deal not found" then Some DealNotFound
  else if String.eqb reason "Deal not active" then Some DealNotActive
  else if String.eqb reason "Not a party to this deal" then Some NotAParty
  else if String.eqb reason "Deal not expired" then Some DealNotExpired
  else None.

(** The preconditions of each operation as the specification lists them
    (section 4), checked in the order it lists them: the first one that
    fails, if any. *)
Definition spec_deal_failure (caller : address) (must_be_party : bool)
    (i : Z) (s : Storage) (k : Deal.t -> option Condition) : option Condition :=
  match deals s !! Z.to_nat i with
  | None => Some DealNotFound
  | Some d =>
      if negb (bool_decide (Deal.status d = Active)) then Some DealNotActive
      else if must_be_party
              && negb (N.eqb caller (Deal.creator d))
              && negb (N.eqb caller (Deal.counterparty d))
      then Some NotAParty
      else k d
  end.

Definition spec_failure (env : Env) (c : Call) (s : Storage) : option Condition :=
  let caller := msg_sender env in
  let now := block_timestamp env in
  let me := agent_at caller s in
  match c with
  | call_registerAgent n =>
      if Agent.exists_ me then Some AlreadyRegistered
      else if Nat.eqb (String.length n) 0 || Nat.ltb 32 (String.length n)
      then Some InvalidName
      else None
  | call_stake v =>
      if negb (Agent.exists_ me) then Some NotRegistered
      else if v <? MIN_STAKE then Some BelowMinimumStake
      else None
  | call_requestUnstake =>
      if negb (Agent.exists_ me) then Some NotRegistered
      else if Agent.staked me =? 0 then Some NothingStaked
      else None
  | call_unstake v =>
      if negb (Agent.exists_ me) then Some NotRegistered
      else if Agent.staked me <? v then Some InsufficientStake
      else if requested_at caller s =? 0 then Some NoUnstakeRequested
      else if now <? requested_at caller s + UNSTAKE_COOLDOWN
      then Some CooldownNotElapsed
      else None
  | call_createDeal cp v _ _ =>
      if negb (Agent.exists_ me) || negb (Agent.exists_ (agent_at cp s))
      then Some NotRegistered
      else if N.eqb caller cp then Some SelfDeal
      else if v <=? 0 then Some InvalidAmount
      else None
  | call_confirmDeal i | call_disputeDeal i =>
      spec_deal_failure caller true i s (fun _ => None)
  | call_cancelExpiredDeal i =>
      spec_deal_failure caller false i s
        (fun d => if now <? Deal.expiresAt d then Some DealNotExpired else None)
  end.

(** What a reverted call must look like for a named condition [x]: a failed
    [require] whose reason is the one of [x], before any effect other than
    the reentrancy guard's own. *)
Definition reports {A} (r : Result A) (x : Condition) : Prop :=
  match r with
  | Revert (RequireFailed reason) t =>
      condition_of reason = Some x /\ Forall (fun a => a = SStore slot_guard) t
  | _ => False
  end.

Ltac bool_to_prop :=
  repeat match goal with
  | H : (_ <? _) = true |- _ => apply Z.ltb_lt in H
  | H : (_ <? _) = false |- _ => apply Z.ltb_ge in H
  | H : (_ <=? _) = true |- _ => apply Z.leb_le in H
  | H : (_ <=? _) = false |- _ => apply Z.leb_gt in H
  | H : (_ =? _) = true |- _ => apply Z.eqb_eq in H
  | H : (_ =? _) = false |- _ => apply Z.eqb_neq in H
  | H : (_ =? _)%N = true |- _ => apply N.eqb_eq in H
  | H : (_ =? _)%N = false |- _ => apply N.eqb_neq in H
  | H : Nat.eqb _ _ = true |- _ => apply Nat.eqb_eq in H
  | H : Nat.eqb _ _ = false |- _ => apply Nat.eqb_neq in H
  | H : Nat.ltb _ _ = true |- _ => apply Nat.ltb_lt in H
  | H : Nat.ltb _ _ = false |- _ => apply Nat.ltb_ge in H
  | H : negb _ = true |- _ => apply negb_true_iff in H
  | H : negb _ = false |- _ => apply negb_false_iff in H
  | H : _ && _ = true |- _ => apply andb_true_iff in H; destruct H
  | H : _ || _ = false |- _ => apply orb_false_iff in H; destruct H
  | H : bool_decide _ = true |- _ => apply bool_decide_eq_true in H
  | H : bool_decide _ = false |- _ => apply bool_decide_eq_false in H
  end.

Ltac contra :=
  solve [ simplify_eq; bool_to_prop;
          first [ congruence | lia
                | match goal with
                  | H : _ && _ = false |- _ =>
                      apply andb_false_iff in H; destruct H; bool_to_prop;
                      first [congruence | lia]
                  | H : _ || _ = true |- _ =>
                      apply orb_true_iff in H; destruct H; bool_to_prop;
                      first [congruence | lia]
                  end ] ].

Lemma failure_reported env c w x :
  Inv w -> valid_env env -> valid_args c ->
  spec_failure env c (bond w) = Some x ->
  reports (run (dispatch env c) w) x.
Proof.
  intros HI [Hsnd Hnow] Hargs Hspec.
  pose proof (inv_guard _ HI) as Hg.
  pose proof MAX_UINT256_eq as Hmax. pose proof MAX_TIMESTAMP_eq as Hmt.
  assert (Hrq : 0 <= requested_at (msg_sender env) (bond w) <= MAX_TIMESTAMP).
  { unfold requested_at.
    destruct (unstakeRequestedAt (bond w) !! msg_sender env) as [r|] eqn:Hr; simpl.
    - exact (inv_requested _ HI _ _ Hr).
    - lia. }
  unfold reports.
  destruct c; simpl in Hspec, Hargs; unfold spec_deal_failure in Hspec;
    simpl dispatch;
    unfold registerAgent, stake, requestUnstake, unstake, createDeal,
           confirmDeal, disputeDeal, cancelExpiredDeal;
    munfold; gsimpl; rewrite ?Hg; gsimpl;
    unfold is_uint256, agent_at, requested_at, MIN_STAKE, UNSTAKE_COOLDOWN in *.
  all: repeat match type of Hspec with
       | (if ?c then _ else _) = _ => destruct c eqn:?
       | match ?c with Some _ => _ | None => _ end = _ => destruct c eqn:?
       end; simplify_eq.
  all: try match goal with
       | H : _ !! _ = Some _ |- _ => pose proof (lookup_lt_Some _ _ _ H)
       | H : _ !! _ = None |- _ => pose proof (proj1 (lookup_ge_None _ _) H)
       end.
  all: repeat (case_if; gsimpl; try contra).
  all: split; [reflexivity | repeat constructor].
Qed.

(** C5. For every operation, in every reachable world: when one of the
    operation's preconditions fails, the call reverts with the reason string
    of a named condition, the one of the first precondition that fails in
    the order of the specification, before any effect other than the
    reentrancy guard's own; the transaction leaves the whole world (agents,
    deals, token balances, unstake requests) unchanged and logs no event. *)
Theorem precondition_failures env c w x :
  reachable w -> valid_env env -> valid_args c ->
  spec_failure env c (bond w) = Some x ->
  (exists reason t,
     run (dispatch env c) w = Revert (RequireFailed reason) t /\
     condition_of reason = Some x /\
     Forall (fun a => a = SStore slot_guard) t) /\
  transact env c w = w /\
  logs env c w = [].
Proof.
  intros Hr He Ha Hspec.
  pose proof (failure_reported env c w x (reachable_Inv _ Hr) He Ha Hspec) as Hrep.
  unfold transact, logs, reports in *.
  destruct (run (dispatch env c) w) as [u w' t|[reason|?| | |] t]; try done.
  destruct Hrep as [Hc Ht]. split; [|done]. eauto.
Qed.

Lemma precondition_failures_witness :
  transact (mkEnv charlie t0) (call_confirmDeal 0) with_deal = with_deal /\
  (exists t, run (confirmDeal (mkEnv charlie t0) 0) with_deal
             = Revert (RequireFailed "Not a party to this deal") t) /\
  condition_of "Not a party to this deal" = Some NotAParty.
Proof.
  destruct (precondition_failures (mkEnv charlie t0) (call_confirmDeal 0)
              with_deal NotAParty) as ((reason & t & Hrun & Hc & _) & Ht & _).
  - exact with_deal_reachable.
  - done.
  - done.
  - vm_compute; reflexivity.
  - split; [exact Ht|]. split; [|reflexivity].
    exists t. simpl dispatch in Hrun. rewrite Hrun. f_equal. f_equal.
    revert Hrun. vm_compute. by intros [= <- _].
Defined.

(* ================================================================= *)
(** ** The order of effects inside a call *)

Definition is_transfer (a : Action) : bool :=
  match a with
  | CallTransfer _ _ | CallTransferFrom _ _ => true
  | _ => false
  end.

(** Writes to a deal's status: the assignment to [status], and the
    [deals.push] of createDeal, which stores the new deal with its status. *)
Definition is_status_write (a : Action) : bool :=
  match a with
  | SStore (slot_status _) | SStore slot_deals => true
  | _ => false
  end.

(** Writes to the bookkeeping: deal status, agent counters, staked balances,
    the record of a new deal and the record of a new agent. *)
Definition is_bookkeeping (a : Action) : bool :=
  match a with
  | SStore (slot_status _) | SStore slot_deals | SStore (slot_agent _)
  | SStore (slot_staked _)
  | SStore (slot_dealsCompleted _) | SStore (slot_dealsFailed _)
  | SStore (slot_totalVolume _) => true
  | _ => false
  end.

(** No effect selected by [p] happens once a transfer has been issued. *)
Fixpoint none_after_transfer (p : Action -> bool) (t : list Action) : bool :=
  match t with
  | [] => true
  | a :: t' =>
      if is_transfer a then forallb (fun b => negb (p b)) t'
      else none_after_transfer p t'
  end.

Definition bookkeeping_before_transfers (t : list Action) : bool :=
  none_after_transfer is_bookkeeping t.

Definition moves_funds (t : list Action) : bool := existsb is_transfer t.

(** The storage writes and token calls of an effect list, in program order:
    the events are left out. *)
Definition writes_and_transfers (t : list Action) : list Action :=
  List.filter (fun a => match a with Emit _ => false | _ => true end) t.

(** The writes and transfers of each successful call, as the code orders
    them. *)
Definition stake_order (s : address) (v : Z) : list Action :=
  [ SStore slot_guard;
    CallTransferFrom s v;
    SStore (slot_staked s); SStore (slot_unstakeRequestedAt s);
    SStore slot_guard ].

(** [rest] is the stake that remains. *)
Definition unstake_order (s : address) (v rest : Z) : list Action :=
  [ SStore slot_guard;
    SStore (slot_staked s);
    CallTransfer s v ]
  ++ (if rest =? 0 then [SStore (slot_unstakeRequestedAt s)] else [])
  ++ [ SStore slot_guard ].

Definition createDeal_order (s : address) (v : Z) : list Action :=
  [ SStore slot_guard;
    CallTransferFrom s v;
    SStore slot_deals;
    SStore slot_guard ].

(** [_completeDeal]. *)
Definition completion_order (i : Z) (d : Deal.t) : list Action :=
  [ SStore slot_guard;
    SStore (slot_status (Z.to_nat i));
    CallTransfer (Deal.counterparty d) (Deal.amount d);
    SStore (slot_dealsCompleted (Deal.creator d));
    SStore (slot_totalVolume (Deal.creator d));
    SStore (slot_dealsCompleted (Deal.counterparty d));
    SStore (slot_totalVolume (Deal.counterparty d));
    SStore slot_guard ].

(** The caller's flag and, when the other party has confirmed before, the
    completion. *)
Definition confirmDeal_order (s : address) (i : Z) (d : Deal.t) : list Action :=
  if (s =? Deal.creator d)%N
  then SStore (slot_creatorConfirmed (Z.to_nat i))
       :: (if Deal.counterpartyConfirmed d then completion_order i d else [])
  else SStore (slot_counterpartyConfirmed (Z.to_nat i))
       :: (if Deal.creatorConfirmed d then completion_order i d else []).

(** [slash] is the amount taken from the stake of the other party. *)
Definition disputeDeal_order (s : address) (i : Z) (d : Deal.t) (slash : Z)
  : list Action :=
  [ SStore (slot_status (Z.to_nat i));
    CallTransfer (Deal.creator d) (Deal.amount d) ]
  ++ (if 0 <? slash
      then [ SStore (slot_staked (slash_target s d)); CallTransfer s slash ]
      else [])
  ++ [ SStore (slot_dealsFailed (slash_target s d)) ].

Definition cancelExpiredDeal_order (i : Z) (d : Deal.t) : list Action :=
  [ SStore (slot_status (Z.to_nat i));
    CallTransfer (Deal.creator d) (Deal.amount d) ].

(** The writes and transfers of a successful call [c] sent by [s] to the
    world [w].  A call on a deal that is not there does not succeed. *)
Definition order_of (s : address) (c : Call) (w : World) : list Action :=
  let on_deal i (f : Deal.t -> list Action) :=
    match deals (bond w) !! Z.to_nat i with Some d => f d | None => [] end in
  match c with
  | call_registerAgent _ => [SStore (slot_agent s); SStore slot_agentList]
  | call_requestUnstake => [SStore (slot_unstakeRequestedAt s)]
  | call_stake v => stake_order s v
  | call_unstake v => unstake_order s v (Agent.staked (agent_at s (bond w)) - v)
  | call_createDeal _ v _ _ => createDeal_order s v
  | call_confirmDeal i => on_deal i (confirmDeal_order s i)
  | call_disputeDeal i =>
      on_deal i (fun d =>
        disputeDeal_order s i d
          (slash_amount (Agent.staked (agent_at (slash_target s d) (bond w)))))
  | call_cancelExpiredDeal i => on_deal i (cancelExpiredDeal_order i)
  end.

(** The order the claim asks for does not hold: the call that completes a
    deal writes the four counters after the transfer to the counterparty. *)
Lemma bookkeeping_before_transfers_counterexample :
  exists w' t,
    run (confirmDeal (mkEnv bob (t0 + 120)) 0) half_confirmed = Ok tt w' t /\
    t = [ SStore (slot_counterpartyConfirmed 0); SStore slot_guard;
          SStore (slot_status 0);
          CallTransfer bob (USDC 50);
          SStore (slot_dealsCompleted alice); SStore (slot_totalVolume alice);
          SStore (slot_dealsCompleted bob); SStore (slot_totalVolume bob);
          Emit (DealCompleted 0 (t0 + 120)); SStore slot_guard ] /\
    bookkeeping_before_transfers t = false.
Proof. do 2 eexists. split; [vm_compute; reflexivity|]. split; reflexivity. Qed.

(** C7, as the code orders its effects.  The storage writes and token
    transfers of every successful call are, in program order, those of
    [order_of]:
    - stake: guard, pull from the caller, staked balance, unstake request,
      guard;
    - unstake: guard, staked balance, payout to the caller, then the reset
      of the unstake request when no stake remains, guard;
    - createDeal: guard, pull from the caller, the push of the new deal
      with its status, guard;
    - confirmDeal: the caller's flag and, when the other party had
      confirmed, guard, status, payout to the counterparty, dealsCompleted
      and totalVolume of the creator, then of the counterparty, guard;
    - disputeDeal: status, escrow back to the creator, then, when the slash
      is positive, the slashed staked balance and the slash to the caller,
      then dealsFailed; it does not write the guard;
    - cancelExpiredDeal: status, escrow back to the creator; it does not
      write the guard.
    So a deal's status is written after a transfer in createDeal only, and
    some bookkeeping (status, counters, staked balances) is written after a
    transfer exactly in stake, createDeal, disputeDeal and a confirmDeal
    that completes the deal. *)
Theorem effects_order env c w u w' t :
  run (dispatch env c) w = Ok u w' t ->
  writes_and_transfers t = order_of (msg_sender env) c w /\
  (none_after_transfer is_status_write t = false <->
   exists cp v desc e, c = call_createDeal cp v desc e) /\
  (bookkeeping_before_transfers t = false <->
   match c with
   | call_stake _ | call_createDeal _ _ _ _ | call_disputeDeal _ => True
   | call_confirmDeal _ => moves_funds t = true
   | _ => False
   end).
Proof.
  intros H. unfold run in H.
  destruct c; simpl in H;
    unfold registerAgent, stake, requestUnstake, unstake, createDeal,
           confirmDeal, disputeDeal, cancelExpiredDeal, _completeDeal in H;
    minv H.
  all: split;
       [|simpl; split;
         (split; [intros ?|intros Hc; try destruct Hc as (? & ? & ? & ? & ?)]);
         solve [done | by do 4 eexists]].
  all: simpl; try reflexivity.
  all: wsimpl.
  all: unfold order_of, unstake_order, confirmDeal_order, disputeDeal_order,
         cancelExpiredDeal_order, completion_order, slash_amount, slash_target,
         agent_at.
  all: repeat match goal with H : _ <= _ |- _ => clear H end.
  all: rewrite ?list_lookup_alter_eq in *.
  all: repeat match goal with
       | E : deals (bond _) !! _ = Some _ |- _ => rewrite !E in *; clear E
       end.
  all: simpl in *; simplify_eq.
  all: repeat match goal with d : Deal.t |- _ => destruct d end; simpl in *.
  all: rewrite ?andb_true_r in *.
  all: repeat match goal with
       | |- context [if ?c then _ else _] => destruct c eqn:?
       end; simpl in *; try reflexivity; try congruence.
  all: rewrite lookup_insert_eq in *; simpl in *.
  all: destruct (default Agent.zero _); simpl in *; congruence.
Qed.

Lemma effects_order_witness :
  let env := mkEnv alice (t0 + 100) in
  exists w' t,
    run (dispatch env (call_disputeDeal 0)) with_deal = Ok tt w' t /\
    writes_and_transfers t
    = [ SStore (slot_status 0); CallTransfer alice (USDC 50);
        SStore (slot_staked bob); CallTransfer alice (USDC 10);
        SStore (slot_dealsFailed bob) ] /\
    bookkeeping_before_transfers t = false.
Proof.
  intros env.
  assert (H : run (dispatch env (call_disputeDeal 0)) with_deal
              = Ok tt (transact env (call_disputeDeal 0) with_deal)
                   [ SStore (slot_status 0); CallTransfer alice (USDC 50);
                     SStore (slot_staked bob); CallTransfer alice (USDC 10);
                     Emit (Slashed bob (USDC 10) 0);
                     SStore (slot_dealsFailed bob);
                     Emit (DealDisputed 0 alice) ])
    by (vm_compute; reflexivity).
  do 2 eexists. split; [exact H|].
  destruct (effects_order env (call_disputeDeal 0) with_deal tt _ _ H)
    as (Ho & _ & Hb).
  split; [refine (eq_trans Ho _); vm_compute; reflexivity|].
  apply (proj2 Hb). exact I.
Defined.

(* ================================================================= *)
(** ** The expectations of the test suite, replayed on the model *)

(** "should give stake-based rep for new agents": 10 USDC staked score 100. *)
Example reputation_from_stake :
  let w := transact_all [ by_ alice t0 (call_registerAgent "Alice");
                          by_ alice t0 (call_stake (USDC 10)) ] (deployed funded) in
  run (getReputation alice) w = Ok 100 w [].
Proof. vm_compute. reflexivity. Qed.

(** "should give combined rep after deals": 500 for completion, 0 for a
    volume of 50 USDC, 100 for a stake of 10 USDC. *)
Example reputation_after_deal :
  let w := transact_all [ by_ alice t0 (call_registerAgent "Alice");
                          by_ bob t0 (call_registerAgent "Bob");
                          by_ alice t0 (call_stake (USDC 10));
                          by_ bob t0 (call_stake (USDC 10));
                          by_ alice t0 (call_createDeal bob (USDC 50) "Task" 0);
                          by_ alice t0 (call_confirmDeal 0);
                          by_ bob t0 (call_confirmDeal 0) ] (deployed funded) in
  run (getReputation alice) w = Ok 600 w [].
Proof. vm_compute. reflexivity. Qed.

(** "should return 0 for unregistered". *)
Example reputation_unregistered :
  run (getReputation charlie) with_deal = Ok 0 with_deal [].
Proof. vm_compute. reflexivity. Qed.

(** "should enforce cooldown period" and "should reject unstake without
    request". *)
Example unstake_needs_cooldown :
  run (unstake (mkEnv alice (t0 + 10)) (USDC 50))
      (transact (mkEnv alice t0) call_requestUnstake registered_and_staked)
  = Revert (RequireFailed "Cooldown not elapsed") [SStore slot_guard] /\
  run (unstake (mkEnv alice (t0 + 10)) (USDC 50)) registered_and_staked
  = Revert (RequireFailed "No unstake requested") [SStore slot_guard].
Proof. split; vm_compute; reflexivity. Qed.

(** "should reject duplicate registration", "should reject empty name",
    "should reject self-deals", "should reject early cancellation". *)
Example rejections :
  run (registerAgent (mkEnv alice t0) "Alice2") with_deal
  = Revert (RequireFailed "Already registered") [] /\
  run (registerAgent (mkEnv charlie t0) "") with_deal
  = Revert (RequireFailed "Invalid name length") [] /\
  run (createDeal (mkEnv alice t0) alice (USDC 50) "Self" 0) with_deal
  = Revert (RequireFailed "Cannot deal with self") [SStore slot_guard] /\
  run (cancelExpiredDeal (mkEnv charlie t0) 0) with_deal
  = Revert (RequireFailed "Deal not expired") [].
Proof. repeat split; vm_compute; reflexivity. Qed.

(* ================================================================= *)
(** ** The books: registry, deal records and counters *)

(** Next to conservation the reachable worlds keep the contract's books in
    order: the agent list enumerates the registered agents, the deals are
    numbered by their index, and every agent's counters agree with the
    deals it took part in. *)

Ltac unfold_calls H :=
  unfold registerAgent, stake, requestUnstake, unstake, createDeal,
         confirmDeal, disputeDeal, cancelExpiredDeal, _completeDeal in H.

(** [a == deal.creator || a == deal.counterparty] *)
Definition party (a : address) (d : Deal.t) : bool :=
  N.eqb a (Deal.creator d) || N.eqb a (Deal.counterparty d).

(** The sum of [f] over all deals. *)
Definition sum_deals (f : Deal.t -> Z) (ds : list Deal.t) : Z :=
  foldr (fun d acc => f d + acc) 0 ds.

(** The deal has status [st] and [a] is one of its parties. *)
Definition has_status (st : DealStatus) (a : address) (d : Deal.t) : bool :=
  bool_decide (Deal.status d = st) && party a d.

(** What a deal counts for [a]: as a completed deal, as volume, as a
    disputed deal. *)
Definition completed_by (a : address) (d : Deal.t) : Z :=
  if has_status Completed a d then 1 else 0.
Definition volume_by (a : address) (d : Deal.t) : Z :=
  if has_status Completed a d then Deal.amount d else 0.
Definition disputed_with (a : address) (d : Deal.t) : Z :=
  if has_status Disputed a d then 1 else 0.

(** The record of a deal as [createDeal] writes it and the later calls
    keep it. *)
Definition deal_wf (d : Deal.t) : Prop :=
  0 < Deal.amount d <= MAX_UINT256 /\
  0 <= Deal.createdAt d < Deal.expiresAt d /\
  Deal.expiresAt d <= MAX_UINT256 /\
  Deal.status d <> Cancelled /\
  (Deal.status d = Completed <->
   Deal.creatorConfirmed d = true /\ Deal.counterpartyConfirmed d = true).

(** [deals[i].id == i] *)
Definition ids_dense (ds : list Deal.t) : Prop :=
  Deal.id <$> ds = Z.of_nat <$> seq 0 (length ds).

(** The counters of [a] against the deals, and the range of its record. *)
Definition agent_ok (s : Storage) (a : address) : Prop :=
  let x := agent_at a s in
  Agent.dealsCompleted x = sum_deals (completed_by a) (deals s) /\
  Agent.totalVolume x = sum_deals (volume_by a) (deals s) /\
  0 <= Agent.dealsFailed x <= sum_deals (disputed_with a) (deals s) /\
  Agent.staked x <= MAX_UINT256 /\
  Agent.totalVolume x <= MAX_UINT256.

Record Books (w : World) : Prop := mkBooks {
  books_nodup : NoDup (agentList (bond w));
  books_listed :
    dom (agents (bond w)) =@{gset address} list_to_set (agentList (bond w));
  books_ids : ids_dense (deals (bond w));
  books_deals : Forall deal_wf (deals (bond w));
  books_agents : forall a, agent_ok (bond w) a
}.

Lemma sum_deals_app f ds d : sum_deals f (ds ++ [d]) = sum_deals f ds + f d.
Proof. induction ds as [|d' ds IH]; simpl; lia. Qed.

Lemma sum_deals_alter f g ds i d :
  ds !! i = Some d ->
  sum_deals f (alter g i ds) = sum_deals f ds - f d + f (g d).
Proof.
  revert i. induction ds as [|d' ds IH]; intros [|i] Hi; simplify_eq/=; [lia|].
  rewrite (IH i) by done. lia.
Qed.

Lemma ids_dense_app ds d :
  ids_dense ds -> Deal.id d = Z.of_nat (length ds) -> ids_dense (ds ++ [d]).
Proof.
  unfold ids_dense. intros H Hd.
  rewrite fmap_app, length_app, seq_app, fmap_app, H. simpl. by rewrite Hd.
Qed.

Lemma ids_dense_alter ds i f :
  (forall d, Deal.id (f d) = Deal.id d) -> ids_dense ds -> ids_dense (alter f i ds).
Proof.
  unfold ids_dense. intros Hf H. rewrite length_alter, <- H.
  clear H. revert i. induction ds as [|d ds IH]; intros [|i]; simpl; try done.
  - by rewrite Hf.
  - f_equal. apply IH.
Qed.

Lemma ids_dense_lookup ds i d :
  ids_dense ds -> ds !! i = Some d -> Deal.id d = Z.of_nat i.
Proof.
  unfold ids_dense. intros H Hi.
  assert (Hl : (Deal.id <$> ds) !! i = Some (Deal.id d))
    by (by rewrite list_lookup_fmap, Hi).
  rewrite H, list_lookup_fmap in Hl.
  apply lookup_lt_Some in Hi.
  rewrite lookup_seq_lt in Hl by done. simpl in Hl. congruence.
Qed.

Lemma registered_dom a s : registered a s -> a ∈ dom (agents s).
Proof.
  unfold registered, agent_at. intros H. apply elem_of_dom.
  destruct (agents s !! a); [done | discriminate].
Qed.

Lemma Books_deployed k : Books (deployed k).
Proof.
  split; simpl.
  - constructor.
  - by rewrite dom_empty_L.
  - done.
  - constructor.
  - intros a. unfold agent_ok, agent_at. simpl. rewrite lookup_empty. simpl.
    pose proof MAX_UINT256_eq. lia.
Qed.

Lemma registerAgent_Books env n w u w' t :
  run (registerAgent env n) w = Ok u w' t ->
  valid_env env -> Inv w -> Books w -> Books w'.
Proof.
  unfold run, registerAgent. intros H [Hs Ht] HI [Hnd Hl Hid Hd Ha].
  minv H. apply negb_true_iff in E.
  assert (Hnone : agents (bond w) !! msg_sender env = None).
  { destruct (agents (bond w) !! msg_sender env) as [ag|] eqn:Hag; [|done].
    pose proof (inv_entries _ HI _ _ Hag) as Hex. wsimpl. rewrite Hag in E.
    simpl in *. congruence. }
  split; wsimpl; auto.
  - apply NoDup_app. split; [done|]. split; [|apply NoDup_singleton].
    intros y Hy ->%list_elem_of_singleton.
    apply not_elem_of_dom in Hnone. apply Hnone. rewrite Hl.
    by apply elem_of_list_to_set.
  - rewrite dom_insert_L, list_to_set_snoc_L, Hl. apply (comm_L union).
  - intros a. specialize (Ha a). unfold agent_ok in *. wsimpl.
    rewrite lookup_insert. case_decide; subst; wsimpl; [|done].
    rewrite Hnone in Ha. simpl in Ha. pose proof MAX_UINT256_eq. lia.
Qed.

Lemma dom_update (m : gmap address Agent.t) a x :
  Agent.exists_ (default Agent.zero (m !! a)) = true -> dom (<[a := x]> m) = dom m.
Proof.
  intros H. rewrite dom_insert_L.
  apply subseteq_union_1_L, singleton_subseteq_l, elem_of_dom.
  destruct (m !! a); [done | discriminate].
Qed.

Lemma stake_Books env v w u w' t :
  run (stake env v) w = Ok u w' t -> Inv w -> Books w -> Books w'.
Proof.
  unfold run, stake. intros H HI [Hnd Hl Hid Hd Ha].
  minv H. wsimpl.
  split; wsimpl; auto.
  - by rewrite dom_update.
  - intros a. specialize (Ha a). unfold agent_ok in *. wsimpl.
    rewrite lookup_insert. case_decide; subst; wsimpl; [|done].
    intuition lia.
Qed.

Lemma requestUnstake_Books env w u w' t :
  run (requestUnstake env) w = Ok u w' t -> Books w -> Books w'.
Proof.
  unfold run, requestUnstake. intros H [Hnd Hl Hid Hd Ha].
  minv H. wsimpl.
  split; wsimpl; auto.
Qed.

Lemma unstake_Books env v w u w' t :
  run (unstake env v) w = Ok u w' t -> is_uint256 v -> Inv w -> Books w -> Books w'.
Proof.
  unfold run, unstake. intros H Hv HI [Hnd Hl Hid Hd Ha].
  minv H; wsimpl.
  all: split; wsimpl; auto.
  all: try by rewrite dom_update.
  all: intros a; specialize (Ha a); unfold agent_ok in *; wsimpl.
  all: rewrite lookup_insert; case_decide; subst; wsimpl; [|done].
  all: destruct Hv; intuition lia.
Qed.

Lemma has_status_active st a d :
  Deal.status d = Active -> st <> Active -> has_status st a d = false.
Proof.
  intros Hd Hst. unfold has_status. rewrite bool_decide_false; [done | congruence].
Qed.

Lemma createDeal_Books env cp v ds e w r w' t :
  run (createDeal env cp v ds e) w = Ok r w' t ->
  valid_env env -> is_uint256 v -> is_uint256 e -> Inv w -> Books w -> Books w'.
Proof.
  unfold run, createDeal. intros H [Hs Ht] Hv He HI [Hnd Hl Hid Hd Ha].
  minv H; wsimpl.
  unfold DEFAULT_EXPIRY in *. destruct (Z.ltb_spec 0 e).
  all: split; wsimpl; auto.
  all: try (apply ids_dense_app; [done | reflexivity]).
  all: try (apply Forall_app; split; [done|]; apply Forall_singleton;
            unfold deal_wf; wsimpl; bool_to_prop;
            unfold is_uint256, DEFAULT_EXPIRY in *;
            repeat split; try lia; try discriminate;
            try (intros [? ?]; discriminate)).
  all: intros a; specialize (Ha a); unfold agent_ok in *; wsimpl.
  all: rewrite !sum_deals_app; unfold completed_by, volume_by, disputed_with in *.
  all: rewrite !has_status_active by done; lia.
Qed.

Lemma deal_wf_lookup ds i d : Forall deal_wf ds -> ds !! i = Some d -> deal_wf d.
Proof. intros Hall Hi. eapply Forall_lookup_1; eauto. Qed.

Lemma cancelExpiredDeal_Books env i w u w' t :
  run (cancelExpiredDeal env i) w = Ok u w' t -> Books w -> Books w'.
Proof.
  unfold run, cancelExpiredDeal. intros H [Hnd Hl Hid Hd Ha].
  minv H. wsimpl. bool_to_prop.
  split; wsimpl; auto.
  - by apply ids_dense_alter.
  - apply Forall_alter; [done|]. intros d Hi (? & ? & ? & ? & Hc).
    simplify_eq. unfold deal_wf. wsimpl. repeat split; try done; try lia.
    intros Hf. apply Hc in Hf. congruence.
  - intros a. specialize (Ha a). unfold agent_ok in *. wsimpl.
    rewrite !(sum_deals_alter _ _ _ _ _ E0).
    unfold completed_by, volume_by, disputed_with, has_status in *. wsimpl.
    rewrite !bool_decide_false by congruence. simpl. lia.
Qed.

Lemma has_status_set_status st st' a d :
  has_status st a (Deal.set_status st' d) = bool_decide (st' = st) && party a d.
Proof. reflexivity. Qed.

Lemma has_status_set_creatorConfirmed st a b d :
  has_status st a (Deal.set_creatorConfirmed b d) = has_status st a d.
Proof. reflexivity. Qed.

Lemma has_status_set_counterpartyConfirmed st a b d :
  has_status st a (Deal.set_counterpartyConfirmed b d) = has_status st a d.
Proof. reflexivity. Qed.

Lemma party_set_creatorConfirmed a b d :
  party a (Deal.set_creatorConfirmed b d) = party a d.
Proof. reflexivity. Qed.

Lemma party_set_counterpartyConfirmed a b d :
  party a (Deal.set_counterpartyConfirmed b d) = party a d.
Proof. reflexivity. Qed.

Ltac status_decide :=
  repeat match goal with
  | |- context [bool_decide (@eq DealStatus ?x ?y)] =>
      let b := eval vm_compute in (bool_decide (x = y)) in
      lazymatch b with
      | true => change (bool_decide (x = y)) with true
      | false => change (bool_decide (x = y)) with false
      end
  end.

(** The tallies after the deal found by [E] has left the Active status or
    has got a confirmation. *)
Ltac tally E :=
  rewrite ?list_alter_alter_eq;
  rewrite !(sum_deals_alter _ _ _ _ _ E); unfold compose;
  unfold completed_by, volume_by, disputed_with in *;
  rewrite ?has_status_set_status, ?has_status_set_creatorConfirmed,
          ?has_status_set_counterpartyConfirmed;
  match goal with
  | Hs : Deal.status ?d = Active |- _ =>
      rewrite ?(has_status_active Completed _ d Hs),
              ?(has_status_active Disputed _ d Hs) by discriminate
  end;
  status_decide; cbn [andb];
  rewrite ?party_set_creatorConfirmed, ?party_set_counterpartyConfirmed.

Lemma disputeDeal_Books env i w u w' t :
  run (disputeDeal env i) w = Ok u w' t ->
  valid_env env -> Inv w -> Books w -> Books w'.
Proof.
  unfold run, disputeDeal. intros H [Hs Ht] HI HB.
  apply bind_Ok in H as (ds & w1 & t1 & E1 & H). minv E1.
  apply bind_Ok in H as (? & w1 & t1 & E2 & H). minv E2.
  apply bind_Ok in H as (d & w1 & t1 & E3 & H). minv E3.
  destruct (deal_ok_lookup _ _ _ _ (inv_deals _ HI) E3) as (_ & Hne & Hrc & Hrp).
  pose proof (deal_wf_lookup _ _ _ (books_deals _ HB) E3)
    as (Hamt & Htm & Hex & Hnc & Hc).
  cbv zeta in H.
  set (tgt := if (msg_sender env =? Deal.creator d)%N
              then Deal.counterparty d else Deal.creator d) in *.
  assert (Hreg : registered tgt (bond w)) by (subst tgt; by destruct (_ =? _)%N).
  assert (Hparty : party tgt d = true).
  { subst tgt. unfold party.
    destruct (_ =? _)%N; rewrite N.eqb_refl; by rewrite ?orb_true_r. }
  clearbody tgt.
  minv H.
  all: destruct HB as [Hnd Hl Hid Hd Ha].
  all: pose proof (total_staked_bounds _ tgt (inv_stakes _ HI)) as Hb.
  all: msimpl; bool_to_prop.
  all: split; msimpl; auto.
  all: try by rewrite ?dom_update by (msimpl; done).
  all: try by apply ids_dense_alter.
  all: try (apply Forall_alter; [done|]; intros d' Hi' _;
            simplify_eq; unfold deal_wf; wsimpl; repeat split; try done; try lia;
            intros Hf; apply Hc in Hf; congruence).
  all: intros a; pose proof (Ha a) as Haa; unfold agent_ok in *; msimpl.
  all: tally E3.
  all: rewrite ?lookup_insert; repeat case_decide; subst; msimpl.
  all: rewrite ?Hparty.
  all: try (destruct (party a d)).
  all: lia.
Qed.

Lemma party_creator d : party (Deal.creator d) d = true.
Proof. unfold party. by rewrite N.eqb_refl. Qed.

Lemma party_counterparty d : party (Deal.counterparty d) d = true.
Proof. unfold party. by rewrite N.eqb_refl, orb_true_r. Qed.

Lemma party_other a d :
  a <> Deal.creator d -> a <> Deal.counterparty d -> party a d = false.
Proof.
  intros H1 H2. unfold party.
  by rewrite (proj2 (N.eqb_neq _ _) H1), (proj2 (N.eqb_neq _ _) H2).
Qed.

Lemma confirmDeal_Books env i w u w' t :
  run (confirmDeal env i) w = Ok u w' t -> Inv w -> Books w -> Books w'.
Proof.
  unfold run, confirmDeal, _completeDeal. intros H HI HB.
  apply bind_Ok in H as (ds & w1 & t1 & E1 & H). minv E1.
  apply bind_Ok in H as (? & w1 & t1 & E2 & H). minv E2.
  cbv zeta in H.
  apply bind_Ok in H as (d & w1 & t1 & E3 & H). minv E3.
  destruct (deal_ok_lookup _ _ _ _ (inv_deals _ HI) E3) as (_ & Hne & Hrc & Hrp).
  pose proof (deal_wf_lookup _ _ _ (books_deals _ HB) E3)
    as (Hamt & Htm & Hex & Hnc & Hc).
  pose proof (party_creator d) as Hp1. pose proof (party_counterparty d) as Hp2.
  destruct HB as [Hnd Hl Hid Hd Ha].
  minv H.
  all: msimpl2.
  all: rewrite ?list_lookup_alter_eq, ?E3 in *; simplify_eq/=.
  all: msimpl2; bool_to_prop; rewrite ?andb_true_r in *.
  all: split; msimpl2; rewrite ?list_alter_alter_eq; auto.
  all: try by rewrite ?dom_update by (msimpl2; done).
  all: try by apply ids_dense_alter.
  all: try (apply Forall_alter; [done|]; intros d' Hi' _;
            simplify_eq; unfold deal_wf, compose; wsimpl;
            repeat split; try done; try lia; try congruence;
            try (intros [? ?]; congruence)).
  all: intros a; pose proof (Ha a) as Haa; unfold agent_ok in *; msimpl2.
  all: tally E3.
  all: rewrite ?lookup_insert; repeat case_decide; subst; msimpl2.
  all: rewrite ?Hp1, ?Hp2, ?party_other by done.
  all: lia.
Qed.

Lemma transact_Books env c w :
  valid_env env -> valid_args c -> Inv w -> Books w -> Books (transact env c w).
Proof.
  intros He Hc HI HB. unfold transact.
  destruct (run (dispatch env c) w) as [u w' t|] eqn:H; [|done].
  destruct c; simpl in H, Hc.
  - eauto using registerAgent_Books.
  - eauto using stake_Books.
  - eauto using requestUnstake_Books.
  - eauto using unstake_Books.
  - unfold run in H. minv H. destruct Hc. eauto using createDeal_Books.
  - eauto using confirmDeal_Books.
  - eauto using disputeDeal_Books.
  - eauto using cancelExpiredDeal_Books.
Qed.

Lemma reachable_Books w : reachable w -> Books w.
Proof.
  induction 1 as [k Hk|env c w Hr IH He Hc]; [apply Books_deployed|].
  apply transact_Books; auto using reachable_Inv.
Qed.

(* ----------------------------------------------------------------- *)
(** *** More scenario worlds *)

(** Bob confirms after Alice: the deal is completed. *)
Definition completed : World :=
  transact (mkEnv bob (t0 + 120)) (call_confirmDeal 0) half_confirmed.

Lemma completed_reachable : reachable completed.
Proof.
  apply reachable_transact; [exact half_confirmed_reachable | done | done].
Defined.

Lemma disputed_reachable : reachable disputed.
Proof.
  apply reachable_transact; [exact with_deal_reachable | done | done].
Defined.

(** Alice stakes 5 USDC and Bob 10 USDC. *)
Definition ranking_calls : list (Env * Call) :=
  [ by_ alice t0 (call_registerAgent "Alice");
    by_ bob t0 (call_registerAgent "Bob");
    by_ alice t0 (call_stake (USDC 5));
    by_ bob t0 (call_stake (USDC 10)) ].

Definition ranking_world : World := transact_all ranking_calls (deployed funded).

Lemma ranking_world_reachable : reachable ranking_world.
Proof. apply (scenario_calls_valid ranking_calls). repeat constructor; done. Defined.

(* ================================================================= *)
(** ** Reading the registry and the deals *)

(** [getAgentAt(uint256 _index)]: [agentList[_index]], where an index out of
    range is [Panic 0x32]. *)
Definition getAgentAt (_index : Z) : M address :=
  let* l := sload agentList in
  match l !! Z.to_nat _index with
  | Some a => ret a
  | None => revert (Panic 0x32)
  end.

Lemma listed_registered w a :
  Inv w -> Books w -> a ∈ agentList (bond w) <-> registered a (bond w).
Proof.
  intros HI HB.
  rewrite <- (elem_of_list_to_set (C := gset address)), <- (books_listed _ HB).
  split; [|apply registered_dom].
  intros [x Hx]%elem_of_dom. unfold registered, agent_at. rewrite Hx. simpl.
  exact (inv_entries _ HI _ _ Hx).
Qed.

(** X1.  In every reachable world the agent list holds no address twice, an
    address is in the list exactly when it is registered, and getAgentCount
    returns the number of registered agents, the size of the agents
    mapping. *)
Theorem agentList_enumerates w :
  reachable w ->
  NoDup (agentList (bond w)) /\
  (forall a, a ∈ agentList (bond w) <-> registered a (bond w)) /\
  run getAgentCount w = Ok (Z.of_nat (size (agents (bond w)))) w [].
Proof.
  intros Hr. pose proof (reachable_Inv _ Hr) as HI.
  pose proof (reachable_Books _ Hr) as HB.
  split; [apply (books_nodup _ HB)|]. split; [intros a; by apply listed_registered|].
  unfold getAgentCount. munfold. do 3 f_equal.
  rewrite <- (size_dom (D := gset address)), (books_listed _ HB).
  symmetry. apply size_list_to_set, (books_nodup _ HB).
Qed.

Lemma agentList_enumerates_witness :
  NoDup (agentList (bond with_deal)) /\
  (alice ∈ agentList (bond with_deal) <-> registered alice (bond with_deal)) /\
  run getAgentCount with_deal = Ok 2 with_deal [].
Proof.
  destruct (agentList_enumerates with_deal with_deal_reachable) as (Hn & Ha & Hc).
  split; [exact Hn|]. split; [exact (Ha alice)|]. exact Hc.
Defined.

(** X2.  In every reachable world, with [n] the value of getAgentCount:
    getAgentAt(i) returns a registered address for every i < n, it reverts
    with [Panic 0x32] for every i >= n, and every registered address is
    returned at exactly one index. *)
Theorem getAgentAt_spec w :
  reachable w ->
  exists n,
    run getAgentCount w = Ok n w [] /\
    (forall i, 0 <= i < n ->
       exists a, run (getAgentAt i) w = Ok a w [] /\ registered a (bond w)) /\
    (forall i, n <= i -> run (getAgentAt i) w = Revert (Panic 0x32) []) /\
    (forall a, registered a (bond w) ->
       exists i, 0 <= i < n /\ run (getAgentAt i) w = Ok a w [] /\
         forall j, 0 <= j -> run (getAgentAt j) w = Ok a w [] -> j = i).
Proof.
  intros Hr. pose proof (reachable_Inv _ Hr) as HI.
  pose proof (reachable_Books _ Hr) as HB.
  exists (Z.of_nat (length (agentList (bond w)))).
  split; [reflexivity|].
  assert (Hget : forall i a, run (getAgentAt i) w = Ok a w [] <->
                             agentList (bond w) !! Z.to_nat i = Some a).
  { intros i a. unfold getAgentAt. munfold.
    destruct (agentList (bond w) !! Z.to_nat i); split; congruence. }
  split; [|split].
  - intros i Hi.
    destruct (lookup_lt_is_Some_2 (agentList (bond w)) (Z.to_nat i)) as [a Ha]; [lia|].
    exists a. split; [by apply Hget|].
    apply listed_registered; [done..|]. by eapply list_elem_of_lookup_2.
  - intros i Hi. unfold getAgentAt. munfold.
    rewrite (proj2 (lookup_ge_None _ _)); [done | lia].
  - intros a Ha. apply listed_registered in Ha; [|done..].
    apply list_elem_of_lookup in Ha as [k Hk].
    exists (Z.of_nat k). pose proof (lookup_lt_Some _ _ _ Hk).
    split; [lia|]. split; [apply Hget; by rewrite Nat2Z.id|].
    intros j Hj Hrun. apply Hget in Hrun.
    pose proof (NoDup_lookup _ _ _ _ (books_nodup _ HB) Hk Hrun). lia.
Qed.

Lemma getAgentAt_spec_witness :
  run (getAgentAt 1) with_deal = Ok bob with_deal [] /\
  run (getAgentAt 2) with_deal = Revert (Panic 0x32) [].
Proof.
  destruct (getAgentAt_spec with_deal with_deal_reachable) as (n & Hn & Hin & Hout & _).
  assert (n = 2) as -> by (revert Hn; vm_compute; congruence).
  destruct (Hin 1 ltac:(lia)) as (a & Ha & _).
  split; [|apply Hout; lia].
  rewrite Ha. f_equal. revert Ha. vm_compute. congruence.
Defined.

(** X3.  In every reachable world the counters of each agent agree with the
    deals: dealsCompleted is the number of Completed deals the agent is a
    party to, totalVolume is the sum of their amounts, and dealsFailed is at
    most the number of Disputed deals the agent is a party to. *)
Theorem stats_match_ledger w a :
  reachable w ->
  let x := agent_at a (bond w) in
  Agent.dealsCompleted x = sum_deals (completed_by a) (deals (bond w)) /\
  Agent.totalVolume x = sum_deals (volume_by a) (deals (bond w)) /\
  0 <= Agent.dealsFailed x <= sum_deals (disputed_with a) (deals (bond w)).
Proof.
  intros Hr x.
  destruct (books_agents _ (reachable_Books _ Hr) a) as (H1 & H2 & H3 & _).
  auto.
Qed.

Lemma stats_match_ledger_witness :
  Agent.dealsCompleted (agent_at alice (bond completed)) = 1 /\
  Agent.totalVolume (agent_at alice (bond completed)) = USDC 50.
Proof.
  destruct (stats_match_ledger completed alice completed_reachable) as (H1 & H2 & _).
  split; [refine (eq_trans H1 _) | refine (eq_trans H2 _)]; vm_compute; reflexivity.
Defined.

(** X4.  In every reachable world the deal stored at index [i] has id [i], a
    positive amount within uint256, two distinct registered parties, and an
    expiry strictly after its creation time. *)
Theorem deal_records w i d :
  reachable w -> deals (bond w) !! i = Some d ->
  Deal.id d = Z.of_nat i /\
  0 < Deal.amount d <= MAX_UINT256 /\
  Deal.creator d <> Deal.counterparty d /\
  registered (Deal.creator d) (bond w) /\
  registered (Deal.counterparty d) (bond w) /\
  0 <= Deal.createdAt d < Deal.expiresAt d.
Proof.
  intros Hr Hi. pose proof (reachable_Inv _ Hr) as HI.
  pose proof (reachable_Books _ Hr) as HB.
  destruct (deal_ok_lookup _ _ _ _ (inv_deals _ HI) Hi) as (_ & Hne & Hc & Hp).
  destruct (deal_wf_lookup _ _ _ (books_deals _ HB) Hi) as (Ha & Ht & _).
  pose proof (ids_dense_lookup _ _ _ (books_ids _ HB) Hi). auto 10.
Qed.

Lemma deal_records_witness :
  Deal.id the_deal = 0 /\ 0 < Deal.amount the_deal /\
  Deal.createdAt the_deal < Deal.expiresAt the_deal.
Proof.
  destruct (deal_records with_deal 0%nat the_deal with_deal_reachable)
    as (Hid & Ha & _ & _ & _ & Ht).
  - vm_compute; reflexivity.
  - split; [exact Hid|]. split; [apply Ha | apply Ht].
Defined.

(** X5.  In every reachable world no deal has status Cancelled, and a deal has
    status Completed exactly when both confirmation flags are set. *)
Theorem deal_status_flags w i d :
  reachable w -> deals (bond w) !! i = Some d ->
  Deal.status d <> Cancelled /\
  (Deal.status d = Completed <->
   Deal.creatorConfirmed d = true /\ Deal.counterpartyConfirmed d = true).
Proof.
  intros Hr Hi.
  destruct (deal_wf_lookup _ _ _ (books_deals _ (reachable_Books _ Hr)) Hi)
    as (_ & _ & _ & Hn & Hc).
  auto.
Qed.

Lemma deal_status_flags_witness :
  let d := Deal.mk 0 alice bob (USDC 50) "Task" Completed t0 (t0 + DEFAULT_EXPIRY)
                   true true in
  deals (bond completed) !! 0%nat = Some d /\
  (Deal.status d = Completed <->
   Deal.creatorConfirmed d = true /\ Deal.counterpartyConfirmed d = true).
Proof.
  intros d.
  assert (Hi : deals (bond completed) !! 0%nat = Some d) by (vm_compute; reflexivity).
  split; [exact Hi|].
  exact (proj2 (deal_status_flags completed 0%nat d completed_reachable Hi)).
Defined.

(* ================================================================= *)
(** ** The reputation score on the records the contract keeps *)

(** The value [getReputation] computes from an agent record. *)
Definition score (x : Agent.t) : Z :=
  if negb (Agent.exists_ x) then 0 else
  let total := Agent.dealsCompleted x + Agent.dealsFailed x in
  let stakeScore := Z.min (Agent.staked x / 1000000 * 10) 200 in
  if total =? 0 then stakeScore
  else Agent.dealsCompleted x * 500 / total
       + Z.min (Agent.totalVolume x / 100000000 * 30) 300
       + stakeScore.

(** Records on which none of the checked operations of [getReputation]
    overflows. *)
Definition in_range (x : Agent.t) : Prop :=
  0 <= Agent.staked x <= MAX_UINT256 /\
  0 <= Agent.totalVolume x <= MAX_UINT256 /\
  0 <= Agent.dealsCompleted x /\ 0 <= Agent.dealsFailed x /\
  Agent.dealsCompleted x + Agent.dealsFailed x <= MAX_UINT256 /\
  Agent.dealsCompleted x * 500 <= MAX_UINT256.

Lemma score_parts x :
  in_range x ->
  0 <= Z.min (Agent.staked x / 1000000 * 10) 200 <= 200 /\
  0 <= Z.min (Agent.totalVolume x / 100000000 * 30) 300 <= 300 /\
  Agent.staked x / 1000000 * 10 <= MAX_UINT256 /\
  Agent.totalVolume x / 100000000 * 30 <= MAX_UINT256 /\
  (Agent.dealsCompleted x + Agent.dealsFailed x <> 0 ->
   0 <= Agent.dealsCompleted x * 500
        / (Agent.dealsCompleted x + Agent.dealsFailed x) <= 500).
Proof.
  intros ([Hs0 Hs1] & [Hv0 Hv1] & Hc & Hf & Hsum & Hmul).
  pose proof MAX_UINT256_eq as Hmax.
  pose proof (Z.mul_div_le (Agent.staked x) 1000000 eq_refl) as Hsm.
  pose proof (Z.mul_div_le (Agent.totalVolume x) 100000000 eq_refl) as Hvm.
  assert (0 <= Agent.staked x / 1000000) by (apply Z.div_pos; lia).
  assert (0 <= Agent.totalVolume x / 100000000) by (apply Z.div_pos; lia).
  set (qs := Agent.staked x / 1000000) in *.
  set (qv := Agent.totalVolume x / 100000000) in *.
  repeat split; try lia.
  - apply Z.div_pos; lia.
  - apply Z.div_le_upper_bound; lia.
Qed.

Lemma score_bounds x : in_range x -> 0 <= score x <= 1000.
Proof.
  intros Hx. destruct (score_parts x Hx) as (Hs & Hv & _ & _ & Hc).
  unfold score. destruct (Agent.exists_ x); simpl; [|lia].
  destruct (Z.eqb_spec (Agent.dealsCompleted x + Agent.dealsFailed x) 0); [lia|].
  specialize (Hc ltac:(done)). lia.
Qed.

Lemma getReputation_score who w :
  in_range (agent_at who (bond w)) ->
  run (getReputation who) w = Ok (score (agent_at who (bond w))) w [].
Proof.
  intros Hx. destruct (score_parts _ Hx) as (Hs & Hv & Hsm & Hvm & Hc).
  destruct Hx as (_ & _ & _ & _ & Hsum & Hmul).
  unfold getReputation, score. munfold. fold (agent_at who (bond w)).
  set (a := agent_at who (bond w)) in *.
  destruct (Agent.exists_ a); simpl; [|done].
  mstep (proj2 (Z.leb_le _ _) Hsum).
  destruct (Z.eqb_spec (Agent.dealsCompleted a + Agent.dealsFailed a) 0) as [Hz|Hnz].
  - mstep (proj2 (Z.leb_le _ _) Hsm). by rewrite _min_spec.
  - specialize (Hc Hnz). pose proof MAX_UINT256_eq as Hmax.
    mstep (proj2 (Z.leb_le _ _) Hmul).
    mstep (proj2 (Z.leb_le _ _) Hvm).
    mstep (proj2 (Z.leb_le _ _) Hsm).
    rewrite !_min_spec.
    rewrite (proj2 (Z.leb_le (_ + _) MAX_UINT256)) by lia. gsimpl.
    rewrite (proj2 (Z.leb_le (_ + _) MAX_UINT256)) by lia. gsimpl.
    reflexivity.
Qed.

Lemma sum_deals_bounds f ds :
  (forall d, 0 <= f d <= 1) -> 0 <= sum_deals f ds <= Z.of_nat (length ds).
Proof.
  intros Hf. induction ds as [|d ds IH]; simpl; [lia|].
  specialize (Hf d). lia.
Qed.

Lemma sum_deals_nonneg f ds :
  Forall (fun d => 0 <= f d) ds -> 0 <= sum_deals f ds.
Proof. induction 1; simpl; lia. Qed.

Lemma reachable_in_range w a :
  reachable w ->
  Z.of_nat (length (deals (bond w))) * 500 <= MAX_UINT256 ->
  in_range (agent_at a (bond w)).
Proof.
  intros Hr Hn. pose proof (reachable_Inv _ Hr) as HI.
  pose proof (reachable_Books _ Hr) as HB.
  destruct (books_agents _ HB a) as (Hc & Hv & Hf & Hs & Hvm).
  pose proof (total_staked_bounds _ a (inv_stakes _ HI)) as Hst.
  fold (agent_at a (bond w)) in Hst.
  assert (Hcb : 0 <= sum_deals (completed_by a) (deals (bond w))
                <= Z.of_nat (length (deals (bond w)))).
  { apply sum_deals_bounds. intros d. unfold completed_by.
    destruct (has_status _ _ _); lia. }
  assert (Hfb : 0 <= sum_deals (disputed_with a) (deals (bond w))
                <= Z.of_nat (length (deals (bond w)))).
  { apply sum_deals_bounds. intros d. unfold disputed_with.
    destruct (has_status _ _ _); lia. }
  assert (Hvb : 0 <= sum_deals (volume_by a) (deals (bond w))).
  { apply sum_deals_nonneg. eapply Forall_impl; [exact (books_deals _ HB)|].
    intros d (Hamt & _). unfold volume_by. destruct (has_status _ _ _); lia. }
  unfold in_range. lia.
Qed.

(** X6.  In every reachable world whose deal count times 500 fits uint256,
    getReputation returns for every address, without reverting and without
    changing the world, a score between 0 and 1000. *)
Theorem getReputation_total w a :
  reachable w ->
  Z.of_nat (length (deals (bond w))) * 500 <= MAX_UINT256 ->
  exists v, run (getReputation a) w = Ok v w [] /\ 0 <= v <= 1000.
Proof.
  intros Hr Hn. pose proof (reachable_in_range w a Hr Hn) as Hx.
  exists (score (agent_at a (bond w))).
  split; [by apply getReputation_score | by apply score_bounds].
Qed.

Lemma getReputation_total_witness :
  exists v, run (getReputation bob) completed = Ok v completed [] /\ 0 <= v <= 1000.
Proof.
  apply (getReputation_total completed bob completed_reachable).
  vm_compute. discriminate.
Defined.

Lemma div_le_cross a b a' b' :
  0 < b -> 0 < b' -> a * b' <= a' * b -> a / b <= a' / b'.
Proof.
  intros Hb Hb' H. apply Z.div_le_lower_bound; [done|].
  pose proof (Z.mul_div_le a b Hb). nia.
Qed.

(** X7.  More stake, more volume, more completed deals and fewer failed deals
    never lower the score.  For two records of a registered agent within the
    range of the checked arithmetic, the second with at least the stake, the
    volume and the completed deals of the first and at most its failed
    deals, the first with no volume while it has no completed deal: the
    score getReputation returns for the second is at least the score it
    returns for the first. *)
Theorem reputation_monotone who w w' v v' :
  let x := agent_at who (bond w) in
  let y := agent_at who (bond w') in
  in_range x -> in_range y ->
  Agent.exists_ x = true -> Agent.exists_ y = true ->
  Agent.staked x <= Agent.staked y ->
  Agent.totalVolume x <= Agent.totalVolume y ->
  Agent.dealsCompleted x <= Agent.dealsCompleted y ->
  Agent.dealsFailed y <= Agent.dealsFailed x ->
  (Agent.dealsCompleted x = 0 -> Agent.totalVolume x = 0) ->
  run (getReputation who) w = Ok v w [] ->
  run (getReputation who) w' = Ok v' w' [] ->
  v <= v'.
Proof.
  intros x y Hx Hy Hex Hey Hs Hv Hc Hf Hled Hrx Hry.
  rewrite getReputation_score in Hrx, Hry by done.
  injection Hrx as <-. injection Hry as <-.
  destruct (score_parts x Hx) as (Hxs & Hxv & _ & _ & Hxc).
  destruct (score_parts y Hy) as (Hys & Hyv & _ & _ & Hyc).
  assert (Hsm : Agent.staked x / 1000000 <= Agent.staked y / 1000000)
    by (apply Z.div_le_mono; lia).
  assert (Hvm : Agent.totalVolume x / 100000000 <= Agent.totalVolume y / 100000000)
    by (apply Z.div_le_mono; lia).
  destruct Hx as (_ & Hxv0 & Hxc0 & Hxf0 & _), Hy as (_ & _ & Hyc0 & Hyf0 & _).
  unfold score. fold x y. rewrite Hex, Hey. simpl.
  destruct (Z.eqb_spec (Agent.dealsCompleted x + Agent.dealsFailed x) 0) as [Hzx|Hnx];
    destruct (Z.eqb_spec (Agent.dealsCompleted y + Agent.dealsFailed y) 0) as [Hzy|Hny].
  - lia.
  - specialize (Hyc Hny). lia.
  - assert (Agent.dealsCompleted x = 0) as Hc0 by lia.
    rewrite Hc0, (Hled Hc0). change (0 * 500) with 0.
    rewrite Z.div_0_l by lia. change (0 / 100000000 * 30) with 0. lia.
  - specialize (Hxc Hnx). specialize (Hyc Hny).
    assert (Agent.dealsCompleted x * 500
              / (Agent.dealsCompleted x + Agent.dealsFailed x)
            <= Agent.dealsCompleted y * 500
              / (Agent.dealsCompleted y + Agent.dealsFailed y)).
    { apply div_le_cross; [lia..|]. nia. }
    lia.
Qed.

Lemma reputation_monotone_witness :
  let before := Agent.mk "Alice" (USDC 5) 1 1 (USDC 100) t0 true in
  let after := Agent.mk "Alice" (USDC 12) 2 1 (USDC 300) t0 true in
  run (getReputation alice) (one_agent alice before)
  = Ok 330 (one_agent alice before) [] /\
  run (getReputation alice) (one_agent alice after)
  = Ok 543 (one_agent alice after) [] /\
  330 <= 543.
Proof.
  intros before after.
  assert (H1 : run (getReputation alice) (one_agent alice before)
               = Ok 330 (one_agent alice before) []) by (vm_compute; reflexivity).
  assert (H2 : run (getReputation alice) (one_agent alice after)
               = Ok 543 (one_agent alice after) []) by (vm_compute; reflexivity).
  split; [exact H1|]. split; [exact H2|].
  apply (reputation_monotone alice (one_agent alice before) (one_agent alice after)
           330 543); try exact H1; try exact H2; try reflexivity.
  all: try (vm_compute; discriminate).
  all: try (repeat split; vm_compute; discriminate).
Defined.

(** X8.  Within the range of the checked arithmetic, getReputation returns 1000
    exactly for a registered agent with at least one completed deal, no
    failed deal, a total volume of at least 1000 USDC and a stake of at
    least 20 USDC. *)
Theorem perfect_score who w :
  let x := agent_at who (bond w) in
  in_range x ->
  (run (getReputation who) w = Ok 1000 w [] <->
   Agent.exists_ x = true /\
   0 < Agent.dealsCompleted x /\ Agent.dealsFailed x = 0 /\
   1000000000 <= Agent.totalVolume x /\
   20000000 <= Agent.staked x).
Proof.
  intros x Hx. rewrite getReputation_score by done. fold x.
  destruct (score_parts x Hx) as (Hxs & Hxv & _ & _ & Hxc).
  destruct Hx as ([Hs0 _] & [Hv0 _] & Hc0 & Hf0 & _).
  assert (Hsq : 20 <= Agent.staked x / 1000000 <-> 20000000 <= Agent.staked x).
  { split; intros H.
    - pose proof (Z.mul_div_le (Agent.staked x) 1000000 eq_refl). lia.
    - apply Z.div_le_lower_bound; lia. }
  assert (Hvq : 10 <= Agent.totalVolume x / 100000000
                <-> 1000000000 <= Agent.totalVolume x).
  { split; intros H.
    - pose proof (Z.mul_div_le (Agent.totalVolume x) 100000000 eq_refl). lia.
    - apply Z.div_le_lower_bound; lia. }
  unfold score. destruct (Agent.exists_ x); simpl.
  2: { split; [intros [= ?] | intros [? _]]; done. }
  destruct (Z.eqb_spec (Agent.dealsCompleted x + Agent.dealsFailed x) 0) as [Hz|Hnz].
  { split; [intros [= ?]; lia | intros (_ & ? & _); lia]. }
  specialize (Hxc Hnz).
  assert (Hcq : 500 <= Agent.dealsCompleted x * 500
                         / (Agent.dealsCompleted x + Agent.dealsFailed x)
                <-> Agent.dealsFailed x = 0).
  { split; intros H.
    - pose proof (Z.mul_div_le (Agent.dealsCompleted x * 500)
                     (Agent.dealsCompleted x + Agent.dealsFailed x) ltac:(lia)). nia.
    - rewrite H, Z.add_0_r in *. rewrite (Z.mul_comm _ 500), Z.div_mul by lia. lia. }
  split.
  - intros [= H]. split; [done|].
    assert (Agent.dealsFailed x = 0) by (apply Hcq; lia).
    split; [lia|]. split; [done|]. split; [apply Hvq | apply Hsq]; lia.
  - intros (_ & Hc & Hf & Hv & Hs). f_equal.
    apply Hcq in Hf. apply Hvq in Hv. apply Hsq in Hs. lia.
Qed.

Lemma perfect_score_witness :
  let a := Agent.mk "Alice" (USDC 20) 3 0 (USDC 1000) t0 true in
  run (getReputation alice) (one_agent alice a) = Ok 1000 (one_agent alice a) [].
Proof.
  intros a. apply (perfect_score alice (one_agent alice a)).
  - repeat split; vm_compute; discriminate.
  - repeat split; vm_compute; (reflexivity || discriminate).
Defined.

(* ================================================================= *)
(** ** What no later call undoes *)

(** What no call changes in an agent's record once it is registered. *)
Definition same_identity (x y : Agent.t) : Prop :=
  Agent.exists_ y = Agent.exists_ x /\
  Agent.name y = Agent.name x /\
  Agent.registeredAt y = Agent.registeredAt x.

Lemma dispatch_identity env c w u w' t a :
  run (dispatch env c) w = Ok u w' t ->
  registered a (bond w) ->
  same_identity (agent_at a (bond w)) (agent_at a (bond w')) /\
  agentList (bond w) `prefix_of` agentList (bond w').
Proof.
  intros H Ha. unfold run in H. unfold same_identity.
  destruct c; simpl in H; unfold_calls H; minv H; wsimpl.
  all: split; [|try done; by apply prefix_app_r].
  all: rewrite ?lookup_insert; repeat case_decide; subst; wsimpl;
       rewrite ?lookup_insert; repeat case_decide; subst; wsimpl; try done.
  all: bool_to_prop; try congruence.
  all: repeat split; congruence.
Qed.

Lemma transact_identity env c w a :
  registered a (bond w) ->
  same_identity (agent_at a (bond w)) (agent_at a (bond (transact env c w))) /\
  agentList (bond w) `prefix_of` agentList (bond (transact env c w)).
Proof.
  intros Ha. unfold transact.
  destruct (run (dispatch env c) w) eqn:H; [by eapply dispatch_identity|].
  by repeat split.
Qed.

(** X9.  Whatever calls follow, by whomever: a registered agent stays registered
    with the same name and the same registration time, and the agent list
    only grows at its end, so that the index getAgentAt gives an agent never
    changes. *)
Theorem registration_permanent (cs : list (Env * Call)) w a :
  registered a (bond w) ->
  let x := agent_at a (bond w) in
  let y := agent_at a (bond (transact_all cs w)) in
  registered a (bond (transact_all cs w)) /\
  Agent.name y = Agent.name x /\
  Agent.registeredAt y = Agent.registeredAt x /\
  agentList (bond w) `prefix_of` agentList (bond (transact_all cs w)).
Proof.
  revert w. induction cs as [|[env c] cs IH]; intros w Ha; simpl.
  { by repeat split. }
  destruct (transact_identity env c w a Ha) as ((He & Hn & Ht) & Hp).
  assert (Ha' : registered a (bond (transact env c w)))
    by (unfold registered in *; congruence).
  destruct (IH _ Ha') as (Hr & Hn' & Ht' & Hp').
  split; [done|]. split; [congruence|]. split; [congruence|].
  by etrans.
Qed.

Lemma registration_permanent_witness :
  let later := [ by_ alice (t0 + 10) (call_registerAgent "Alicia");
                 by_ alice (t0 + 20) (call_stake (USDC 1));
                 by_ bob (t0 + 30) (call_disputeDeal 0) ] in
  registered alice (bond (transact_all later with_deal)) /\
  Agent.name (agent_at alice (bond (transact_all later with_deal))) = "Alice"%string.
Proof.
  intros later.
  destruct (registration_permanent later with_deal alice) as (Hr & Hn & _).
  - reflexivity.
  - split; [exact Hr|]. refine (eq_trans Hn _). vm_compute. reflexivity.
Defined.

(** The terms of a deal, and its confirmations once given. *)
Definition same_terms (d d' : Deal.t) : Prop :=
  Deal.id d' = Deal.id d /\
  Deal.creator d' = Deal.creator d /\
  Deal.counterparty d' = Deal.counterparty d /\
  Deal.amount d' = Deal.amount d /\
  Deal.description d' = Deal.description d /\
  Deal.createdAt d' = Deal.createdAt d /\
  Deal.expiresAt d' = Deal.expiresAt d /\
  (Deal.creatorConfirmed d = true -> Deal.creatorConfirmed d' = true) /\
  (Deal.counterpartyConfirmed d = true -> Deal.counterpartyConfirmed d' = true).

Lemma same_terms_refl d : same_terms d d.
Proof. by repeat split. Qed.

Lemma same_terms_trans d1 d2 d3 :
  same_terms d1 d2 -> same_terms d2 d3 -> same_terms d1 d3.
Proof. unfold same_terms. intuition congruence. Qed.

Lemma lookup_alter_terms (f : Deal.t -> Deal.t) (j : nat) (ds : list Deal.t) (i : nat) d :
  (forall x, same_terms x (f x)) ->
  ds !! i = Some d -> exists d', alter f j ds !! i = Some d' /\ same_terms d d'.
Proof.
  intros Hf Hi. destruct (decide (j = i)) as [->|Hne].
  - exists (f d). by rewrite list_lookup_alter_eq, Hi.
  - exists d. rewrite list_lookup_alter_ne by done. split; [done | apply same_terms_refl].
Qed.

Lemma dispatch_terms env c w u w' t i d :
  run (dispatch env c) w = Ok u w' t ->
  deals (bond w) !! i = Some d ->
  exists d', deals (bond w') !! i = Some d' /\ same_terms d d'.
Proof.
  intros H Hi. unfold run in H.
  destruct c; simpl in H; unfold_calls H; minv H; wsimpl.
  all: repeat match goal with H : _ <= _ |- _ => clear H end.
  all: try (exists d; split; [done | apply same_terms_refl]).
  all: try (exists d; split; [by apply lookup_app_l_Some | apply same_terms_refl]).
  all: rewrite ?list_alter_alter_eq.
  all: apply lookup_alter_terms; [|done]; intros dd; by repeat split.
Qed.

(** X10.  Whatever calls follow, by whomever: a deal stays at its index with the
    same id, creator, counterparty, amount, description, creation time and
    expiry, and a confirmation once given is never withdrawn. *)
Theorem deal_terms_immutable (cs : list (Env * Call)) w i d :
  deals (bond w) !! i = Some d ->
  exists d', deals (bond (transact_all cs w)) !! i = Some d' /\ same_terms d d'.
Proof.
  revert w d. induction cs as [|[env c] cs IH]; intros w d Hi; simpl.
  { exists d. split; [done | apply same_terms_refl]. }
  assert (exists d1, deals (bond (transact env c w)) !! i = Some d1 /\ same_terms d d1)
    as (d1 & Hi1 & H1).
  { unfold transact. destruct (run (dispatch env c) w) eqn:H.
    - by eapply dispatch_terms.
    - exists d. split; [done | apply same_terms_refl]. }
  destruct (IH _ _ Hi1) as (d' & Hi' & H').
  exists d'. split; [done|]. by eapply same_terms_trans.
Qed.

Lemma deal_terms_immutable_witness :
  let later := [ by_ alice (t0 + 10) (call_confirmDeal 0);
                 by_ bob (t0 + 20) (call_disputeDeal 0) ] in
  exists d', deals (bond (transact_all later with_deal)) !! 0%nat = Some d' /\
             Deal.amount d' = USDC 50 /\ Deal.creatorConfirmed d' = true.
Proof.
  intros later.
  destruct (deal_terms_immutable [by_ bob (t0 + 20) (call_disputeDeal 0)]
              half_confirmed 0%nat
              (Deal.mk 0 alice bob (USDC 50) "Task" Active t0 (t0 + DEFAULT_EXPIRY)
                       true false))
    as (d' & Hi & _ & _ & _ & Ha & _ & _ & _ & Hc & _).
  - vm_compute; reflexivity.
  - exists d'. split; [|split; [exact Ha | exact (Hc eq_refl)]].
    refine (eq_trans _ Hi). vm_compute. reflexivity.
Defined.

(** X11.  A transaction sent by an address that is neither the creator nor the
    counterparty of a deal leaves the deal's record as it is, with one
    exception: cancelExpiredDeal on that deal, when it is Active and its
    expiry has passed, sets its status to Expired. *)
Theorem stranger_cannot_touch env c w i d :
  deals (bond w) !! i = Some d ->
  msg_sender env <> Deal.creator d -> msg_sender env <> Deal.counterparty d ->
  deals (bond (transact env c w)) !! i = Some d \/
  (exists j, c = call_cancelExpiredDeal j /\ Z.to_nat j = i /\
     Deal.status d = Active /\ Deal.expiresAt d <= block_timestamp env /\
     deals (bond (transact env c w)) !! i = Some (Deal.set_status Expired d)).
Proof.
  intros Hi Hc Hp. unfold transact.
  destruct (run (dispatch env c) w) as [u w' t|] eqn:H; [|by left].
  unfold run in H.
  destruct c; simpl in H; unfold_calls H; minv H; wsimpl.
  all: repeat match goal with H : _ <= _ |- _ => clear H end.
  all: try (by left).
  all: try (left; by apply lookup_app_l_Some).
  all: bool_to_prop.
  all: try match goal with
       | |- context [call_cancelExpiredDeal ?j] =>
           destruct (decide (Z.to_nat j = i)) as [<-|Hne];
           [ right; exists j; simplify_eq;
             rewrite list_lookup_alter_eq;
             match goal with E : deals _ !! _ = Some _ |- _ => rewrite E end; auto 10
           | left; by rewrite list_lookup_alter_ne ]
       end.
  all: left; rewrite ?list_alter_alter_eq.
  all: rewrite list_lookup_alter_ne; [done|]; intros <-; simplify_eq.
  all: rewrite ?list_lookup_alter_eq in *.
  all: repeat match goal with
       | H : _ || _ = true |- _ => apply orb_true_iff in H; destruct H
       end; bool_to_prop; try congruence.
Qed.

Lemma stranger_cannot_touch_witness :
  deals (bond (transact (mkEnv charlie (t0 + 10)) (call_disputeDeal 0) with_deal))
    !! 0%nat = Some the_deal.
Proof.
  destruct (stranger_cannot_touch (mkEnv charlie (t0 + 10)) (call_disputeDeal 0)
              with_deal 0%nat the_deal) as [H|(j & Hj & _)].
  - vm_compute; reflexivity.
  - discriminate.
  - discriminate.
  - exact H.
  - discriminate Hj.
Defined.

(* ================================================================= *)
(** ** Successful calls *)

(** The token after [safeTransferFrom(from, address(this), v)]. *)
Definition pulled (from : address) (v : Z) (k : Token) : Token :=
  mkToken (move from MOLTBOND_ADDRESS v (balanceOf k))
          (if bool_decide (allowance_of from k = MAX_UINT256) then allowance k
           else <[from := allowance_of from k - v]> (allowance k)).

(** The token after [safeTransfer(to, v)]. *)
Definition paid (to : address) (v : Z) (k : Token) : Token :=
  mkToken (move MOLTBOND_ADDRESS to v (balanceOf k)) (allowance k).

(** [from] can be charged [v]: its balance and its allowance cover it. *)
Definition can_pay (from : address) (v : Z) (k : Token) : Prop :=
  v <= balance_of from k /\
  (allowance_of from k = MAX_UINT256 \/ v <= allowance_of from k).

Lemma safeTransferFrom_run from v w t :
  can_pay from v (usdc w) ->
  safeTransferFrom from v w t
  = Ok tt (mkWorld (bond w) (pulled from v (usdc w))) (t ++ [CallTransferFrom from v]).
Proof.
  intros [Hb Ha]. unfold safeTransferFrom, pulled.
  rewrite (proj2 (Z.ltb_ge _ _) Hb).
  destruct Ha as [Ha|Ha].
  - rewrite bool_decide_true by done. reflexivity.
  - rewrite (proj2 (Z.ltb_ge _ _) Ha), andb_false_r. reflexivity.
Qed.

Lemma safeTransfer_run to v w t :
  v <= held w ->
  safeTransfer to v w t
  = Ok tt (mkWorld (bond w) (paid to v (usdc w))) (t ++ [CallTransfer to v]).
Proof.
  intros Hb. unfold safeTransfer, held in *.
  by rewrite (proj2 (Z.ltb_ge _ _) Hb).
Qed.

(** The world a successful [stake] leaves. *)
Definition after_stake (s : address) (v : Z) (w : World) : World :=
  mkWorld
    (set_unstakeRequestedAt (<[s := 0]> (unstakeRequestedAt (bond w)))
       (update_agent s (Agent.set_staked (Agent.staked (agent_at s (bond w)) + v))
          (bond w)))
    (pulled s v (usdc w)).

Lemma storage_eta s :
  mkStorage (agents s) (agentList s) (deals s) (unstakeRequestedAt s) (entered s) = s.
Proof. by destruct s. Qed.

(** The guard is left as it was found. *)
Ltac guard_out Hg :=
  f_equal; f_equal;
  unfold update_agent, update_deal, set_unstakeRequestedAt, set_agents,
         set_deals, set_entered, set_agentList, agent_at;
  cbn [agents agentList deals unstakeRequestedAt entered];
  rewrite ?Hg; reflexivity.

Lemma stake_run env v w :
  entered (bond w) = false ->
  registered (msg_sender env) (bond w) ->
  MIN_STAKE <= v ->
  can_pay (msg_sender env) v (usdc w) ->
  Agent.staked (agent_at (msg_sender env) (bond w)) + v <= MAX_UINT256 ->
  run (stake env v) w
  = Ok tt (after_stake (msg_sender env) v w)
       [ SStore slot_guard; CallTransferFrom (msg_sender env) v;
         SStore (slot_staked (msg_sender env));
         SStore (slot_unstakeRequestedAt (msg_sender env));
         Emit (Staked (msg_sender env) v
                 (Agent.staked (agent_at (msg_sender env) (bond w)) + v));
         SStore slot_guard ].
Proof.
  intros Hg Hreg Hmin [Hbal Hal] Hfit.
  unfold after_stake, pulled, registered, agent_at, balance_of, allowance_of in *.
  unfold stake. munfold. mstep Hg. mstep Hreg.
  mstep (proj2 (Z.leb_le _ _) Hmin).
  mstep (proj2 (Z.ltb_ge _ _) Hbal).
  destruct Hal as [Hal|Hal].
  - rewrite !(bool_decide_true _ Hal). gsimpl.
    mstep (proj2 (Z.leb_le _ _) Hfit). rewrite lookup_insert_eq. gsimpl.
    guard_out Hg.
  - mstep (proj2 (Z.ltb_ge _ _) Hal). rewrite andb_false_r. gsimpl.
    mstep (proj2 (Z.leb_le _ _) Hfit). rewrite lookup_insert_eq. gsimpl.
    destruct (bool_decide _); guard_out Hg.
Qed.

(** The world a successful [requestUnstake] leaves. *)
Definition after_request (s : address) (now : Z) (w : World) : World :=
  mkWorld (set_unstakeRequestedAt (<[s := now]> (unstakeRequestedAt (bond w))) (bond w))
          (usdc w).

Lemma requestUnstake_run env w :
  registered (msg_sender env) (bond w) ->
  0 < Agent.staked (agent_at (msg_sender env) (bond w)) ->
  run (requestUnstake env) w
  = Ok tt (after_request (msg_sender env) (block_timestamp env) w)
       [ SStore (slot_unstakeRequestedAt (msg_sender env));
         Emit (UnstakeRequested (msg_sender env) (block_timestamp env)) ].
Proof.
  intros Hreg Hst. unfold registered, agent_at in *.
  unfold requestUnstake. munfold. gsimpl. mstep Hreg.
  mstep (proj2 (Z.ltb_lt _ _) Hst). reflexivity.
Qed.

(** The world a successful [unstake] leaves. *)
Definition after_unstake (s : address) (v : Z) (w : World) : World :=
  let rest := Agent.staked (agent_at s (bond w)) - v in
  let s1 := update_agent s (Agent.set_staked rest) (bond w) in
  mkWorld
    (if rest =? 0
     then set_unstakeRequestedAt (<[s := 0]> (unstakeRequestedAt s1)) s1
     else s1)
    (paid s v (usdc w)).

Definition unstake_trace (s : address) (v rest : Z) : list Action :=
  [ SStore slot_guard; SStore (slot_staked s); CallTransfer s v ]
  ++ (if rest =? 0 then [SStore (slot_unstakeRequestedAt s)] else [])
  ++ [ Emit (Unstaked s v rest); SStore slot_guard ].

Lemma unstake_run env v w :
  entered (bond w) = false ->
  registered (msg_sender env) (bond w) ->
  v <= Agent.staked (agent_at (msg_sender env) (bond w)) ->
  0 < requested_at (msg_sender env) (bond w) ->
  requested_at (msg_sender env) (bond w) + UNSTAKE_COOLDOWN <= MAX_UINT256 ->
  requested_at (msg_sender env) (bond w) + UNSTAKE_COOLDOWN <= block_timestamp env ->
  v <= held w ->
  run (unstake env v) w
  = Ok tt (after_unstake (msg_sender env) v w)
       (unstake_trace (msg_sender env) v
          (Agent.staked (agent_at (msg_sender env) (bond w)) - v)).
Proof.
  intros Hg Hreg Hv Hrq Hfit Hcool Hheld.
  unfold after_unstake, unstake_trace, paid, registered, agent_at, requested_at,
         held, balance_of in *.
  unfold unstake. munfold. mstep Hg. mstep Hreg.
  mstep (proj2 (Z.leb_le _ _) Hv).
  mstep (proj2 (Z.ltb_lt _ _) Hrq).
  mstep (proj2 (Z.leb_le _ _) Hfit).
  mstep (proj2 (Z.leb_le _ _) Hcool).
  mstep (proj2 (Z.leb_le _ _) Hv).
  mstep (proj2 (Z.ltb_ge _ _) Hheld).
  rewrite !lookup_insert_eq. gsimpl.
  destruct (_ =? 0); gsimpl; rewrite ?lookup_insert_eq; gsimpl; guard_out Hg.
Qed.

(** The deal [createDeal] appends. *)
Definition new_deal (env : Env) (cp : address) (v : Z) (desc : string) (e : Z)
    (w : World) : Deal.t :=
  Deal.mk (Z.of_nat (length (deals (bond w)))) (msg_sender env) cp v desc Active
          (block_timestamp env)
          (block_timestamp env + (if 0 <? e then e else DEFAULT_EXPIRY))
          false false.

(** The world a successful [createDeal] leaves. *)
Definition after_createDeal (env : Env) (cp : address) (v : Z) (desc : string)
    (e : Z) (w : World) : World :=
  mkWorld (set_deals (deals (bond w) ++ [new_deal env cp v desc e w]) (bond w))
          (pulled (msg_sender env) v (usdc w)).

Lemma createDeal_run env cp v desc e w :
  entered (bond w) = false ->
  registered (msg_sender env) (bond w) ->
  registered cp (bond w) ->
  msg_sender env <> cp ->
  0 < v ->
  can_pay (msg_sender env) v (usdc w) ->
  block_timestamp env + (if 0 <? e then e else DEFAULT_EXPIRY) <= MAX_UINT256 ->
  run (createDeal env cp v desc e) w
  = Ok (Z.of_nat (length (deals (bond w)))) (after_createDeal env cp v desc e w)
       [ SStore slot_guard; CallTransferFrom (msg_sender env) v; SStore slot_deals;
         Emit (DealCreated (Z.of_nat (length (deals (bond w)))) (msg_sender env)
                 cp v desc);
         SStore slot_guard ].
Proof.
  intros Hg Hreg Hcp Hne Hv [Hbal Hal] Hfit.
  unfold after_createDeal, new_deal, pulled, registered, agent_at, balance_of,
         allowance_of in *.
  unfold createDeal. munfold. mstep Hg. mstep Hreg. mstep Hcp.
  mstep (proj2 (N.eqb_neq _ _) Hne).
  mstep (proj2 (Z.ltb_lt _ _) Hv).
  mstep (proj2 (Z.ltb_ge _ _) Hbal).
  destruct Hal as [Hal|Hal].
  - rewrite !(bool_decide_true _ Hal). gsimpl.
    mstep (proj2 (Z.leb_le _ _) Hfit). guard_out Hg.
  - mstep (proj2 (Z.ltb_ge _ _) Hal). rewrite andb_false_r. gsimpl.
    mstep (proj2 (Z.leb_le _ _) Hfit).
    destruct (bool_decide _); guard_out Hg.
Qed.

(** When the expiry leaves [uint256], the checked addition reverts the call
    after the funds have been pulled. *)
Lemma createDeal_overflow env cp v desc e w :
  entered (bond w) = false ->
  registered (msg_sender env) (bond w) ->
  registered cp (bond w) ->
  msg_sender env <> cp ->
  0 < v ->
  can_pay (msg_sender env) v (usdc w) ->
  MAX_UINT256 < block_timestamp env + (if 0 <? e then e else DEFAULT_EXPIRY) ->
  run (createDeal env cp v desc e) w
  = Revert (Panic 0x11) [SStore slot_guard; CallTransferFrom (msg_sender env) v].
Proof.
  intros Hg Hreg Hcp Hne Hv [Hbal Hal] Hfit.
  unfold registered, agent_at, balance_of, allowance_of in *.
  unfold createDeal. munfold. mstep Hg. mstep Hreg. mstep Hcp.
  mstep (proj2 (N.eqb_neq _ _) Hne).
  mstep (proj2 (Z.ltb_lt _ _) Hv).
  mstep (proj2 (Z.ltb_ge _ _) Hbal).
  destruct Hal as [Hal|Hal].
  - rewrite !(bool_decide_true _ Hal). gsimpl.
    mstep (proj2 (Z.leb_gt _ _) Hfit). reflexivity.
  - mstep (proj2 (Z.ltb_ge _ _) Hal). rewrite andb_false_r. gsimpl.
    mstep (proj2 (Z.leb_gt _ _) Hfit). reflexivity.
Qed.

(** The world a successful [cancelExpiredDeal] leaves. *)
Definition after_cancel (i : Z) (d : Deal.t) (w : World) : World :=
  mkWorld (update_deal (Z.to_nat i) (Deal.set_status Expired) (bond w))
          (paid (Deal.creator d) (Deal.amount d) (usdc w)).

Lemma cancelExpiredDeal_run env i w d :
  deals (bond w) !! Z.to_nat i = Some d ->
  Deal.status d = Active ->
  Deal.expiresAt d <= block_timestamp env ->
  Deal.amount d <= held w ->
  run (cancelExpiredDeal env i) w
  = Ok tt (after_cancel i d w)
       [ SStore (slot_status (Z.to_nat i));
         CallTransfer (Deal.creator d) (Deal.amount d);
         Emit (DealExpired i) ].
Proof.
  intros Hi Hact Ht Hheld. pose proof (index_in_range _ _ _ Hi) as Hlt.
  unfold after_cancel, paid, held, balance_of in *.
  unfold cancelExpiredDeal. munfold. mstep Hlt. mstep Hi.
  mstep bool_decide_true by done.
  mstep (proj2 (Z.leb_le _ _) Ht).
  mstep (proj2 (Z.ltb_ge _ _) Hheld).
  reflexivity.
Qed.

(** The flag a party's confirmation sets. *)
Definition confirm_by (sender : address) (d : Deal.t) : Deal.t :=
  if (sender =? Deal.creator d)%N then Deal.set_creatorConfirmed true d
  else Deal.set_counterpartyConfirmed true d.

Definition confirm_slot (sender : address) (i : Z) (d : Deal.t) : Slot :=
  if (sender =? Deal.creator d)%N then slot_creatorConfirmed (Z.to_nat i)
  else slot_counterpartyConfirmed (Z.to_nat i).

Lemma confirmDeal_first env i w d :
  deals (bond w) !! Z.to_nat i = Some d ->
  Deal.status d = Active ->
  party (msg_sender env) d = true ->
  Deal.creatorConfirmed (confirm_by (msg_sender env) d)
  && Deal.counterpartyConfirmed (confirm_by (msg_sender env) d) = false ->
  run (confirmDeal env i) w
  = Ok tt (mkWorld (update_deal (Z.to_nat i) (confirm_by (msg_sender env)) (bond w))
                   (usdc w))
       [ SStore (confirm_slot (msg_sender env) i d) ].
Proof.
  intros Hi Hact Hparty Hnot. pose proof (index_in_range _ _ _ Hi) as Hlt.
  unfold party, confirm_slot in *.
  unfold confirmDeal. munfold. mstep Hlt. mstep Hi.
  mstep bool_decide_true by done.
  mstep Hparty.
  destruct (msg_sender env =? Deal.creator d)%N eqn:Hs; gsimpl.
  all: rewrite list_lookup_alter_eq, Hi; simpl; gsimpl.
  all: unfold confirm_by in Hnot; rewrite Hs in Hnot; simpl in Hnot; rewrite Hnot; gsimpl.
  all: unfold update_deal.
  all: match goal with
       | |- context [alter ?f ?i ?l] =>
           rewrite (list_alter_ext f (confirm_by (msg_sender env)) l l i);
           [reflexivity | | done]
       end.
  all: intros x Hx; simplify_eq; unfold confirm_by; by rewrite Hs.
Qed.

Lemma escrowed_nonneg s ds : Forall (deal_ok s) ds -> 0 <= escrowed ds.
Proof.
  induction 1 as [|d l (Hd & _) _ IH]; simpl; [lia|].
  unfold escrow_of. destruct (Deal.is_active d); lia.
Qed.

(** The vault covers every stake. *)
Lemma held_covers_stake w a :
  Inv w -> 0 <= Agent.staked (agent_at a (bond w)) <= held w.
Proof.
  intros HI. rewrite (inv_conservation _ HI).
  pose proof (total_staked_bounds _ a (inv_stakes _ HI)).
  pose proof (escrowed_nonneg _ _ (inv_deals _ HI)).
  unfold agent_at. lia.
Qed.

Lemma requested_at_bounds w a :
  Inv w -> 0 <= requested_at a (bond w) <= MAX_TIMESTAMP.
Proof.
  intros HI. unfold requested_at.
  destruct (unstakeRequestedAt (bond w) !! a) as [r|] eqn:Hr; simpl.
  - exact (inv_requested _ HI _ _ Hr).
  - pose proof MAX_TIMESTAMP_eq. lia.
Qed.

(* ----------------------------------------------------------------- *)
(** *** Staking *)

Lemma balance_pulled from v k x :
  balance_of x (pulled from v k)
  = balance_of x k - (if decide (x = from) then v else 0)
                   + (if decide (x = MOLTBOND_ADDRESS) then v else 0).
Proof. unfold balance_of, pulled. simpl. apply lookup_move. Qed.

Lemma balance_paid to v k x :
  balance_of x (paid to v k)
  = balance_of x k - (if decide (x = MOLTBOND_ADDRESS) then v else 0)
                   + (if decide (x = to) then v else 0).
Proof. unfold balance_of, paid. simpl. apply lookup_move. Qed.

Lemma agent_at_update a b f s :
  agent_at a (update_agent b f s)
  = if decide (a = b) then f (agent_at b s) else agent_at a s.
Proof.
  unfold agent_at, update_agent. simpl. rewrite lookup_insert.
  repeat case_decide; simplify_eq; done.
Qed.

Lemma set_staked_same (a : Agent.t) : Agent.set_staked (Agent.staked a) a = a.
Proof. by destruct a. Qed.

Lemma update_agent_same a s :
  registered a s -> update_agent a (Agent.set_staked (Agent.staked (agent_at a s))) s = s.
Proof.
  unfold registered, update_agent, set_agents, agent_at.
  destruct (agents s !! a) as [x|] eqn:Hx; cbn [default from_option id]; [|discriminate].
  intros _. rewrite set_staked_same, insert_id by done. apply storage_eta.
Qed.

(** X12.  For a registered caller of a reachable world and an amount of at least
    MIN_STAKE that the caller's balance and allowance cover and that, added
    to the caller's stake, fits uint256: stake succeeds, emits Staked with
    the new total, adds the amount to the caller's stake, resets the
    caller's unstake request to 0, moves the amount from the caller to the
    contract, and changes no deal and no other agent. *)
Theorem stake_spec env v w :
  let s := msg_sender env in
  let a := agent_at s (bond w) in
  reachable w ->
  registered s (bond w) -> MIN_STAKE <= v -> can_pay s v (usdc w) ->
  Agent.staked a + v <= MAX_UINT256 ->
  exists w' t,
    run (stake env v) w = Ok tt w' t /\
    events_of t = [Staked s v (Agent.staked a + v)] /\
    agent_at s (bond w') = Agent.set_staked (Agent.staked a + v) a /\
    requested_at s (bond w') = 0 /\
    balance_of s (usdc w') = balance_of s (usdc w) - v /\
    held w' = held w + v /\
    deals (bond w') = deals (bond w) /\
    (forall x, x <> s ->
       agent_at x (bond w') = agent_at x (bond w) /\
       requested_at x (bond w') = requested_at x (bond w)).
Proof.
  intros s a Hr Hreg Hmin Hpay Hfit. pose proof (reachable_Inv _ Hr) as HI.
  pose proof (registered_not_self _ _ HI Hreg) as Hself.
  do 2 eexists. split; [by apply stake_run; [apply (inv_guard _ HI)|..]|].
  split; [reflexivity|].
  unfold after_stake, held. cbn [bond usdc].
  rewrite !balance_pulled.
  repeat split.
  - unfold agent_at. simpl. by rewrite lookup_insert_eq.
  - unfold requested_at. simpl. by rewrite lookup_insert_eq.
  - fold s. repeat case_decide; try done; lia.
  - fold s. repeat case_decide; try done; lia.
  - unfold agent_at. simpl. by rewrite lookup_insert_ne.
  - unfold requested_at. simpl. by rewrite lookup_insert_ne.
Qed.

Lemma stake_spec_witness :
  exists w' t,
    run (stake (mkEnv alice t0) (USDC 10)) with_deal = Ok tt w' t /\
    Agent.staked (agent_at alice (bond w')) = USDC 110 /\
    held w' = held with_deal + USDC 10.
Proof.
  destruct (stake_spec (mkEnv alice t0) (USDC 10) with_deal)
    as (w' & t & Hrun & _ & Ha & _ & _ & Hh & _).
  - exact with_deal_reachable.
  - reflexivity.
  - vm_compute; discriminate.
  - split; [vm_compute; discriminate | left; reflexivity].
  - vm_compute; discriminate.
  - exists w', t. split; [exact Hrun|]. split; [|exact Hh].
    refine (eq_trans (f_equal Agent.staked Ha) _). vm_compute. reflexivity.
Defined.

(** X13.  After a successful stake the caller has no unstake request any more:
    an unstake by the same caller, at whatever time, reverts with
    "No unstake requested" when the amount is within the stake (and with
    "Insufficient stake" when it is not) and changes nothing. *)
Theorem stake_resets_cooldown env env' v v' w u w' t :
  run (stake env v) w = Ok u w' t ->
  msg_sender env' = msg_sender env ->
  requested_at (msg_sender env) (bond w') = 0 /\
  run (unstake env' v') w'
  = Revert (RequireFailed
              (if v' <=? Agent.staked (agent_at (msg_sender env) (bond w'))
               then "No unstake requested" else "Insufficient stake"))
           [SStore slot_guard] /\
  transact env' (call_unstake v') w' = w'.
Proof.
  intros H Hs.
  assert (Hrun : requested_at (msg_sender env) (bond w') = 0 /\
    run (unstake env' v') w'
    = Revert (RequireFailed
              (if v' <=? Agent.staked (agent_at (msg_sender env) (bond w'))
               then "No unstake requested" else "Insufficient stake"))
           [SStore slot_guard]).
  { unfold run, stake in H. minv H. wsimpl.
    unfold unstake. munfold. gsimpl. rewrite Hs. gsimpl.
    rewrite !lookup_insert_eq. gsimpl. mstep E.
    split; [done|].
    destruct (v' <=? _) eqn:Hle; gsimpl; rewrite ?lookup_insert_eq; gsimpl;
      reflexivity. }
  destruct Hrun as [Hq Hrun]. split; [done|]. split; [done|].
  unfold transact. simpl dispatch. by rewrite Hrun.
Qed.

Lemma stake_resets_cooldown_witness :
  let w1 := transact (mkEnv alice t0) call_requestUnstake with_deal in
  let w2 := transact (mkEnv alice (t0 + 10)) (call_stake (USDC 1)) w1 in
  run (unstake (mkEnv alice (t0 + 2 * UNSTAKE_COOLDOWN)) (USDC 1)) w2
  = Revert (RequireFailed "No unstake requested") [SStore slot_guard].
Proof.
  intros w1 w2.
  assert (H : run (stake (mkEnv alice (t0 + 10)) (USDC 1)) w1
              = Ok tt w2 [ SStore slot_guard; CallTransferFrom alice (USDC 1);
                           SStore (slot_staked alice);
                           SStore (slot_unstakeRequestedAt alice);
                           Emit (Staked alice (USDC 1) (USDC 101));
                           SStore slot_guard ])
    by (vm_compute; reflexivity).
  destruct (stake_resets_cooldown (mkEnv alice (t0 + 10))
              (mkEnv alice (t0 + 2 * UNSTAKE_COOLDOWN)) (USDC 1) (USDC 1)
              w1 tt w2 _ H eq_refl) as (_ & Hrun & _).
  refine (eq_trans Hrun _). vm_compute. reflexivity.
Defined.

Lemma cooldown_fits w a :
  Inv w -> requested_at a (bond w) + UNSTAKE_COOLDOWN <= MAX_UINT256.
Proof.
  intros HI. pose proof (requested_at_bounds w a HI).
  pose proof MAX_TIMESTAMP_eq. pose proof MAX_UINT256_eq.
  unfold UNSTAKE_COOLDOWN. lia.
Qed.

(** X14.  In every reachable world a registered caller whose unstake request is
    at least UNSTAKE_COOLDOWN old can withdraw any amount up to its stake:
    the call succeeds (the contract always holds enough), pays the amount to
    the caller, lowers the stake by it, clears the request exactly when the
    stake reaches 0, and changes no deal and no other agent. *)
Theorem unstake_spec env v w :
  let s := msg_sender env in
  let a := agent_at s (bond w) in
  let rest := Agent.staked a - v in
  reachable w ->
  registered s (bond w) ->
  0 <= v <= Agent.staked a ->
  0 < requested_at s (bond w) ->
  requested_at s (bond w) + UNSTAKE_COOLDOWN <= block_timestamp env ->
  exists w',
    run (unstake env v) w = Ok tt w' (unstake_trace s v rest) /\
    agent_at s (bond w') = Agent.set_staked rest a /\
    requested_at s (bond w')
      = (if rest =? 0 then 0 else requested_at s (bond w)) /\
    balance_of s (usdc w') = balance_of s (usdc w) + v /\
    held w' = held w - v /\
    deals (bond w') = deals (bond w) /\
    (forall x, x <> s ->
       agent_at x (bond w') = agent_at x (bond w) /\
       requested_at x (bond w') = requested_at x (bond w)).
Proof.
  intros s a rest Hr Hreg Hv Hrq Hcool. pose proof (reachable_Inv _ Hr) as HI.
  pose proof (registered_not_self _ _ HI Hreg) as Hself.
  pose proof (held_covers_stake w s HI) as Hheld.
  eexists. split.
  { apply unstake_run;
      [apply (inv_guard _ HI) | done | apply Hv | done | by apply cooldown_fits
      | done | unfold a in Hv; lia]. }
  unfold after_unstake, held. fold s a rest. cbn [bond usdc].
  rewrite !balance_paid.
  destruct (rest =? 0); unfold agent_at, requested_at; simpl;
    rewrite ?lookup_insert_eq; fold s.
  all: repeat split; try done.
  all: rewrite ?lookup_insert_ne by done; try done.
  all: repeat case_decide; try done; lia.
Qed.

Lemma unstake_spec_witness :
  let w1 := transact (mkEnv alice t0) call_requestUnstake with_deal in
  exists w',
    run (unstake (mkEnv alice (t0 + UNSTAKE_COOLDOWN)) (USDC 40)) w1
    = Ok tt w' (unstake_trace alice (USDC 40) (USDC 60)) /\
    balance_of alice (usdc w') = balance_of alice (usdc w1) + USDC 40.
Proof.
  intros w1.
  assert (Hr1 : reachable w1)
    by (apply reachable_transact; [exact with_deal_reachable | done | done]).
  destruct (unstake_spec (mkEnv alice (t0 + UNSTAKE_COOLDOWN)) (USDC 40) w1)
    as (w' & Hrun & _ & _ & Hb & _).
  - exact Hr1.
  - reflexivity.
  - split; vm_compute; discriminate.
  - vm_compute; reflexivity.
  - vm_compute; discriminate.
  - exists w'. split; [|exact Hb].
    refine (eq_trans Hrun _). reflexivity.
Defined.

Lemma unstake_cooling env v w :
  entered (bond w) = false ->
  registered (msg_sender env) (bond w) ->
  v <= Agent.staked (agent_at (msg_sender env) (bond w)) ->
  0 < requested_at (msg_sender env) (bond w) ->
  requested_at (msg_sender env) (bond w) + UNSTAKE_COOLDOWN <= MAX_UINT256 ->
  block_timestamp env < requested_at (msg_sender env) (bond w) + UNSTAKE_COOLDOWN ->
  run (unstake env v) w
  = Revert (RequireFailed "Cooldown not elapsed") [SStore slot_guard].
Proof.
  intros Hg Hreg Hv Hrq Hfit Hcool.
  unfold registered, agent_at, requested_at in *.
  unfold unstake. munfold. mstep Hg. mstep Hreg.
  mstep (proj2 (Z.leb_le _ _) Hv).
  mstep (proj2 (Z.ltb_lt _ _) Hrq).
  mstep (proj2 (Z.leb_le _ _) Hfit).
  by mstep (proj2 (Z.leb_gt _ _) Hcool).
Qed.

(** X15.  The cooldown counts from the latest request.  After a successful
    requestUnstake at a time t > 0, whatever request was recorded before: an
    unstake of an amount within the stake reverts with "Cooldown not
    elapsed" and changes nothing at every time before t + UNSTAKE_COOLDOWN,
    and from then on it pays the amount out. *)
Theorem cooldown_from_latest_request env env' v w u w' t :
  let s := msg_sender env in
  reachable w -> valid_env env ->
  run (requestUnstake env) w = Ok u w' t ->
  0 < block_timestamp env ->
  msg_sender env' = s ->
  0 <= v <= Agent.staked (agent_at s (bond w)) ->
  requested_at s (bond w') = block_timestamp env /\
  (block_timestamp env' < block_timestamp env + UNSTAKE_COOLDOWN ->
   run (unstake env' v) w'
   = Revert (RequireFailed "Cooldown not elapsed") [SStore slot_guard] /\
   transact env' (call_unstake v) w' = w') /\
  (block_timestamp env + UNSTAKE_COOLDOWN <= block_timestamp env' ->
   exists w'',
     transact env' (call_unstake v) w' = w'' /\
     Agent.staked (agent_at s (bond w''))
       = Agent.staked (agent_at s (bond w)) - v /\
     balance_of s (usdc w'') = balance_of s (usdc w) + v).
Proof.
  intros s Hr [Hsnd Hnow] H Hpos Hs Hv. pose proof (reachable_Inv _ Hr) as HI.
  pose proof MAX_TIMESTAMP_eq as Hmt. pose proof MAX_UINT256_eq as Hmax.
  pose proof (inv_guard _ HI) as Hg.
  pose proof (held_covers_stake w s HI) as Hheld.
  unfold run, requestUnstake in H. minv H. fold s in E, E0 |- *.
  set (w' := {| bond := _; usdc := _ |}).
  assert (Hreg : registered s (bond w')) by exact E.
  assert (Hself : s <> MOLTBOND_ADDRESS)
    by (eapply registered_not_self; [exact HI|exact E]).
  assert (Hag : agent_at s (bond w') = agent_at s (bond w)) by reflexivity.
  assert (Hrq : requested_at s (bond w') = block_timestamp env).
  { unfold requested_at, w'. simpl. by rewrite lookup_insert_eq. }
  split; [done|]. split; intros Ht.
  - assert (Hrun : run (unstake env' v) w'
      = Revert (RequireFailed "Cooldown not elapsed") [SStore slot_guard]).
    { apply unstake_cooling; rewrite ?Hs; fold s; rewrite ?Hrq, ?Hag;
        try done; try lia; unfold UNSTAKE_COOLDOWN; lia. }
    split; [done|]. unfold transact. simpl dispatch. by rewrite Hrun.
  - eexists. split; [reflexivity|].
    unfold transact. simpl dispatch.
    rewrite unstake_run; rewrite ?Hs; fold s; rewrite ?Hrq, ?Hag;
      try done; try lia; try (unfold UNSTAKE_COOLDOWN; lia);
      try (change (held w') with (held w); lia).
    unfold after_unstake. cbn [bond usdc]. fold s. rewrite Hag.
    rewrite (balance_paid s v (usdc w') s).
    split.
    + destruct (_ =? 0); unfold agent_at; simpl; by rewrite lookup_insert_eq.
    + change (usdc w') with (usdc w). repeat case_decide; try done; lia.
Qed.

Lemma cooldown_from_latest_request_witness :
  let w1 := transact (mkEnv alice (t0 + 5)) call_requestUnstake with_deal in
  run (unstake (mkEnv alice (t0 + 100)) (USDC 40)) w1
  = Revert (RequireFailed "Cooldown not elapsed") [SStore slot_guard].
Proof.
  assert (He : valid_env (mkEnv alice (t0 + 5))) by done.
  intros w1.
  assert (H : run (requestUnstake (mkEnv alice (t0 + 5))) with_deal
              = Ok tt w1 [ SStore (slot_unstakeRequestedAt alice);
                           Emit (UnstakeRequested alice (t0 + 5)) ])
    by (vm_compute; reflexivity).
  destruct (cooldown_from_latest_request (mkEnv alice (t0 + 5)) (mkEnv alice (t0 + 100))
              (USDC 40) with_deal tt w1 _ with_deal_reachable He H)
    as (_ & Hearly & _).
  - vm_compute; reflexivity.
  - reflexivity.
  - split; vm_compute; discriminate.
  - apply Hearly. vm_compute. reflexivity.
Defined.

Lemma transact_Ok env c w u w' t :
  run (dispatch env c) w = Ok u w' t -> transact env c w = w'.
Proof. intros H. unfold transact. by rewrite H. Qed.

Lemma set_staked_twice v v' (a : Agent.t) :
  Agent.set_staked v' (Agent.set_staked v a) = Agent.set_staked v' a.
Proof. reflexivity. Qed.

(** X16.  For a registered agent of a reachable world and an amount of at least
    MIN_STAKE that it can pay: stake(v), requestUnstake at a time t > 0 and,
    at t + UNSTAKE_COOLDOWN or later, unstake(v) by that agent leave every
    agent record, the agent list, the deals and every token balance as they
    were before the stake. *)
Theorem stake_unstake_round_trip env1 env2 env3 v w :
  let s := msg_sender env1 in
  reachable w -> valid_env env1 -> valid_env env2 ->
  msg_sender env2 = s -> msg_sender env3 = s ->
  registered s (bond w) -> MIN_STAKE <= v -> can_pay s v (usdc w) ->
  Agent.staked (agent_at s (bond w)) + v <= MAX_UINT256 ->
  0 < block_timestamp env2 ->
  block_timestamp env2 + UNSTAKE_COOLDOWN <= block_timestamp env3 ->
  let w3 := transact env3 (call_unstake v)
              (transact env2 call_requestUnstake
                 (transact env1 (call_stake v) w)) in
  agents (bond w3) = agents (bond w) /\
  agentList (bond w3) = agentList (bond w) /\
  deals (bond w3) = deals (bond w) /\
  (forall x, balance_of x (usdc w3) = balance_of x (usdc w)).
Proof.
  intros s Hr He1 He2 Hs2 Hs3 Hreg Hmin Hpay Hfit Hpos Hcool.
  pose proof (reachable_Inv _ Hr) as HI.
  pose proof (held_covers_stake w s HI) as Hst.
  pose proof MAX_TIMESTAMP_eq as Hmt. pose proof MAX_UINT256_eq as Hmax.
  assert (Hv : is_uint256 v) by (unfold is_uint256, MIN_STAKE in *; lia).
  set (w1 := after_stake s v w).
  assert (H1 : transact env1 (call_stake v) w = w1).
  { eapply transact_Ok. simpl dispatch.
    by apply stake_run; [apply (inv_guard _ HI)|..]. }
  assert (HI1 : Inv w1) by (rewrite <- H1; by apply transact_Inv).
  assert (Hag1 : agent_at s (bond w1)
                 = Agent.set_staked (Agent.staked (agent_at s (bond w)) + v)
                     (agent_at s (bond w))).
  { unfold w1, after_stake, agent_at. simpl. by rewrite lookup_insert_eq. }
  assert (Hreg1 : registered s (bond w1)).
  { unfold registered. rewrite Hag1. exact Hreg. }
  set (w2 := after_request s (block_timestamp env2) w1).
  assert (H2 : transact env2 call_requestUnstake w1 = w2).
  { eapply transact_Ok. simpl dispatch. unfold w2. rewrite <- Hs2.
    apply requestUnstake_run; rewrite ?Hs2; [done|].
    rewrite Hag1. simpl. unfold MIN_STAKE in *. lia. }
  assert (HI2 : Inv w2) by (rewrite <- H2; by apply transact_Inv).
  assert (Hag2 : agent_at s (bond w2) = agent_at s (bond w1)) by reflexivity.
  assert (Hrq2 : requested_at s (bond w2) = block_timestamp env2).
  { unfold w2, after_request, requested_at. simpl. by rewrite lookup_insert_eq. }
  assert (H3 : transact env3 (call_unstake v) w2 = after_unstake s v w2).
  { eapply transact_Ok. simpl dispatch. rewrite <- Hs3.
    apply unstake_run; rewrite ?Hs3, ?Hrq2, ?Hag2, ?Hag1; simpl.
    - apply (inv_guard _ HI2).
    - exact Hreg1.
    - lia.
    - done.
    - destruct He2. unfold UNSTAKE_COOLDOWN. lia.
    - done.
    - pose proof (held_covers_stake w2 s HI2) as Hh. rewrite Hag2, Hag1 in Hh.
      simpl in Hh. lia. }
  intros w3. unfold w3. rewrite H1, H2, H3.
  assert (Hagents : agents (bond (after_unstake s v w2)) = agents (bond w)).
  { unfold after_unstake. rewrite Hag2, Hag1. cbn [Agent.staked Agent.set_staked].
    assert (Hm : agents (update_agent s
                   (Agent.set_staked (Agent.staked (agent_at s (bond w)) + v - v))
                   (bond w2)) = agents (bond w)).
    { unfold update_agent. cbn [agents set_agents]. rewrite Hag2, Hag1.
      rewrite set_staked_twice.
      replace (Agent.staked (agent_at s (bond w)) + v - v)
        with (Agent.staked (agent_at s (bond w))) by lia.
      rewrite set_staked_same.
      unfold w2, after_request, w1, after_stake.
      cbn [bond agents set_unstakeRequestedAt update_agent set_agents].
      rewrite insert_insert_eq. apply insert_id.
      unfold registered, agent_at in *.
      destruct (agents (bond w) !! s); [done | discriminate]. }
    cbn [bond]. destruct (_ =? 0); cbn [agents set_unstakeRequestedAt]; exact Hm. }
  split; [exact Hagents|].
  split; [unfold after_unstake; cbn [bond]; by destruct (_ =? 0)|].
  split; [unfold after_unstake; cbn [bond]; by destruct (_ =? 0)|].
  intros x. unfold after_unstake. cbn [usdc].
  rewrite balance_paid. change (usdc w2) with (pulled s v (usdc w)).
  rewrite balance_pulled. repeat case_decide; lia.
Qed.

Lemma stake_unstake_round_trip_witness :
  let w3 := transact (mkEnv alice (t0 + 1 + UNSTAKE_COOLDOWN)) (call_unstake (USDC 10))
              (transact (mkEnv alice (t0 + 1)) call_requestUnstake
                 (transact (mkEnv alice t0) (call_stake (USDC 10)) with_deal)) in
  agents (bond w3) = agents (bond with_deal) /\
  balance_of alice (usdc w3) = balance_of alice (usdc with_deal).
Proof.
  destruct (stake_unstake_round_trip (mkEnv alice t0) (mkEnv alice (t0 + 1))
              (mkEnv alice (t0 + 1 + UNSTAKE_COOLDOWN)) (USDC 10) with_deal)
    as (Ha & _ & _ & Hb).
  - exact with_deal_reachable.
  - done.
  - done.
  - reflexivity.
  - reflexivity.
  - reflexivity.
  - vm_compute; discriminate.
  - split; [vm_compute; discriminate | left; reflexivity].
  - vm_compute; discriminate.
  - vm_compute; reflexivity.
  - vm_compute; discriminate.
  - split; [exact Ha | exact (Hb alice)].
Defined.

(* ----------------------------------------------------------------- *)
(** *** Deals *)

(** X17.  For a registered creator and a registered, different counterparty of a
    reachable world and a positive amount covered by the creator's balance
    and allowance.  When the block timestamp plus the expiry duration
    (_expiryDuration, or 7 days when it is 0) fits uint256, createDeal
    succeeds and returns the previous deal count as the id; it appends an
    Active deal with that id, no confirmation and that expiry, emits
    DealCreated, moves the amount from the creator to the contract, raises
    getDealCount by one and changes no agent record.  When the sum does not
    fit uint256, the call reverts with [Panic 0x11] after it has pulled the
    amount, and changes nothing. *)
Theorem createDeal_spec env cp v desc e w :
  let s := msg_sender env in
  let id := Z.of_nat (length (deals (bond w))) in
  let expiry := if 0 <? e then e else DEFAULT_EXPIRY in
  reachable w ->
  registered s (bond w) -> registered cp (bond w) -> s <> cp ->
  0 < v -> can_pay s v (usdc w) ->
  (block_timestamp env + expiry <= MAX_UINT256 ->
   exists w' t,
     run (createDeal env cp v desc e) w = Ok id w' t /\
     events_of t = [DealCreated id s cp v desc] /\
     deals (bond w')
     = deals (bond w)
       ++ [Deal.mk id s cp v desc Active (block_timestamp env)
                   (block_timestamp env + expiry) false false] /\
     run getDealCount w' = Ok (id + 1) w' [] /\
     balance_of s (usdc w') = balance_of s (usdc w) - v /\
     held w' = held w + v /\
     agents (bond w') = agents (bond w)) /\
  (MAX_UINT256 < block_timestamp env + expiry ->
   run (createDeal env cp v desc e) w
   = Revert (Panic 0x11) [SStore slot_guard; CallTransferFrom s v] /\
   transact env (call_createDeal cp v desc e) w = w).
Proof.
  intros s id expiry Hr Hreg Hcp Hne Hv Hpay.
  pose proof (reachable_Inv _ Hr) as HI.
  pose proof (registered_not_self _ _ HI Hreg) as Hself.
  split.
  - intros Hfit.
    do 2 eexists. split; [by apply createDeal_run; [apply (inv_guard _ HI)|..]|].
    split; [reflexivity|]. split; [reflexivity|].
    unfold after_createDeal, held. cbn [bond usdc].
    rewrite !balance_pulled. fold s.
    split.
    + unfold getDealCount. munfold. simpl. rewrite length_app. simpl.
      do 2 f_equal. unfold id. lia.
    + repeat split; repeat case_decide; try done; lia.
  - intros Hfit.
    assert (Hrun : run (createDeal env cp v desc e) w
                   = Revert (Panic 0x11) [SStore slot_guard; CallTransferFrom s v])
      by (by apply createDeal_overflow; [apply (inv_guard _ HI)|..]).
    split; [exact Hrun|].
    unfold transact, dispatch, run, bind. unfold run in Hrun. by rewrite Hrun.
Qed.

Lemma createDeal_spec_witness :
  (exists w' t,
     run (createDeal (mkEnv bob (t0 + 10)) alice (USDC 5) "Review" 3600) with_deal
     = Ok 1 w' t /\
     run getDealCount w' = Ok 2 w' [] /\
     held w' = held with_deal + USDC 5) /\
  transact (mkEnv bob (t0 + 10)) (call_createDeal alice (USDC 5) "Review" MAX_UINT256)
    with_deal = with_deal.
Proof.
  split.
  - destruct (createDeal_spec (mkEnv bob (t0 + 10)) alice (USDC 5) "Review" 3600
                with_deal) as [Hok _].
    + exact with_deal_reachable.
    + reflexivity.
    + reflexivity.
    + discriminate.
    + reflexivity.
    + split; [vm_compute; discriminate | left; reflexivity].
    + destruct Hok as (w' & t & Hrun & _ & _ & Hc & _ & Hh & _).
      * vm_compute; discriminate.
      * exists w', t. split; [exact Hrun|]. split; [exact Hc | exact Hh].
  - destruct (createDeal_spec (mkEnv bob (t0 + 10)) alice (USDC 5) "Review"
                MAX_UINT256 with_deal) as [_ Hov].
    + exact with_deal_reachable.
    + reflexivity.
    + reflexivity.
    + discriminate.
    + reflexivity.
    + split; [vm_compute; discriminate | left; reflexivity].
    + apply Hov. vm_compute. reflexivity.
Defined.

(** X18.  A deal created between two registered agents of a reachable world,
    with an amount the creator can pay, and then, at or after its expiry,
    cancelled through cancelExpiredDeal by anyone gives the creator the
    amount back: every token balance and every agent record is as before
    the deal was created, and the deal stays in the list with status
    Expired. *)
Theorem create_expire_round_trip env env' cp v desc e w :
  let s := msg_sender env in
  let id := Z.of_nat (length (deals (bond w))) in
  let expiry := if 0 <? e then e else DEFAULT_EXPIRY in
  reachable w ->
  registered s (bond w) -> registered cp (bond w) -> s <> cp ->
  0 < v -> can_pay s v (usdc w) ->
  block_timestamp env + expiry <= MAX_UINT256 ->
  block_timestamp env + expiry <= block_timestamp env' ->
  let w2 := transact env' (call_cancelExpiredDeal id)
              (transact env (call_createDeal cp v desc e) w) in
  (forall x, balance_of x (usdc w2) = balance_of x (usdc w)) /\
  agents (bond w2) = agents (bond w) /\
  deals (bond w2)
  = deals (bond w)
    ++ [Deal.mk id s cp v desc Expired (block_timestamp env)
                (block_timestamp env + expiry) false false].
Proof.
  intros s id expiry Hr Hreg Hcp Hne Hv Hpay Hfit Hlate.
  pose proof (reachable_Inv _ Hr) as HI.
  pose proof (held_covers_stake w s HI) as Hst.
  pose proof (registered_not_self _ _ HI Hreg) as Hself.
  set (w1 := after_createDeal env cp v desc e w).
  assert (H1 : transact env (call_createDeal cp v desc e) w = w1).
  { unfold transact. simpl dispatch. unfold run, bind.
    pose proof (createDeal_run env cp v desc e w (inv_guard _ HI) Hreg Hcp Hne Hv
                  Hpay Hfit) as Hrun.
    unfold run in Hrun. by rewrite Hrun. }
  assert (Hi : deals (bond w1) !! Z.to_nat id = Some (new_deal env cp v desc e w)).
  { unfold w1, after_createDeal, id. simpl. rewrite Nat2Z.id.
    by rewrite lookup_app_r, Nat.sub_diag. }
  assert (Hheld : held w1 = held w + v).
  { unfold w1, after_createDeal, held. simpl. rewrite balance_pulled.
    repeat case_decide; try done; lia. }
  assert (H2 : transact env' (call_cancelExpiredDeal id) w1
               = after_cancel id (new_deal env cp v desc e w) w1).
  { eapply transact_Ok. simpl dispatch.
    apply cancelExpiredDeal_run; [exact Hi | done | exact Hlate |].
    rewrite Hheld. simpl. lia. }
  intros w2. unfold w2. rewrite H1, H2.
  unfold after_cancel. cbn [bond usdc Deal.creator Deal.amount new_deal].
  split; [|split].
  - intros x. rewrite balance_paid. change (usdc w1) with (pulled s v (usdc w)).
    rewrite balance_pulled. fold s. repeat case_decide; lia.
  - reflexivity.
  - unfold w1, after_createDeal. cbn [bond deals update_deal set_deals].
    unfold id. rewrite Nat2Z.id.
    rewrite alter_app_r_alt by lia. rewrite Nat.sub_diag. reflexivity.
Qed.

Lemma create_expire_round_trip_witness :
  let w2 := transact (mkEnv charlie (t0 + 3601)) (call_cancelExpiredDeal 1)
              (transact (mkEnv bob t0) (call_createDeal alice (USDC 5) "Review" 3600)
                 with_deal) in
  balance_of bob (usdc w2) = balance_of bob (usdc with_deal) /\
  agents (bond w2) = agents (bond with_deal).
Proof.
  destruct (create_expire_round_trip (mkEnv bob t0) (mkEnv charlie (t0 + 3601))
              alice (USDC 5) "Review" 3600 with_deal) as (Hb & Ha & _).
  - exact with_deal_reachable.
  - reflexivity.
  - reflexivity.
  - discriminate.
  - reflexivity.
  - split; [vm_compute; discriminate | left; reflexivity].
  - vm_compute; discriminate.
  - vm_compute; discriminate.
  - split; [exact (Hb bob) | exact Ha].
Defined.

(** X19.  The first confirmation of an Active deal, by a party while the other
    party has not confirmed, only sets the caller's flag: the deal stays
    Active, no token moves, no agent record changes and no event is
    emitted. *)
Theorem first_confirmation env i w d :
  deals (bond w) !! Z.to_nat i = Some d ->
  Deal.status d = Active ->
  (msg_sender env = Deal.creator d /\ Deal.counterpartyConfirmed d = false) \/
  (msg_sender env = Deal.counterparty d /\ msg_sender env <> Deal.creator d /\
   Deal.creatorConfirmed d = false) ->
  exists w',
    run (confirmDeal env i) w
    = Ok tt w' [SStore (confirm_slot (msg_sender env) i d)] /\
    deals (bond w') = <[Z.to_nat i := confirm_by (msg_sender env) d]> (deals (bond w)) /\
    Deal.status (confirm_by (msg_sender env) d) = Active /\
    agents (bond w') = agents (bond w) /\
    usdc w' = usdc w /\
    logs env (call_confirmDeal i) w = [].
Proof.
  intros Hi Hact Hwho.
  assert (Hrun : run (confirmDeal env i) w
    = Ok tt (mkWorld (update_deal (Z.to_nat i) (confirm_by (msg_sender env)) (bond w))
                     (usdc w))
         [SStore (confirm_slot (msg_sender env) i d)]).
  { apply confirmDeal_first; [done..| |].
    - unfold party. destruct Hwho as [[-> _]|[-> _]]; rewrite N.eqb_refl;
        by rewrite ?orb_true_r.
    - unfold confirm_by. destruct Hwho as [[-> Hf]|(Hs & Hne & Hf)].
      + rewrite N.eqb_refl. simpl. exact Hf.
      + rewrite (proj2 (N.eqb_neq _ _) Hne). simpl. rewrite Hf. reflexivity. }
  eexists. split; [exact Hrun|]. cbn [bond usdc].
  split.
  { unfold update_deal. cbn [deals set_deals]. rewrite list_insert_alter.
    apply list_alter_ext; [|done]. intros x Hx. congruence. }
  split; [unfold confirm_by; by destruct (_ =? _)%N|].
  split; [reflexivity|]. split; [reflexivity|].
  unfold logs. simpl dispatch. rewrite Hrun. unfold confirm_slot.
  by destruct (_ =? _)%N.
Qed.

Lemma first_confirmation_witness :
  exists w',
    run (confirmDeal (mkEnv alice (t0 + 60)) 0) with_deal
    = Ok tt w' [SStore (slot_creatorConfirmed 0)] /\
    usdc w' = usdc with_deal /\
    logs (mkEnv alice (t0 + 60)) (call_confirmDeal 0) with_deal = [].
Proof.
  destruct (first_confirmation (mkEnv alice (t0 + 60)) 0 with_deal the_deal)
    as (w' & Hrun & _ & _ & _ & Hu & Hl).
  - vm_compute; reflexivity.
  - reflexivity.
  - left. split; reflexivity.
  - exists w'. split; [exact Hrun|]. split; [exact Hu | exact Hl].
Defined.

(* ================================================================= *)
(** ** Whose funds and whose stake a call can touch *)

(** X20.  No transaction on a reachable world, whatever the function and its
    uint256 arguments, lowers the token balance of an address other than
    the caller's and the contract's own. *)
Theorem charges_only_the_caller env c w x :
  reachable w -> valid_env env -> valid_args c ->
  x <> msg_sender env -> x <> MOLTBOND_ADDRESS ->
  balance_of x (usdc w) <= balance_of x (usdc (transact env c w)).
Proof.
  intros Hr He Hc Hx Hm. pose proof (reachable_Inv _ Hr) as HI.
  unfold transact.
  destruct (run (dispatch env c) w) as [u w' t|] eqn:H; [|lia].
  unfold run in H.
  destruct c; simpl in H, Hc; unfold_calls H; minv H; wsimpl.
  all: repeat match goal with H : _ + _ <= MAX_UINT256 |- _ => clear H end.
  all: try match goal with
       | H : deals (bond _) !! _ = Some ?d |- _ =>
           destruct (deal_ok_lookup _ _ _ _ (inv_deals _ HI) H) as (? & _);
           rewrite ?list_lookup_alter_eq, ?H in *
       end; simplify_eq/=.
  all: rewrite ?lookup_move; repeat case_decide; subst; try done.
  all: unfold is_uint256 in *; bool_to_prop; try lia.
Qed.

Lemma charges_only_the_caller_witness :
  balance_of bob (usdc with_deal)
  <= balance_of bob
       (usdc (transact (mkEnv alice (t0 + 100)) (call_disputeDeal 0) with_deal)).
Proof.
  apply (charges_only_the_caller (mkEnv alice (t0 + 100)) (call_disputeDeal 0)
           with_deal bob with_deal_reachable); done.
Defined.

(** X21.  In a reachable world the stake of an agent goes down in a transaction
    (any function, uint256 arguments) only when the agent itself calls
    unstake, or when the other party of one of its Active deals calls
    disputeDeal on that deal. *)
Theorem stake_reduced_only_by env c w a :
  reachable w -> valid_env env -> valid_args c ->
  Agent.staked (agent_at a (bond (transact env c w)))
  < Agent.staked (agent_at a (bond w)) ->
  (exists v, c = call_unstake v /\ msg_sender env = a) \/
  (exists i d,
     c = call_disputeDeal i /\
     deals (bond w) !! Z.to_nat i = Some d /\ Deal.status d = Active /\
     ((msg_sender env = Deal.creator d /\ a = Deal.counterparty d) \/
      (msg_sender env = Deal.counterparty d /\ a = Deal.creator d))).
Proof.
  intros Hr He Hc. pose proof (reachable_Inv _ Hr) as HI.
  unfold transact.
  destruct (run (dispatch env c) w) as [u w' t|] eqn:H; [|lia].
  unfold run in H. intros Hlt.
  destruct c; simpl in H, Hc; unfold_calls H; minv H; wsimpl.
  all: repeat match goal with H : _ + _ <= MAX_UINT256 |- _ => clear H end.
  all: try match goal with
       | H : deals (bond _) !! _ = Some ?d |- _ =>
           rewrite ?list_lookup_alter_eq, ?H in *
       end; simplify_eq/=.
  all: try lia.
  all: revert Hlt; rewrite ?lookup_insert; repeat case_decide; subst; wsimpl;
       rewrite ?lookup_insert; repeat case_decide; subst; wsimpl; intros Hlt.
  all: try lia.
  all: bool_to_prop.
  all: unfold MIN_STAKE in *; try lia.
  all: try (left; eexists; split; [reflexivity|done]).
  all: try match goal with
       | Hk : Deal.creator _ = Deal.counterparty _ |- _ => rewrite Hk in *; lia
       | Hk : Deal.counterparty _ = Deal.creator _ |- _ => rewrite Hk in *; lia
       end.
  1: { destruct (agents (bond w) !! msg_sender env) as [ag|] eqn:Hx; simpl in *; [|lia].
       pose proof (inv_entries _ HI _ _ Hx). simpl in *. congruence. }
  all: right; exists _dealId, x0; repeat (split; [done|]).
  all: match goal with
       | Hi : deals (bond _) !! _ = Some _ |- _ =>
           destruct (deal_ok_lookup _ _ _ _ (inv_deals _ HI) Hi) as (_ & Hne & _)
       end.
  all: match goal with
       | Hp : _ || _ = true |- _ => apply orb_true_iff in Hp as [Hp|Hp]; bool_to_prop
       end.
  all: destruct (_ =? _)%N eqn:Hq; bool_to_prop; auto; congruence.
Qed.

Lemma stake_reduced_only_by_witness :
  (exists v, call_disputeDeal 0 = call_unstake v /\ alice = bob) \/
  (exists i d,
     call_disputeDeal 0 = call_disputeDeal i /\
     deals (bond with_deal) !! Z.to_nat i = Some d /\ Deal.status d = Active /\
     ((alice = Deal.creator d /\ bob = Deal.counterparty d) \/
      (alice = Deal.counterparty d /\ bob = Deal.creator d))).
Proof.
  apply (stake_reduced_only_by (mkEnv alice (t0 + 100)) (call_disputeDeal 0)
           with_deal bob with_deal_reachable); [done | done |].
  vm_compute. reflexivity.
Defined.

(* ================================================================= *)
(** ** Registration, and calls on overdue deals *)

(** X22.  In a reachable world a caller that is not registered yet registers
    with any name of 1 to 32 bytes: the call succeeds and emits
    AgentRegistered, the caller's record holds the name, the registration
    time and zero stake and counters, the caller is appended to the agent
    list at the index that was the agent count, its reputation is 0, and no
    other agent, no deal and no token balance changes. *)
Theorem registerAgent_spec env n w :
  let s := msg_sender env in
  reachable w ->
  ~ registered s (bond w) ->
  (0 < String.length n <= 32)%nat ->
  exists w',
    run (registerAgent env n) w
    = Ok tt w' [ SStore (slot_agent s); SStore slot_agentList;
                 Emit (AgentRegistered s n (block_timestamp env)) ] /\
    agent_at s (bond w') = Agent.mk n 0 0 0 0 (block_timestamp env) true /\
    agentList (bond w') = agentList (bond w) ++ [s] /\
    run (getAgentAt (Z.of_nat (length (agentList (bond w))))) w' = Ok s w' [] /\
    run (getReputation s) w' = Ok 0 w' [] /\
    (forall x, x <> s -> agent_at x (bond w') = agent_at x (bond w)) /\
    deals (bond w') = deals (bond w) /\
    usdc w' = usdc w.
Proof.
  intros s Hr Hnot Hlen.
  assert (Hex : Agent.exists_ (agent_at s (bond w)) = false).
  { unfold registered in Hnot. by destruct (Agent.exists_ _). }
  set (w' := mkWorld
               (set_agentList (agentList (bond w) ++ [s])
                  (update_agent s
                     (fun _ => Agent.mk n 0 0 0 0 (block_timestamp env) true) (bond w)))
               (usdc w)).
  exists w'. split.
  { unfold registerAgent. munfold. gsimpl. fold s.
    unfold agent_at in Hex. rewrite Hex. gsimpl.
    rewrite (proj2 (Z.ltb_lt 0 _)) by lia.
    rewrite (proj2 (Z.leb_le _ 32)) by lia. gsimpl. reflexivity. }
  assert (Hag : agent_at s (bond w') = Agent.mk n 0 0 0 0 (block_timestamp env) true).
  { unfold agent_at. simpl. by rewrite lookup_insert_eq. }
  split; [exact Hag|]. split; [reflexivity|].
  split.
  { unfold getAgentAt. munfold. simpl. rewrite Nat2Z.id.
    by rewrite lookup_app_r, Nat.sub_diag. }
  split.
  { rewrite getReputation_score; rewrite Hag; [reflexivity|].
    unfold in_range. simpl. pose proof MAX_UINT256_eq. lia. }
  split; [|done].
  intros x Hx. unfold agent_at. simpl. by rewrite lookup_insert_ne.
Qed.

Lemma registerAgent_spec_witness :
  exists w',
    run (registerAgent (mkEnv charlie (t0 + 10)) "Charlie") with_deal
    = Ok tt w' [ SStore (slot_agent charlie); SStore slot_agentList;
                 Emit (AgentRegistered charlie "Charlie" (t0 + 10)) ] /\
    run (getAgentAt 2) w' = Ok charlie w' [] /\
    run (getReputation charlie) w' = Ok 0 w' [].
Proof.
  destruct (registerAgent_spec (mkEnv charlie (t0 + 10)) "Charlie" with_deal)
    as (w' & Hrun & _ & _ & Hat & Hrep & _).
  - exact with_deal_reachable.
  - vm_compute. discriminate.
  - simpl. lia.
  - exists w'. split; [exact Hrun|]. split; [exact Hat | exact Hrep].
Defined.

Lemma disputeDeal_sender s t1 t2 i w :
  same_outcome (run (disputeDeal (mkEnv s t1) i) w) (run (disputeDeal (mkEnv s t2) i) w).
Proof.
  unfold disputeDeal. munfold. gsimpl.
  repeat (case_if; gsimpl; try done).
Qed.

(** X23.  The outcome of confirmDeal and of disputeDeal, that is the world they
    leave or their failure, does not depend on the block timestamp: neither
    function looks at the deal's expiry, so an overdue deal that has not
    been cancelled is confirmed, completed and disputed like any other
    Active deal. *)
Theorem confirm_dispute_ignore_expiry s t1 t2 i w :
  same_outcome (run (confirmDeal (mkEnv s t1) i) w)
               (run (confirmDeal (mkEnv s t2) i) w) /\
  same_outcome (run (disputeDeal (mkEnv s t1) i) w)
               (run (disputeDeal (mkEnv s t2) i) w).
Proof. split; [apply confirmDeal_sender | apply disputeDeal_sender]. Qed.

(* ================================================================= *)
(** ** The read-only clients *)

(** A view call made through the node at the world [w]: its value, or
    nothing when the call reverts and the client's promise is rejected. *)
Definition view {A} (m : M A) (w : World) : option A :=
  match run m w with
  | Ok a _ _ => Some a
  | Revert _ _ => None
  end.

(** [Array.prototype.sort(compareFn)]: a stable sort that puts [a] before
    [b] when [compareFn(a, b) <= 0]. *)
Fixpoint sort_insert {A} (compareFn : A -> A -> Z) (x : A) (l : list A) : list A :=
  match l with
  | [] => [x]
  | y :: l' => if compareFn x y <=? 0 then x :: l else y :: sort_insert compareFn x l'
  end.

Definition sort {A} (compareFn : A -> A -> Z) (l : list A) : list A :=
  foldr (sort_insert compareFn) [] l.

(** [enum DealStatus] as the ABI encodes it. *)
Definition status_code (s : DealStatus) : nat :=
  match s with
  | Active => 0 | Completed => 1 | Disputed => 2 | Cancelled => 3 | Expired => 4
  end.

Definition DEAL_STATUS : list string :=
  ["Active"; "Completed"; "Disputed"; "Cancelled"; "Expired"]%string.

Definition USDC_DECIMALS : Z := 6.

(** The token address the dashboard has in its source, and the one the
    deploy script passes to the constructor. *)
Definition USDC_ADDRESS : address := 0x833589fCD6eDb6E08f4c7C32D4f71b54bdA02913%N.
Definition USDC_BASE_SEPOLIA : address := 0x036CbD53842c5426634e7929541eC2318f3dCF7e%N.

(** The chain a client is connected to, taken to hold the MoltBond contract
    at [MOLTBOND_ADDRESS]: the contract together with the ledger of the
    token it was constructed with, the address of that token (the
    constructor's [_usdc], kept in the immutable [usdc]), and the ledgers
    of the other ERC-20 contracts by their address. *)
Record Chain := mkChain {
  moltbond : World;
  usdc_address : address;
  other_tokens : gmap address Token
}.

(** The ERC-20 ledger at an address, if there is one. *)
Definition token_at (a : address) (c : Chain) : option Token :=
  if decide (a = usdc_address c) then Some (usdc (moltbond c))
  else other_tokens c !! a.

(** [balanceOf(account)] read from the ERC-20 contract at [token]; where no
    contract is, the call returns no data and the client's promise is
    rejected. *)
Definition erc20_balanceOf (token account : address) (c : Chain) : option Z :=
  match token_at token c with
  | Some k => Some (balance_of account k)
  | None => None
  end.

Section Clients.
(** The library functions the clients call: [formatUnits] of ethers and of
    viem, [Number] applied to a [bigint], and [new Date(Number(x) * 1000)]. *)
Variable formatUnits : Z -> Z -> string.
Variable Number : Z -> Z.
Variable Date : Type.
Variable date_of_seconds : Z -> Date.

Definition formatUSDC (n : Z) : string := formatUnits n USDC_DECIMALS.

(* ----------------------------------------------------------------- *)
(** *** The command-line client: [leaderboard] *)

Record Row := mkRow {
  row_name : string;
  row_address : address;
  row_rep : Z;
  row_staked : string;
  row_deals : Z
}.

(** One turn of the loop: [getAgentAt(i)], [agents(addr)], [getReputation(addr)]. *)
Definition leaderboard_row (w : World) (i : nat) : option Row :=
  match view (getAgentAt (Z.of_nat i)) w with
  | None => None
  | Some addr =>
      let a := agent_at addr (bond w) in
      match view (getReputation addr) w with
      | None => None
      | Some rep =>
          Some (mkRow (Agent.name a) addr (Number rep) (formatUSDC (Agent.staked a))
                      (Number (Agent.dealsCompleted a)))
      end
  end.

(** The rows [leaderboard] prints, in the order it prints them. *)
Definition leaderboard (w : World) : option (list Row) :=
  match view getAgentCount w with
  | None => None
  | Some count =>
      if count =? 0 then Some []
      else
        match mapM (leaderboard_row w) (seq 0 (Z.to_nat (Z.min (Number count) 50))) with
        | None => None
        | Some agents => Some (sort (fun a b => row_rep b - row_rep a) agents)
        end
  end.

(* ----------------------------------------------------------------- *)
(** *** The dashboard: [fetchDeals] *)

Record DealView := mkDealView {
  view_id : Z;
  view_creator : address;
  view_counterparty : address;
  view_amount : string;
  view_description : string;
  view_status : string;
  view_createdAt : Date;
  view_expiresAt : Date;
  view_creatorConfirmed : bool;
  view_counterpartyConfirmed : bool
}.

(** One turn of the loop: the public getter [deals(i)]. *)
Definition fetchDeal (w : World) (i : nat) : option DealView :=
  match view (deal_at (Z.of_nat i)) w with
  | None => None
  | Some d =>
      Some (mkDealView (Number (Deal.id d)) (Deal.creator d) (Deal.counterparty d)
              (formatUnits (Deal.amount d) 6) (Deal.description d)
              (default "Unknown"%string (DEAL_STATUS !! status_code (Deal.status d)))
              (date_of_seconds (Deal.createdAt d)) (date_of_seconds (Deal.expiresAt d))
              (Deal.creatorConfirmed d) (Deal.counterpartyConfirmed d))
  end.

(** [for (let i = n - 1; i >= 0; i--)] *)
Definition fetchDeals (w : World) : option (list DealView) :=
  match view getDealCount w with
  | None => None
  | Some count =>
      let n := Z.to_nat (Z.min (Number count) 50) in
      mapM (fetchDeal w) (reverse (seq 0 n))
  end.

(* ----------------------------------------------------------------- *)
(** *** The dashboard: [fetchStats] *)

Record Stats := mkStats {
  agentCount : Z;
  dealCount : Z;
  totalLocked : string
}.

(** [getAgentCount()] and [getDealCount()] of the contract at
    [MOLTBOND_ADDRESS], and [balanceOf(MOLTBOND_ADDRESS)] of the token at
    [USDC_ADDRESS]; [Promise.all] is rejected when one of the three is. *)
Definition fetchStats (c : Chain) : option Stats :=
  match view getAgentCount (moltbond c), view getDealCount (moltbond c),
        erc20_balanceOf USDC_ADDRESS MOLTBOND_ADDRESS c with
  | Some agentCount, Some dealCount, Some contractBalance =>
      Some (mkStats (Number agentCount) (Number dealCount)
                    (formatUnits contractBalance 6))
  | _, _, _ => None
  end.

(** [Number] is exact on the safe integers and monotone. *)
Hypothesis Number_exact : forall n, 0 <= n <= 2 ^ 53 -> Number n = n.
Hypothesis Number_mono : forall n m, n <= m -> Number n <= Number m.

Lemma Number_min n : 0 <= n -> Z.min (Number n) 50 = Z.min n 50.
Proof.
  intros Hn. destruct (Z.le_gt_cases n (2 ^ 53)) as [H|H].
  - by rewrite Number_exact.
  - pose proof (Number_mono (2 ^ 53) n ltac:(lia)) as Hm.
    rewrite Number_exact in Hm by lia. lia.
Qed.
End Clients.

Lemma sort_insert_perm {A} (cmp : A -> A -> Z) x l : sort_insert cmp x l ≡ₚ x :: l.
Proof.
  induction l as [|y l IH]; simpl; [done|].
  destruct (cmp x y <=? 0); [done|]. rewrite IH. apply Permutation_swap.
Qed.

Lemma sort_perm {A} (cmp : A -> A -> Z) l : sort cmp l ≡ₚ l.
Proof.
  induction l as [|x l IH]; simpl; [done|].
  by rewrite sort_insert_perm, IH.
Qed.

Lemma sort_insert_sorted {A} (cmp : A -> A -> Z) x l :
  (forall a b, cmp a b <= 0 \/ cmp b a <= 0) ->
  Sorted (fun a b => cmp a b <= 0) l ->
  Sorted (fun a b => cmp a b <= 0) (sort_insert cmp x l).
Proof.
  intros Htot. induction 1 as [|y l Hs IH Hhd]; simpl.
  - repeat constructor.
  - destruct (Z.leb_spec (cmp x y) 0) as [Hle|Hgt].
    + constructor; [by constructor | by constructor].
    + constructor; [exact IH|].
      assert (Hyx : cmp y x <= 0) by (destruct (Htot x y); lia).
      destruct Hhd as [|z l' Hyz]; simpl; [by constructor|].
      destruct (cmp x z <=? 0); by constructor.
Qed.

Lemma sort_sorted {A} (cmp : A -> A -> Z) l :
  (forall a b, cmp a b <= 0 \/ cmp b a <= 0) ->
  Sorted (fun a b => cmp a b <= 0) (sort cmp l).
Proof.
  intros Htot. induction l as [|x l IH]; simpl; [constructor|].
  by apply sort_insert_sorted.
Qed.

(** A loop over the indices [0 .. n-1] whose every turn succeeds. *)
Lemma mapM_indices {A B} (f : nat -> option B) (g : A -> B) (l : list A) (n : nat) :
  (n <= length l)%nat ->
  (forall i x, (i < n)%nat -> l !! i = Some x -> f i = Some (g x)) ->
  Forall2 (fun i y => f i = Some y) (seq 0 n) (g <$> take n l).
Proof.
  intros Hn Hf. apply Forall2_same_length_lookup_2.
  - rewrite length_seq, length_fmap, length_take. lia.
  - intros i j y Hi Hy. apply lookup_seq in Hi as [-> Hi]. simpl.
    rewrite list_lookup_fmap, lookup_take_lt in Hy by done.
    destruct (l !! i) as [x|] eqn:Hx; simplify_eq/=. by eapply Hf.
Qed.

Lemma view_getAgentCount w :
  view getAgentCount w = Some (Z.of_nat (length (agentList (bond w)))).
Proof. reflexivity. Qed.

Lemma view_getDealCount w :
  view getDealCount w = Some (Z.of_nat (length (deals (bond w)))).
Proof. reflexivity. Qed.

Lemma view_getAgentAt w (i : nat) a :
  agentList (bond w) !! i = Some a -> view (getAgentAt (Z.of_nat i)) w = Some a.
Proof.
  intros H. unfold view, getAgentAt. munfold. by rewrite Nat2Z.id, H.
Qed.

Lemma view_deal_at w (i : nat) d :
  deals (bond w) !! i = Some d -> view (deal_at (Z.of_nat i)) w = Some d.
Proof.
  intros H. unfold view. munfold. by rewrite Nat2Z.id, H.
Qed.

(** The row of an agent, from its record. *)
Definition row_of (formatUnits : Z -> Z -> string) (Number : Z -> Z) (w : World)
    (addr : address) : Row :=
  let a := agent_at addr (bond w) in
  mkRow (Agent.name a) addr (score a) (formatUnits (Agent.staked a) 6)
        (Number (Agent.dealsCompleted a)).

(** X24.  On a reachable world whose deal count times 500 fits uint256 the
    command-line client's leaderboard never fails.  It prints one row for
    each of the first min(count, 50) agents of the agent list and no other;
    every row is that of a registered agent and shows the score
    getReputation returns for it, between 0 and 1000; the rows are ordered
    by score from the highest to the lowest.  ([Number] is any function
    that is exact on the safe integers and monotone, as the one of
    JavaScript is.) *)
Theorem leaderboard_spec formatUnits Number w :
  (forall n, 0 <= n <= 2 ^ 53 -> Number n = n) ->
  (forall n m, n <= m -> Number n <= Number m) ->
  reachable w ->
  Z.of_nat (length (deals (bond w))) * 500 <= MAX_UINT256 ->
  exists rows,
    leaderboard formatUnits Number w = Some rows /\
    length rows = Nat.min (length (agentList (bond w))) 50 /\
    Sorted (fun a b => row_rep b <= row_rep a) rows /\
    rows ≡ₚ row_of formatUnits Number w <$> take 50 (agentList (bond w)) /\
    Forall (fun r => registered (row_address r) (bond w) /\
                     view (getReputation (row_address r)) w = Some (row_rep r) /\
                     0 <= row_rep r <= 1000) rows.
Proof.
  intros Hex Hmono Hr Hn.
  pose proof (reachable_Inv _ Hr) as HI. pose proof (reachable_Books _ Hr) as HB.
  set (l := agentList (bond w)).
  set (n := Nat.min (length l) 50).
  assert (Hn50 : Z.to_nat (Z.min (Number (Z.of_nat (length l))) 50) = n).
  { rewrite (Number_min Number Hex Hmono) by lia. unfold n. lia. }
  assert (Hrow : forall i a, (i < n)%nat -> l !! i = Some a ->
            leaderboard_row formatUnits Number w i
            = Some (row_of formatUnits Number w a)).
  { intros i a Hi Ha. unfold leaderboard_row.
    rewrite (view_getAgentAt _ _ _ Ha).
    pose proof (reachable_in_range w a Hr Hn) as Hrange.
    unfold view. rewrite getReputation_score by done.
    unfold row_of, formatUSDC, USDC_DECIMALS. do 2 f_equal.
    apply Hex. pose proof (score_bounds _ Hrange). lia. }
  assert (Hloop : mapM (leaderboard_row formatUnits Number w) (seq 0 n)
                  = Some (row_of formatUnits Number w <$> take n l)).
  { apply mapM_Some_2, mapM_indices; [unfold n; lia | exact Hrow]. }
  assert (Htake : take n l = take 50 l).
  { unfold n. destruct (Nat.le_gt_cases (length l) 50).
    - rewrite Nat.min_l by done. by rewrite !take_ge by lia.
    - by rewrite Nat.min_r by lia. }
  set (rows := sort (fun a b => row_rep b - row_rep a)
                 (row_of formatUnits Number w <$> take 50 l)).
  assert (Hperm : rows ≡ₚ row_of formatUnits Number w <$> take 50 l)
    by apply sort_perm.
  exists rows. split; [|split; [|split; [|split]]].
  - unfold leaderboard. rewrite view_getAgentCount. fold l.
    destruct (Z.eqb_spec (Z.of_nat (length l)) 0) as [H0|H0].
    + assert (l = []) as Hl by (destruct l; [done | simpl in H0; lia]).
      unfold rows. by rewrite Hl.
    + by rewrite Hn50, Hloop, Htake.
  - rewrite Hperm, length_fmap, length_take. unfold n. lia.
  - unfold rows.
    pose proof (sort_sorted (fun a b : Row => row_rep b - row_rep a)
                  (row_of formatUnits Number w <$> take 50 l)) as Hs.
    eapply Sorted_ind with (P := Sorted (fun a b => row_rep b <= row_rep a));
      [constructor | | apply Hs; intros; lia].
    intros a k _ Hk Hhd. constructor; [done|].
    destruct Hhd; constructor. lia.
  - exact Hperm.
  - apply Forall_forall. intros r Hin. rewrite Hperm in Hin.
    apply list_elem_of_fmap in Hin as (a & -> & Ha).
    apply elem_of_take in Ha as (i & Ha & _). fold l in Ha.
    assert (Hreg : registered a (bond w)).
    { apply listed_registered; [done..|]. by eapply list_elem_of_lookup_2. }
    pose proof (reachable_in_range w a Hr Hn) as Hrange.
    unfold row_of. simpl. split; [done|].
    split; [|by apply score_bounds].
    unfold view. by rewrite getReputation_score.
Qed.

Lemma leaderboard_spec_witness :
  exists rows,
    leaderboard (fun _ _ => EmptyString) (fun n => n) ranking_world = Some rows /\
    length rows = 2%nat /\
    Sorted (fun a b => row_rep b <= row_rep a) rows.
Proof.
  destruct (leaderboard_spec (fun _ _ => EmptyString) (fun n => n) ranking_world)
    as (rows & Hrun & Hlen & Hs & _).
  - intros n _. reflexivity.
  - intros n m H. exact H.
  - exact ranking_world_reachable.
  - vm_compute. discriminate.
  - exists rows. split; [exact Hrun|]. split; [exact Hlen | exact Hs].
Defined.

(** What the dashboard shows of a deal. *)
Definition deal_view (formatUnits : Z -> Z -> string) (Date : Type)
    (date_of_seconds : Z -> Date) (d : Deal.t) : DealView Date :=
  mkDealView Date (Deal.id d) (Deal.creator d) (Deal.counterparty d)
    (formatUnits (Deal.amount d) 6) (Deal.description d)
    (match Deal.status d with
     | Active => "Active" | Completed => "Completed" | Disputed => "Disputed"
     | Cancelled => "Cancelled" | Expired => "Expired"
     end)
    (date_of_seconds (Deal.createdAt d)) (date_of_seconds (Deal.expiresAt d))
    (Deal.creatorConfirmed d) (Deal.counterpartyConfirmed d).

(** X25.  On a reachable world the dashboard's fetchDeals never fails.  It
    returns the first min(count, 50) deals of the contract in descending
    order of id, from min(count, 50) - 1 down to 0, so that with more than
    50 deals no deal with id 50 or more is returned; every status name is
    one of the contract's and is neither "Unknown" nor "Cancelled". *)
Theorem fetchDeals_spec formatUnits Number Date date_of_seconds w :
  (forall n, 0 <= n <= 2 ^ 53 -> Number n = n) ->
  (forall n m, n <= m -> Number n <= Number m) ->
  reachable w ->
  let n := Nat.min (length (deals (bond w))) 50 in
  exists l,
    fetchDeals formatUnits Number Date date_of_seconds w = Some l /\
    l = deal_view formatUnits Date date_of_seconds
          <$> reverse (take 50 (deals (bond w))) /\
    view_id Date <$> l = Z.of_nat <$> reverse (seq 0 n) /\
    Forall (fun v => view_status Date v <> "Unknown"%string /\
                     view_status Date v <> "Cancelled"%string) l.
Proof.
  intros Hex Hmono Hr n.
  pose proof (reachable_Books _ Hr) as HB.
  set (ds := deals (bond w)) in *.
  assert (Hn50 : Z.to_nat (Z.min (Number (Z.of_nat (length ds))) 50) = n).
  { rewrite (Number_min Number Hex Hmono) by lia. unfold n. lia. }
  assert (Htake : take n ds = take 50 ds).
  { unfold n. destruct (Nat.le_gt_cases (length ds) 50).
    - rewrite Nat.min_l by done. by rewrite !take_ge by lia.
    - by rewrite Nat.min_r by lia. }
  assert (Hone : forall i d, (i < n)%nat -> ds !! i = Some d ->
            fetchDeal formatUnits Number Date date_of_seconds w i
            = Some (deal_view formatUnits Date date_of_seconds d)).
  { intros i d Hi Hd. unfold fetchDeal. rewrite (view_deal_at _ _ _ Hd).
    unfold deal_view. do 2 f_equal.
    - rewrite (ids_dense_lookup _ _ _ (books_ids _ HB) Hd).
      rewrite Hex; [done|]. unfold n in Hi. lia.
    - by destruct (Deal.status d). }
  assert (Hids : Deal.id <$> take n ds = Z.of_nat <$> seq 0 n).
  { apply list_eq. intros i. rewrite !list_lookup_fmap.
    destruct (Nat.lt_ge_cases i n) as [Hi|Hi].
    - rewrite lookup_take_lt, lookup_seq_lt by done. simpl.
      destruct (ds !! i) as [d|] eqn:Hd; simpl.
      + by rewrite (ids_dense_lookup _ _ _ (books_ids _ HB) Hd).
      + apply lookup_ge_None in Hd. unfold n in Hi. lia.
    - by rewrite lookup_take_ge, lookup_seq_ge by done. }
  eexists. split; [|split; [reflexivity|split]].
  - unfold fetchDeals. rewrite view_getDealCount. fold ds. cbv zeta. rewrite Hn50.
    apply mapM_Some_2. rewrite <- Htake, fmap_reverse.
    apply Forall2_reverse, mapM_indices; [unfold n; lia | exact Hone].
  - rewrite <- Htake, <- list_fmap_compose, !fmap_reverse.
    f_equal. exact Hids.
  - apply Forall_fmap, Forall_reverse, Forall_take.
    eapply Forall_impl; [exact (books_deals _ HB)|].
    intros d (_ & _ & _ & Hnc & _). unfold deal_view. simpl.
    destruct (Deal.status d); done.
Qed.

Lemma fetchDeals_spec_witness :
  exists l,
    fetchDeals (fun _ _ => EmptyString) (fun n => n) Z (fun s => s * 1000) completed
    = Some l /\
    view_id Z <$> l = [0].
Proof.
  destruct (fetchDeals_spec (fun _ _ => EmptyString) (fun n => n) Z (fun s => s * 1000)
              completed) as (l & Hrun & _ & Hids & _).
  - intros n _. reflexivity.
  - intros n m H. exact H.
  - exact completed_reachable.
  - exists l. split; [exact Hrun | exact Hids].
Defined.

(** X26.  On a chain that holds the MoltBond contract at MOLTBOND_ADDRESS, in a
    reachable world with fewer than 2^53 agents and deals, the dashboard's
    fetchStats returns the number of registered agents and the number of
    deals, and as the total locked the formatted balance the contract has
    in the token at the dashboard's hard-coded USDC_ADDRESS.  When the
    contract was constructed with that token, this is the sum of all stakes
    and of the amounts of all Active deals.  When it was constructed with
    another token, as the deploy script does, and USDC_ADDRESS holds some
    other token, it is the contract's balance in that other token, whatever
    the stakes and the deals are. *)
Theorem fetchStats_spec formatUnits Number c :
  (forall n, 0 <= n <= 2 ^ 53 -> Number n = n) ->
  let w := moltbond c in
  let stats locked :=
    Some (mkStats (Z.of_nat (size (agents (bond w))))
                  (Z.of_nat (length (deals (bond w))))
                  (formatUnits locked 6)) in
  reachable w ->
  Z.of_nat (size (agents (bond w))) <= 2 ^ 53 ->
  Z.of_nat (length (deals (bond w))) <= 2 ^ 53 ->
  (usdc_address c = USDC_ADDRESS ->
   fetchStats formatUnits Number c
   = stats (total_staked (agents (bond w)) + escrowed (deals (bond w)))) /\
  (usdc_address c <> USDC_ADDRESS ->
   forall k, other_tokens c !! USDC_ADDRESS = Some k ->
   fetchStats formatUnits Number c = stats (balance_of MOLTBOND_ADDRESS k)).
Proof.
  intros Hex w stats Hr Ha Hd. subst stats.
  pose proof (reachable_Inv _ Hr) as HI. pose proof (reachable_Books _ Hr) as HB.
  assert (Hsize : length (agentList (bond w)) = size (agents (bond w))).
  { rewrite <- (size_dom (D := gset address)), (books_listed _ HB).
    symmetry. apply size_list_to_set, (books_nodup _ HB). }
  unfold fetchStats, erc20_balanceOf, token_at. fold w.
  rewrite view_getAgentCount, view_getDealCount, Hsize, !Hex by lia.
  split.
  - intros Heq. rewrite decide_True by done.
    do 3 f_equal. apply (inv_conservation _ HI).
  - intros Hne k Hk. rewrite decide_False by done. by rewrite Hk.
Qed.

Lemma fetchStats_spec_witness :
  let formatUnits (n decimals : Z) : string :=
    if n =? USDC 250 then "250"%string
    else if n =? 0 then "0"%string else "other"%string in
  let same_token := mkChain with_deal USDC_ADDRESS ∅ in
  let other_token :=
    mkChain with_deal USDC_BASE_SEPOLIA {[USDC_ADDRESS := mkToken ∅ ∅]} in
  held with_deal = USDC 250 /\
  fetchStats formatUnits (fun n => n) same_token
  = Some (mkStats 2 1 "250"%string) /\
  fetchStats formatUnits (fun n => n) other_token
  = Some (mkStats 2 1 "0"%string).
Proof.
  intros formatUnits same_token other_token.
  split; [vm_compute; reflexivity|].
  split.
  - refine (eq_trans (proj1 (fetchStats_spec formatUnits (fun n => n) same_token
                               _ with_deal_reachable _ _) _) _).
    + intros n _. reflexivity.
    + vm_compute. discriminate.
    + vm_compute. discriminate.
    + reflexivity.
    + vm_compute. reflexivity.
  - refine (eq_trans (proj2 (fetchStats_spec formatUnits (fun n => n) other_token
                               _ with_deal_reachable _ _) _ (mkToken ∅ ∅) _) _).
    + intros n _. reflexivity.
    + vm_compute. discriminate.
    + vm_compute. discriminate.
    + vm_compute. discriminate.
    + reflexivity.
    + vm_compute. reflexivity.
Defined.
